(** * Deployment orchestration of nodejs-ansible-deploy

    The orchestrator of this repository is written as three Ansible plays:
    - [ansible/rolling-update.yml]    the serial rolling update,
    - [ansible/disaster-recovery.yml] the restore from an explicit backup,
    - the initial deployment play ("Deploy Advanced Node.js Application").

    A play is data: sections of tasks, each task a module call with its
    keywords ([when], [ignore_errors], [register], [retries], [delay],
    [until], [notify], [tags]).  The plays below are transcribed task by
    task, under the names of the tasks; [run_task], [run_host] and
    [run_play] give them the meaning Ansible gives them:
    - per host, the tasks of a section run in order; a task whose [when]
      is false is skipped; a failed task that is not [ignore_errors]
      removes the host from the play; handlers that were notified run at
      the end of the section, on hosts that have not failed;
    - a task with [retries] is tried once more after each failure, up to
      [retries] times, sleeping [delay] seconds in between, until its
      [until] holds (by default: until it does not fail); [uri] fails on
      any status other than 200;
    - per play, the hosts go in batches of [serial], task by task inside a
      batch, and the play stops after a batch in which every host failed;
    - under [--tags] a task runs by Ansible's rules, the special tags
      all, tagged, untagged, always and never included.

    What a module does is modelled on the application directory, the
    backup directory, /tmp, the services and the load balancer membership
    of a host, and on the files it writes outside the application
    directory.  A file goes where its path leads from the root: the
    destination of a copy and the member names of an archive are
    resolved segment by segment, so that [app_dir/../package.json] is
    /opt/package.json, and the member nodejs-app/app.js of an archive
    extracted at / is /nodejs-app/app.js.  Everything else
    (whether a module call fails, what the health endpoint answers, the
    clock, the operator's variables, the files of the control node) is
    read from an oracle, [host_world].

    Two shell scripts stand beside the plays: [deploy.sh], which runs
    the deployment from the control node, and [templates/monitor.sh.j2],
    which the deployment installs as /usr/local/bin/monitor-app.  They
    are transcribed function by function in [DeployScript] and
    [MonitorScript]; a run of a script is the list of what it printed,
    logged and executed, with the way control left it. *)

From stdpp Require Import gmap strings list fin_maps pretty.
From Stdlib Require Import ZArith Lia.

Open Scope Z_scope.
Open Scope string_scope.
Open Scope list_scope.

(** ** Data model *)

(** A directory tree: path of a file -> its content. *)
Abbreviation tree := (gmap string string).

(** What a file on disk holds: a tar.gz archive, as the files it has by
    member name, or bytes that are no archive ([Raw 0] is the empty file). *)
Inductive content :=
| Archive (members : tree)
| Raw (size : N).

(** [app_dir: /opt/nodejs-app], and its last segment. *)
Definition app_dir : string := "/opt/nodejs-app".
Definition app_base : string := "nodejs-app".

(** The archive that the [archive] module makes of [path: app_dir] when
    the directory holds [files]: the member names are relative to the
    parent of the path, so every one starts with nodejs-app/. *)
Definition Tarball (files : tree) : content :=
  Archive (kmap (String.append (app_base +:+ "/")) files).

(** An archive of app_dir made by hand from the root of a host
    (tar -C / opt/nodejs-app): the member names are paths from the root. *)
Definition Rooted (files : tree) : content :=
  Archive (kmap (String.append "opt/nodejs-app/") files).

Record file := File { f_mtime : Z; f_data : content }.

(** A directory of files: file name -> file. *)
Abbreviation dir := (gmap string file).

(** Result of a task as kept by [register]. *)
Inductive reg_val :=
| RHttp (status : Z)            (* uri: [.status] *)
| RStat (exists_ : bool)        (* stat: [.stat.exists] *)
| RFound (files : list string)  (* find: [.files] *)
| RPlain (ok : bool)
| RSkipped.

(** One managed host. *)
Record host_state := HostState {
  services : gmap string bool;   (* systemd unit -> started? *)
  app : option tree;             (* app_dir; [None] when the directory is absent *)
  backups : dir;                 (* backup_dir *)
  tmp : dir;                     (* /tmp *)
  in_rotation : bool;            (* member of the load balancer pool *)
  regs : gmap string reg_val;    (* registered variables *)
  notified : list string;        (* handlers notified and not yet flushed *)
  elsewhere : tree               (* files written outside app_dir, by absolute path *)
}.

Definition set_services f (s : host_state) : host_state :=
  HostState (f (services s)) (app s) (backups s) (tmp s) (in_rotation s) (regs s) (notified s) (elsewhere s).
Definition set_app a (s : host_state) : host_state :=
  HostState (services s) a (backups s) (tmp s) (in_rotation s) (regs s) (notified s) (elsewhere s).
Definition set_backups b (s : host_state) : host_state :=
  HostState (services s) (app s) b (tmp s) (in_rotation s) (regs s) (notified s) (elsewhere s).
Definition set_tmp d (s : host_state) : host_state :=
  HostState (services s) (app s) (backups s) d (in_rotation s) (regs s) (notified s) (elsewhere s).
Definition set_rotation b (s : host_state) : host_state :=
  HostState (services s) (app s) (backups s) (tmp s) b (regs s) (notified s) (elsewhere s).
Definition set_regs r (s : host_state) : host_state :=
  HostState (services s) (app s) (backups s) (tmp s) (in_rotation s) r (notified s) (elsewhere s).
Definition set_notified n (s : host_state) : host_state :=
  HostState (services s) (app s) (backups s) (tmp s) (in_rotation s) (regs s) n (elsewhere s).
Definition set_elsewhere e (s : host_state) : host_state :=
  HostState (services s) (app s) (backups s) (tmp s) (in_rotation s) (regs s) (notified s) e.

(** What the plays cannot decide by themselves, per host. *)
Record host_world := World {
  w_fails : string -> bool;        (* the module call of the named task fails *)
  w_changes : string -> bool;      (* an unmodelled module reports "changed" *)
  w_http : string -> nat -> Z;     (* status answered to attempt n of the named uri task *)
  w_clock : string -> Z;           (* wall clock (epoch seconds) when the named task runs *)
  w_epoch : Z;                     (* the fact ansible_date_time.epoch, gathered once *)
  w_flags : gmap string bool;      (* boolean variables given by the operator *)
  w_strs : gmap string string;     (* string variables given by the operator / inventory *)
  w_release : tree;                (* the project files on the control node *)
  w_modules : tree;                (* node_modules and the lock file as npm leaves them *)
  w_templates : tree;              (* rendered templates, by destination *)
  w_controller : dir               (* files on the control node, by path *)
}.

(** ** Conditions ([when], [until]) *)

Inductive sexpr :=
| SVar (v : string)
| SDefault (v : string) (d : string).   (* v | default(d) *)

Inductive cond :=
| CTrue
| CDefined (v : string)                 (* v is defined *)
| CFlag (v : string) (d : bool)         (* v | default(d) *)
| CNot (c : cond)
| CAnd (c1 c2 : cond)
| CStrEq (e : sexpr) (s : string)       (* e == 's' *)
| CStrNe (e : sexpr) (s : string)       (* e != 's' *)
| CStatusEq (r : string) (n : Z)        (* r.status == n *)
| CStatusNe (r : string) (n : Z)        (* r.status != n *)
| CStatExists (r : string).             (* r.stat.exists *)

Definition eval_sexpr (w : host_world) (e : sexpr) : option string :=
  match e with
  | SVar v => w_strs w !! v
  | SDefault v d => Some (default d (w_strs w !! v))
  end.

(** [None]: the expression cannot be evaluated (undefined variable). *)
Fixpoint eval_cond (w : host_world) (s : host_state) (c : cond) : option bool :=
  match c with
  | CTrue => Some true
  | CDefined v => Some (bool_decide (is_Some (w_strs w !! v)))
  | CFlag v d => Some (default d (w_flags w !! v))
  | CNot c => negb <$> eval_cond w s c
  | CAnd c1 c2 =>
      match eval_cond w s c1 with
      | Some true => eval_cond w s c2
      | r => r
      end
  | CStrEq e x => (fun v => bool_decide (v = x)) <$> eval_sexpr w e
  | CStrNe e x => (fun v => bool_decide (v ≠ x)) <$> eval_sexpr w e
  | CStatusEq r n =>
      match regs s !! r with
      | Some (RHttp st) => Some (Z.eqb st n)
      | _ => None
      end
  | CStatusNe r n =>
      match regs s !! r with
      | Some (RHttp st) => Some (negb (Z.eqb st n))
      | _ => None
      end
  | CStatExists r =>
      match regs s !! r with
      | Some (RStat b) => Some b
      | _ => None
      end
  end.

(** ** Modules *)

Inductive svc_target := started | stopped | restarted.
Inductive npm_state := present | latest.
Inductive lb_action := lb_remove | lb_add.

(** Source of [unarchive]. *)
Inductive archive_src :=
| InBackupDir (prefix : string)   (* backup_dir/<prefix><epoch>.tar.gz *)
| InTmp (name : string).          (* /tmp/<name> *)

Inductive fs_path :=
| AppDir                          (* app_dir *)
| TmpFile (name : string)         (* /tmp/<name> *)
| FoundIn (r : string).           (* with_items: r.files, item.path *)

Inductive module :=
| debug
| fail_
| archive (prefix : string)       (* path: app_dir, dest: backup_dir/<prefix><epoch>.tar.gz *)
| unarchive (src : archive_src)   (* dest: "/", remote_src *)
| systemd (units : list string) (st : svc_target)
| copy_items (items : list string)             (* src: item, dest: app_dir/item *)
| copy_dir (src dest : string)                 (* src: a directory of the project, dest: app_dir/dest *)
| copy_to_tmp (e : sexpr) (name : string)      (* src: e on the control node, dest: /tmp/name *)
| template_app (dest : string)                 (* dest: app_dir/dest *)
| npm (st : npm_state)                         (* path: app_dir *)
| wait_for
| uri_get (url : string)
| uri_lb (a : lb_action)
| find (pre suf : string) (age : Z)            (* paths: backup_dir, patterns: pre*suf *)
| file_absent (p : fs_path)
| file_directory (p : fs_path)
| stat_local (e : sexpr)                       (* delegate_to: localhost *)
| mail
| other (m : string).                          (* a module that touches nothing modelled *)

Record task := Task {
  t_name : string;
  t_module : module;
  t_when : cond;
  t_ignore_errors : bool;
  t_register : option string;
  t_retries : option nat;
  t_delay : nat;
  t_until : option cond;
  t_notify : list string;
  t_tags : list string;
  t_changed_when : option bool
}.

(** A task with every keyword at Ansible's default ([delay] is 5). *)
Definition task_ (name : string) (m : module) : task :=
  Task name m CTrue false None None 5 None [] [] None.

Definition when_ c (t : task) : task :=
  Task (t_name t) (t_module t) c (t_ignore_errors t) (t_register t) (t_retries t)
       (t_delay t) (t_until t) (t_notify t) (t_tags t) (t_changed_when t).
Definition ignore_errors (t : task) : task :=
  Task (t_name t) (t_module t) (t_when t) true (t_register t) (t_retries t)
       (t_delay t) (t_until t) (t_notify t) (t_tags t) (t_changed_when t).
Definition register r (t : task) : task :=
  Task (t_name t) (t_module t) (t_when t) (t_ignore_errors t) (Some r) (t_retries t)
       (t_delay t) (t_until t) (t_notify t) (t_tags t) (t_changed_when t).
Definition retries n (t : task) : task :=
  Task (t_name t) (t_module t) (t_when t) (t_ignore_errors t) (t_register t) (Some n)
       (t_delay t) (t_until t) (t_notify t) (t_tags t) (t_changed_when t).
Definition delay n (t : task) : task :=
  Task (t_name t) (t_module t) (t_when t) (t_ignore_errors t) (t_register t) (t_retries t)
       n (t_until t) (t_notify t) (t_tags t) (t_changed_when t).
Definition until c (t : task) : task :=
  Task (t_name t) (t_module t) (t_when t) (t_ignore_errors t) (t_register t) (t_retries t)
       (t_delay t) (Some c) (t_notify t) (t_tags t) (t_changed_when t).
Definition notify l (t : task) : task :=
  Task (t_name t) (t_module t) (t_when t) (t_ignore_errors t) (t_register t) (t_retries t)
       (t_delay t) (t_until t) l (t_tags t) (t_changed_when t).
Definition tags l (t : task) : task :=
  Task (t_name t) (t_module t) (t_when t) (t_ignore_errors t) (t_register t) (t_retries t)
       (t_delay t) (t_until t) (t_notify t) l (t_changed_when t).
Definition changed_when b (t : task) : task :=
  Task (t_name t) (t_module t) (t_when t) (t_ignore_errors t) (t_register t) (t_retries t)
       (t_delay t) (t_until t) (t_notify t) (t_tags t) (Some b).

Notation "t |> f" := (f t) (at level 61, left associativity, only parsing).

(** A handler: a name to notify, a condition, and the tasks of its block
    (one task for a plain handler). *)
Record handler := Handler {
  h_name : string;
  h_when : cond;
  h_block : list task
}.

Record play := Play {
  p_name : string;
  p_serial : option nat;
  p_pre_tasks : list task;
  p_tasks : list task;
  p_post_tasks : list task;
  p_handlers : list handler
}.

(** ** The plays, task by task *)

Definition app_name : string := "nodejs-ansible-deploy".
Definition systemd_service_name : string := "nodejs-app".
Definition health_check_retries : nat := 10.
Definition health_check_delay : nat := 30.
Definition health_url : string := "http://localhost:3000/health".

(** [age: "7d"], in seconds. *)
Definition seven_days : Z := 7 * 86400.

Module RollingUpdate.

Definition check_rolling : task :=
  task_ "Check if this is a rolling update" debug.

Definition create_backup : task :=
  task_ "Create backup before update" (archive (app_name +:+ "-pre-update-"))
    |> tags ["backup"].

Definition remove_from_lb : task :=
  task_ "Remove server from load balancer" (uri_lb lb_remove)
    |> ignore_errors |> when_ (CDefined "load_balancer_host").

Definition drain : task :=
  task_ "Wait for connections to drain" wait_for |> tags ["drain"].

Definition stop_service : task :=
  task_ "Stop application service" (systemd [systemd_service_name] stopped).

Definition update_files : task :=
  task_ "Update application files"
    (copy_items ["../package.json"; "../app.js"; "../ecosystem.config.js"; "../healthcheck.js"])
    |> tags ["update"].

Definition update_src : task :=
  task_ "Update source directory" (copy_dir "../src/" "src/") |> tags ["update"].

Definition update_npm : task :=
  task_ "Update npm dependencies" (npm latest) |> tags ["update"].

Definition start_service : task :=
  task_ "Start application service" (systemd [systemd_service_name] started).

Definition wait_ready : task :=
  task_ "Wait for application to be ready" wait_for.

Definition health_check : task :=
  task_ "Health check after update" (uri_get health_url)
    |> register "health_check"
    |> retries health_check_retries
    |> delay health_check_delay
    |> until (CStatusEq "health_check" 200).

Definition add_to_lb : task :=
  task_ "Add server back to load balancer" (uri_lb lb_add)
    |> ignore_errors |> when_ (CDefined "load_balancer_host").

Definition verify_success : task :=
  task_ "Verify update success" debug.

Definition find_old_backups : task :=
  task_ "Clean up old backups" (find (app_name +:+ "-") ".tar.gz" seven_days)
    |> register "old_backups" |> tags ["cleanup"].

Definition remove_old_backups : task :=
  task_ "Remove old backups" (file_absent (FoundIn "old_backups"))
    |> tags ["cleanup"].

(** The block of the handler. *)
Definition stop_failed : task :=
  task_ "Stop failed service" (systemd [systemd_service_name] stopped).
Definition restore_from_backup : task :=
  task_ "Restore from backup" (unarchive (InBackupDir (app_name +:+ "-pre-update-"))).
Definition start_after_rollback : task :=
  task_ "Start service after rollback" (systemd [systemd_service_name] started).
Definition verify_rollback : task :=
  task_ "Verify rollback" (uri_get health_url)
    |> register "rollback_health" |> retries 5 |> delay 10.
Definition rollback_notification : task :=
  task_ "Rollback notification" debug.

Definition rollback_on_failure : handler :=
  Handler "rollback on failure" (CStatusNe "health_check" 200)
    [stop_failed; restore_from_backup; start_after_rollback; verify_rollback;
     rollback_notification].

Definition rolling_update : play :=
  Play "Rolling Update Deployment" (Some 1%nat)
    [check_rolling]
    [create_backup; remove_from_lb; drain; stop_service; update_files; update_src;
     update_npm; start_service; wait_ready; health_check; add_to_lb; verify_success]
    [find_old_backups; remove_old_backups]
    [rollback_on_failure].

End RollingUpdate.

Module DisasterRecovery.

(** [recovery_backup_path: "{{ backup_restore_path | default('') }}"] *)
Definition recovery_backup_path : sexpr := SDefault "backup_restore_path" "".

Definition tmp_backup : string := "recovery-backup.tar.gz".

Definition check_specified : task :=
  task_ "Check if recovery backup is specified" fail_
    |> when_ (CStrEq recovery_backup_path "").

Definition verify_exists : task :=
  task_ "Verify backup file exists" (stat_local recovery_backup_path)
    |> register "backup_file".

Definition fail_if_missing : task :=
  task_ "Fail if backup file doesn't exist" fail_
    |> when_ (CNot (CStatExists "backup_file")).

Definition stop_all : task :=
  task_ "Stop all services" (systemd [systemd_service_name; "nginx"] stopped)
    |> ignore_errors.

Definition snapshot : task :=
  task_ "Create current state backup before recovery"
    (archive (app_name +:+ "-pre-recovery-"))
    |> ignore_errors.

Definition remove_app_dir : task :=
  task_ "Remove current application directory" (file_absent AppDir).

Definition recreate_app_dir : task :=
  task_ "Recreate application directory" (file_directory AppDir).

Definition copy_backup : task :=
  task_ "Copy backup file to remote server" (copy_to_tmp recovery_backup_path tmp_backup).

Definition restore : task :=
  task_ "Restore application from backup" (unarchive (InTmp tmp_backup)).

Definition install_npm : task :=
  task_ "Install/update npm dependencies" (npm present).

Definition start_app : task :=
  task_ "Start application service" (systemd [systemd_service_name] started).

Definition start_nginx : task :=
  task_ "Start nginx service" (systemd ["nginx"] started).

Definition wait_ready : task :=
  task_ "Wait for application to be ready" wait_for.

Definition verify_recovery : task :=
  task_ "Verify recovery success" (uri_get health_url)
    |> register "recovery_health_check" |> retries 10 |> delay 10.

Definition cleanup_tmp : task :=
  task_ "Clean up temporary backup file" (file_absent (TmpFile tmp_backup)).

Definition display_results : task :=
  task_ "Display recovery results" debug.

Definition send_notification : task :=
  task_ "Send recovery notification" mail
    |> when_ (CDefined "notification_email") |> ignore_errors.

Definition disaster_recovery : play :=
  Play "Disaster Recovery for Node.js Application" None
    []
    [check_specified; verify_exists; fail_if_missing; stop_all; snapshot;
     remove_app_dir; recreate_app_dir; copy_backup; restore; install_npm;
     start_app; start_nginx; wait_ready; verify_recovery; cleanup_tmp;
     display_results; send_notification]
    []
    [].

End DisasterRecovery.

Module Deploy.

Definition mongodb : cond := CFlag "install_mongodb" false.
Definition redis : cond := CFlag "install_redis" false.
Definition use_pm2 : cond := CFlag "use_pm2" false.
(** [ssl_enabled: "{{ enable_ssl | default(false) }}"],
    [domain_name: "{{ app_domain | default('localhost') }}"] *)
Definition ssl_enabled : cond := CFlag "enable_ssl" false.
Definition domain_name : sexpr := SDefault "app_domain" "localhost".

Definition restart_app : list string := ["restart nodejs app"].
Definition restart_nginx : list string := ["restart nginx"].

Definition stop_if_running : task :=
  task_ "Stop application if running" (systemd [systemd_service_name] stopped)
    |> ignore_errors.

Definition create_backup : task :=
  task_ "Create backup of current application" (archive (app_name +:+ "-"))
    |> when_ (CFlag "backup_before_deploy" true) |> ignore_errors.

Definition copy_files : task :=
  task_ "Copy application files"
    (copy_items ["../package.json"; "../app.js"; "../ecosystem.config.js"; "../healthcheck.js"])
    |> notify restart_app.

Definition copy_src : task :=
  task_ "Copy source directory" (copy_dir "../src/" "src/") |> notify restart_app.

Definition copy_public : task :=
  task_ "Copy public directory" (copy_dir "../public/" "public/") |> notify restart_app.

Definition env_file : task :=
  task_ "Create environment file" (template_app ".env") |> notify restart_app.

Definition install_npm : task :=
  task_ "Install npm dependencies" (npm present).

Definition pre_tasks : list task :=
  [ task_ "Update system packages" (other "apt")
      |> when_ (CStrEq (SVar "ansible_os_family") "Debian");
    task_ "Install basic system packages" (other "apt") ].

Definition tasks : list task :=
  [ task_ "Configure system limits" (other "lineinfile") |> notify restart_app;
    task_ "Configure kernel parameters" (other "sysctl");
    task_ "Add NodeSource repository" (other "shell");
    task_ "Install Node.js" (other "apt");
    task_ "Install PM2 globally" (other "npm");
    task_ "Install global npm packages" (other "npm");
    task_ "Add MongoDB repository key" (other "apt_key") |> when_ mongodb;
    task_ "Add MongoDB repository" (other "apt_repository") |> when_ mongodb;
    task_ "Install MongoDB" (other "apt") |> when_ mongodb;
    task_ "Configure MongoDB" (other "template")
      |> notify ["restart mongodb"] |> when_ mongodb;
    task_ "Start and enable MongoDB" (systemd ["mongod"] started) |> when_ mongodb;
    task_ "Install Redis" (other "apt") |> when_ redis;
    task_ "Configure Redis" (other "template")
      |> notify ["restart redis"] |> when_ redis;
    task_ "Start and enable Redis" (systemd ["redis-server"] started) |> when_ redis;
    task_ "Create application group" (other "group");
    task_ "Create application user" (other "user");
    task_ "Create application directories" (file_directory AppDir);
    stop_if_running;
    create_backup;
    copy_files;
    copy_src;
    copy_public;
    env_file;
    install_npm;
    task_ "Run application tests" (other "shell")
      |> when_ (CFlag "run_tests" false) |> ignore_errors;
    task_ "Setup PM2 startup" (other "shell") |> when_ use_pm2;
    task_ "Start application with PM2" (other "shell") |> when_ use_pm2;
    task_ "Create systemd service file" (other "template")
      |> notify ["reload systemd"; "restart nodejs app"] |> when_ (CNot use_pm2);
    task_ "Install Nginx" (other "apt");
    task_ "Remove default Nginx configuration" (other "file") |> notify restart_nginx;
    task_ "Configure Nginx site" (other "template") |> notify restart_nginx;
    task_ "Enable Nginx site" (other "file") |> notify restart_nginx;
    task_ "Configure Nginx global settings" (other "template") |> notify restart_nginx;
    task_ "Test Nginx configuration" (other "command")
      |> register "nginx_test_result" |> changed_when false;
    task_ "Obtain SSL certificate with Certbot" (other "shell")
      |> when_ (CAnd ssl_enabled (CStrNe domain_name "localhost")) |> ignore_errors;
    task_ "Install UFW" (other "apt");
    task_ "Configure UFW rules" (other "ufw");
    task_ "Enable UFW" (other "ufw");
    task_ "Install monitoring tools" (other "apt");
    task_ "Create monitoring script" (other "template");
    task_ "Setup log rotation" (other "template");
    task_ "Setup application health check cron job" (other "cron");
    task_ "Setup backup cron job" (other "cron");
    task_ "Start and enable services" (systemd [systemd_service_name; "nginx"] started)
      |> when_ (CNot use_pm2);
    task_ "Enable services (PM2 mode)" (systemd ["pm2-nodeapp"; "nginx"] started)
      |> when_ use_pm2;
    task_ "Wait for application to start" wait_for;
    task_ "Test application health endpoint" (uri_get health_url)
      |> register "health_check" |> retries 5 |> delay 10
      |> until (CStatusEq "health_check" 200);
    task_ "Test Nginx proxy" (uri_get "http://localhost/health")
      |> register "nginx_health_check" |> retries 3 |> delay 5;
    task_ "Display deployment results" debug ].

Definition handlers : list handler :=
  [ Handler "reload systemd" CTrue [task_ "reload systemd" (other "systemd")];
    Handler "restart nodejs app" CTrue
      [task_ "restart nodejs app" (systemd [systemd_service_name] restarted)
         |> when_ (CNot use_pm2)];
    Handler "restart pm2 app" CTrue
      [task_ "restart pm2 app" (other "shell") |> when_ use_pm2];
    Handler "restart nginx" CTrue
      [task_ "restart nginx" (systemd ["nginx"] restarted)];
    Handler "restart mongodb" CTrue
      [task_ "restart mongodb" (systemd ["mongod"] restarted) |> when_ mongodb];
    Handler "restart redis" CTrue
      [task_ "restart redis" (systemd ["redis-server"] restarted) |> when_ redis] ].

Definition deploy : play :=
  Play "Deploy Advanced Node.js Application" None pre_tasks tasks [] handlers.

End Deploy.

(** ** The engine *)

#[global] Instance content_eq_dec : EqDecision content.
Proof. solve_decision. Defined.
#[global] Instance file_eq_dec : EqDecision file.
Proof. solve_decision. Defined.
#[global] Instance reg_val_eq_dec : EqDecision reg_val.
Proof. solve_decision. Defined.
#[global] Instance host_state_eq_dec : EqDecision host_state.
Proof. solve_decision. Defined.

(** [fnmatch name "pre*suf"]: the pattern has one star. *)
Definition is_suffix (suf s : string) : bool :=
  let n := String.length s in
  let m := String.length suf in
  (m <=? n)%nat && String.eqb (String.substring (n - m) m s) suf.

Definition glob (pre suf name : string) : bool :=
  String.prefix pre name && is_suffix suf name
  && (String.length pre + String.length suf <=? String.length name)%nat.

(** The name [archive] writes and the rollback handler reads. *)
Definition backup_name (w : host_world) (prefix : string) : string :=
  prefix +:+ pretty (w_epoch w) +:+ ".tar.gz".

(** What [find] returns: the files of [d] that match the pattern and whose
    age, at time [now], is at least [age]. *)
Definition is_old (pre suf : string) (age now : Z) (kv : string * file) : Prop :=
  glob pre suf kv.1 = true ∧ age <= now - f_mtime kv.2.

#[global] Instance is_old_dec pre suf age now kv : Decision (is_old pre suf age now kv).
Proof. unfold is_old. apply _. Defined.

Definition find_files (pre suf : string) (age now : Z) (d : dir) : list string :=
  (map_to_list (filter (is_old pre suf age now) d)).*1.

(** [file: state=absent] over the items of a list. *)
Definition remove_files (l : list string) (d : dir) : dir :=
  foldr (fun n acc => delete n acc) d l.

(** *** Paths *)

(** The character [/]. *)
Definition slash : Ascii.ascii := Ascii.Ascii true true true true false true false false.

(** The segments of a path: the text between its slashes. *)
Fixpoint segments (p : string) : list string :=
  match p with
  | EmptyString => [EmptyString]
  | String c r =>
      if Ascii.eqb c slash
      then EmptyString :: segments r
      else match segments r with
           | x :: l => String c x :: l
           | [] => [String c EmptyString]
           end
  end.

(** Where the segments lead from the root: an empty segment and [.] stay
    in place, [..] goes to the parent (the root is its own parent).
    [up] holds the directories entered so far, the last one first. *)
Fixpoint walk (up segs : list string) : list string :=
  match segs with
  | [] => rev up
  | x :: l =>
      if bool_decide (x = EmptyString ∨ x = ".") then walk up l
      else if bool_decide (x = "..") then walk (tail up) l
      else walk (x :: up) l
  end.

Definition resolve (p : string) : list string := walk [] (segments p).

Fixpoint join (l : list string) : string :=
  match l with
  | [] => EmptyString
  | [x] => x
  | x :: l' => x +:+ "/" +:+ join l'
  end.

(** [below base l]: the path [l] relative to the directory [base], when
    it is a file under it. *)
Fixpoint below (base l : list string) : option (list string) :=
  match base, l with
  | [], _ :: _ => Some l
  | b :: base', x :: l' => if bool_decide (x = b) then below base' l' else None
  | _, _ => None
  end.

(** A segment that names a file or a directory, and a path made of such
    segments only. *)
Definition plain_segment (x : string) : bool :=
  negb (bool_decide (x = EmptyString ∨ x = "." ∨ x = "..")).

Definition plain_path (p : string) : bool := forallb plain_segment (segments p).

(** tar does not extract a member whose name has a [..] segment, and
    ends in error: an archive is extracted when it has no such member. *)
Definition safe_member (k : string) : bool := negb (bool_decide (".." ∈ segments k)).

Definition extractable (m : tree) : bool :=
  bool_decide (map_Forall (fun k _ => safe_member k = true) m).

(** A path of the host: under app_dir (and then relative to it), or not
    (and then absolute, with its dots resolved). *)
Inductive place :=
| InApp (rel : string)
| Outside (abs : string).

Definition locate (p : string) : place :=
  let l := resolve p in
  match below (resolve app_dir) l with
  | Some rel => InApp (join rel)
  | None => Outside ("/" +:+ join l)
  end.

Definition in_app (p : string) : option string :=
  match locate p with InApp rel => Some rel | Outside _ => None end.

Definition outside (p : string) : option string :=
  match locate p with InApp _ => None | Outside a => Some a end.

(** The files of [m] that [f] gives a name, under that name. *)
Definition rekey (f : string -> option string) (m : tree) : tree :=
  list_to_map
    (omap (fun kv : string * string => (fun k => (k, kv.2)) <$> f kv.1) (map_to_list m)).

(** Of files given by path from the root: those that land in app_dir, and
    the others. *)
Definition app_part (m : tree) : tree := rekey in_app m.
Definition rest_part (m : tree) : tree := rekey outside m.

(** Writing files by path from the root: each file goes where its path
    leads, over what is there; other files stay.  Directories on the way
    are made, app_dir too.  What lands in backup_dir or /tmp is kept in
    [elsewhere] like every file outside app_dir: [backups] and [tmp] hold
    what the tasks of the plays put there. *)
Definition write_files (m : tree) (s : host_state) : host_state :=
  let a := app_part m in
  set_elsewhere (rest_part m ∪ elsewhere s)
    (set_app (match app s with
              | Some t => Some (a ∪ t)
              | None => if bool_decide (a = ∅) then None else Some a
              end) s).

(** What npm owns under app_dir: node_modules and the lock file. *)
Definition npm_owned (k : string) : bool :=
  String.prefix "node_modules/" k || bool_decide (k = "package-lock.json").

(** [npm install] and [npm update] in app_dir: node_modules and the lock
    file become what npm makes of them (packages are added, replaced and
    pruned); the other files stay.  Install scripts of packages are not
    modelled. *)
Definition npm_result (modules : tree) (t : tree) : tree :=
  filter (fun kv => npm_owned kv.1 = false) t
  ∪ filter (fun kv => npm_owned kv.1 = true) modules.

(** Files of the project below [src], re-rooted at [dest]. *)
Definition project_dir (src dest : string) (release : tree) : tree :=
  list_to_map
    (omap (fun kv : string * string =>
             if String.prefix src kv.1
             then Some (dest +:+ String.substring (String.length src)
                                   (String.length kv.1 - String.length src) kv.1, kv.2)
             else None)
          (map_to_list release)).

(** The files [items] of the project, each under [dest]/item. *)
Definition project_items (dest : string) (items : list string) (release : tree)
  : option tree :=
  list_to_map <$> mapM (fun i => (fun c => (dest +:+ "/" +:+ i, c)) <$> release !! i) items.

Record mresult := MResult {
  m_ok : bool;
  m_changed : bool;
  m_val : reg_val;
  m_state : host_state
}.

Definition failure (s : host_state) : mresult := MResult false false (RPlain false) s.
Definition success (s s' : host_state) : mresult :=
  MResult true (bool_decide (s' ≠ s)) (RPlain true) s'.

Definition set_units (units : list string) (up : bool) (m : gmap string bool)
  : gmap string bool :=
  foldr (fun u acc => <[u := up]> acc) m units.

(** One call of the module of task [t] (attempt number [k]) on a host in
    state [s]. *)
Definition exec_module (w : host_world) (t : task) (k : nat) (s : host_state) : mresult :=
  let name := t_name t in
  match t_module t with
  | fail_ => failure s
  | uri_get _ =>
      let st := w_http w name k in
      MResult (Z.eqb st 200) false (RHttp st) s
  | uri_lb a =>
      let st := w_http w name k in
      if Z.eqb st 200
      then MResult true true (RHttp st)
             (set_rotation (match a with lb_add => true | lb_remove => false end) s)
      else MResult false false (RHttp st) s
  | m =>
      if w_fails w name then failure s else
      match m with
      | debug | wait_for | mail | fail_ | uri_get _ | uri_lb _ => success s s
      | other _ => MResult true (w_changes w name) (RPlain true) s
      | archive prefix =>
          match app s with
          | Some tr =>
              success s (set_backups
                (<[backup_name w prefix := File (w_clock w name) (Tarball tr)]> (backups s)) s)
          | None => failure s
          end
      | unarchive src =>
          let f := match src with
                   | InBackupDir prefix => backups s !! backup_name w prefix
                   | InTmp n => tmp s !! n
                   end in
          match f_data <$> f with
          | Some (Archive m) =>
              if extractable m then success s (write_files m s) else failure s
          | _ => failure s
          end
      | systemd units st =>
          let s' := set_services
                      (set_units units (match st with stopped => false | _ => true end)) s in
          match st with
          | restarted => MResult true true (RPlain true) s'
          | _ => success s s'
          end
      | copy_items items =>
          match app s, project_items app_dir items (w_release w) with
          | Some _, Some new => success s (write_files new s)
          | _, _ => failure s
          end
      | copy_dir src dest =>
          success s (set_app (Some (project_dir src dest (w_release w) ∪ default ∅ (app s))) s)
      | copy_to_tmp e n =>
          match eval_sexpr w e ≫= (fun p => w_controller w !! p) with
          | Some f => success s (set_tmp (<[n := f]> (tmp s)) s)
          | None => failure s
          end
      | template_app dest =>
          match app s, w_templates w !! dest with
          | Some tr, Some c => success s (set_app (Some (<[dest := c]> tr)) s)
          | _, _ => failure s
          end
      | npm st =>
          match app s with
          | Some tr => success s (set_app (Some (npm_result (w_modules w) tr)) s)
          | None => failure s
          end
      | find pre suf age =>
          MResult true false (RFound (find_files pre suf age (w_clock w name) (backups s))) s
      | file_absent AppDir => success s (set_app None s)
      | file_absent (TmpFile n) => success s (set_tmp (delete n (tmp s)) s)
      | file_absent (FoundIn r) =>
          match regs s !! r with
          | Some (RFound l) => success s (set_backups (remove_files l (backups s)) s)
          | _ => failure s
          end
      | file_directory AppDir => success s (set_app (Some (default ∅ (app s))) s)
      | file_directory _ => success s s
      | stat_local e =>
          match eval_sexpr w e with
          | Some p => MResult true false (RStat (bool_decide (is_Some (w_controller w !! p)))) s
          | None => failure s
          end
      end
  end.

Definition register_result (t : task) (v : reg_val) (s : host_state) : host_state :=
  match t_register t with
  | Some r => set_regs (<[r := v]> (regs s)) s
  | None => s
  end.

(** Retries after the first attempt: [retries] when given, 3 when only
    [until] is given, none otherwise. *)
Definition budget (t : task) : nat :=
  match t_retries t, t_until t with
  | Some n, _ => n
  | None, Some _ => 3
  | None, None => 0
  end.

Definition mark_failed (m : mresult) : mresult :=
  MResult false (m_changed m) (m_val m) (m_state m).

(** The retry loop: attempt [k], [left] retries left.  After each
    attempt the result is registered and [until] (by default: the module
    did not fail) is evaluated; met: stop with the module's result; not
    met with retries left: sleep [delay] and try again; not met and none
    left: failed.  Returns the seconds slept before each retry. *)
Fixpoint attempts (w : host_world) (t : task) (k left : nat) (s : host_state)
  : mresult * list nat :=
  let r := exec_module w t k s in
  let s1 := register_result t (m_val r) (m_state r) in
  let r1 := MResult (m_ok r) (m_changed r) (m_val r) s1 in
  let met := match t_until t with
             | Some c => eval_cond w s1 c
             | None => Some (m_ok r)
             end in
  match met with
  | Some true => (r1, [])
  | None => (mark_failed r1, [])
  | Some false =>
      match left with
      | O => (mark_failed r1, [])
      | S left' =>
          let '(r2, sl) := attempts w t (S k) left' s1 in
          (r2, t_delay t :: sl)
      end
  end.

Definition run_module (w : host_world) (t : task) (s : host_state) : mresult * list nat :=
  match budget t with
  | O =>
      let r := exec_module w t 0 s in
      (MResult (m_ok r) (m_changed r) (m_val r) (register_result t (m_val r) (m_state r)), [])
  | n => attempts w t 0 n s
  end.

Inductive outcome := ok | changed | skipped | failed | ignored.

#[global] Instance outcome_eq_dec : EqDecision outcome.
Proof. solve_decision. Defined.

(** One line of the play's output: the task ran on the host with this
    outcome, after sleeping [ev_sleeps] between its attempts. *)
Record event := Event {
  ev_host : string;
  ev_task : string;
  ev_out : outcome;
  ev_sleeps : list nat
}.

#[global] Instance event_eq_dec : EqDecision event.
Proof. solve_decision. Defined.

(** Number of module calls behind an event. *)
Definition ev_attempts (e : event) : nat := S (length (ev_sleeps e)).

(** A host in a play: its state and whether it has failed. *)
Record hrun := HRun { r_state : host_state; r_failed : bool }.

(** The tags of a task as [--tags] sees them: a task without tags has
    the tag untagged. *)
Definition effective_tags (t : task) : list string :=
  match t_tags t with
  | [] => ["untagged"]
  | l => l
  end.

(** [--tags only]: a task runs when it is tagged always, when one of its
    tags is asked for, when all is asked for and it is not tagged never,
    or when tagged is asked for and it has a tag of its own other than
    never.  The empty list stands for no selection at all: every task
    runs (handlers are run this way, whatever the tags). *)
Definition selected (only : list string) (t : task) : bool :=
  match only with
  | [] => true
  | _ =>
      let ts := effective_tags t in
      bool_decide ("always" ∈ ts)
      || (bool_decide ("all" ∈ only) && negb (bool_decide ("never" ∈ ts)))
      || existsb (fun x => bool_decide (x ∈ ts)) only
      || (bool_decide ("tagged" ∈ only)
          && negb (forallb (fun x => bool_decide (x = "untagged")) ts)
          && negb (bool_decide ("never" ∈ ts)))
  end.

Definition failed_or_ignored (h : string) (t : task) (s : host_state) (sl : list nat)
  : hrun * list event :=
  if t_ignore_errors t
  then (HRun s false, [Event h (t_name t) ignored sl])
  else (HRun s true, [Event h (t_name t) failed sl]).

(** One task on one host. *)
Definition run_task (w : host_world) (h : string) (only : list string) (t : task) (r : hrun)
  : hrun * list event :=
  if r_failed r then (r, []) else
  if negb (selected only t) then (r, []) else
  let s := r_state r in
  match eval_cond w s (t_when t) with
  | Some false =>
      (HRun (register_result t RSkipped s) false, [Event h (t_name t) skipped []])
  | None => failed_or_ignored h t s []
  | Some true =>
      let '(m, sl) := run_module w t s in
      if m_ok m then
        let ch := default (m_changed m) (t_changed_when t) in
        let s' := if ch
                  then set_notified (notified (m_state m) ++ t_notify t) (m_state m)
                  else m_state m in
        (HRun s' false, [Event h (t_name t) (if ch then changed else ok) sl])
      else failed_or_ignored h t (m_state m) sl
  end.

(** A list of tasks on one host; one group of events per task. *)
Fixpoint run_list (w : host_world) (h : string) (only : list string) (ts : list task)
  (r : hrun) : hrun * list (list event) :=
  match ts with
  | [] => (r, [])
  | t :: ts' =>
      let '(r1, g) := run_task w h only t r in
      let '(r2, gs) := run_list w h only ts' r1 in
      (r2, g :: gs)
  end.

(** The tasks of a handler's block inherit the handler's condition. *)
Definition handler_tasks (hd : handler) : list task :=
  map (fun t => when_ (CAnd (h_when hd) (t_when t)) t) (h_block hd).

(** End of a section: the notified handlers run, in the order of their
    definition, on a host that has not failed. *)
Definition flush_handlers (w : host_world) (h : string) (hds : list handler) (r : hrun)
  : hrun * list event :=
  if r_failed r then (r, []) else
  let pending := notified (r_state r) in
  let due := filter (fun hd => h_name hd ∈ pending) hds in
  let '(r1, gs) :=
    run_list w h [] (flat_map handler_tasks due)
             (HRun (set_notified [] (r_state r)) false) in
  (r1, concat gs).

Definition run_section (w : host_world) (h : string) (only : list string) (p : play)
  (ts : list task) (r : hrun) : hrun * list (list event) :=
  let '(r1, gs) := run_list w h only ts r in
  let '(r2, g) := flush_handlers w h (p_handlers p) r1 in
  (r2, (gs ++ [g])%list).

(** One host through the play: pre_tasks, tasks, post_tasks. *)
Definition run_host (w : host_world) (h : string) (only : list string) (p : play)
  (s : host_state) : hrun * list (list event) :=
  let '(r1, g1) := run_section w h only p (p_pre_tasks p) (HRun s false) in
  let '(r2, g2) := run_section w h only p (p_tasks p) r1 in
  let '(r3, g3) := run_section w h only p (p_post_tasks p) r2 in
  (r3, (g1 ++ g2 ++ g3)%list).

(** Linear strategy inside a batch: the hosts advance task by task, so the
    output of a batch lists, for each task in turn, its events on every
    host of the batch. *)
Fixpoint zip_app (xs ys : list (list event)) : list (list event) :=
  match xs, ys with
  | x :: xs', y :: ys' => (x ++ y)%list :: zip_app xs' ys'
  | [], _ => ys
  | _, [] => xs
  end.

Definition lockstep (gss : list (list (list event))) : list event :=
  concat (foldr zip_app [] gss).

(** [serial: n]: batches of [n] hosts, in inventory order. *)
Fixpoint chunks (fuel n : nat) (l : list string) : list (list string) :=
  match fuel, l with
  | S f, _ :: _ => take n l :: chunks f n (drop n l)
  | _, _ => []
  end.

Definition batches (serial : option nat) (hosts : list string) : list (list string) :=
  match serial with
  | Some (S n) => chunks (length hosts) (S n) hosts
  | _ => match hosts with [] => [] | _ => [hosts] end
  end.

(** A host enters a play with nothing registered and nothing notified. *)
Definition enter (s : host_state) : host_state :=
  set_notified [] (set_regs ∅ s).

Record play_result := PlayResult {
  pr_trace : list event;                 (* the output of the play, in order *)
  pr_hosts : list (string * hrun)        (* the hosts that were started, as they ended *)
}.

Section Play.
Variable world : string -> host_world.
Variable init : string -> host_state.
Variable only : list string.
Variable p : play.

Definition run_batch (b : list string) : play_result :=
  let rs := map (fun h => (h, run_host (world h) h only p (enter (init h)))) b in
  PlayResult (lockstep (map (fun x => x.2.2) rs)) (map (fun x => (x.1, x.2.1)) rs).

(** The batches in turn; the play stops after a batch in which every
    host has failed. *)
Fixpoint run_batches (bs : list (list string)) : play_result :=
  match bs with
  | [] => PlayResult [] []
  | b :: bs' =>
      let r := run_batch b in
      if forallb (fun x => r_failed x.2) (pr_hosts r)
      then r
      else let rest := run_batches bs' in
           PlayResult (pr_trace r ++ pr_trace rest)%list (pr_hosts r ++ pr_hosts rest)%list
  end.

Definition run_play (hosts : list string) : play_result :=
  run_batches (batches (p_serial p) hosts).
End Play.

(** ** Reading a trace *)

Definition is_event (h name : string) (o : outcome) (e : event) : Prop :=
  ev_host e = h ∧ ev_task e = name ∧ ev_out e = o.

Definition named (h name : string) (e : event) : Prop :=
  ev_host e = h ∧ ev_task e = name.

(** The play says "Rolling update completed successfully on h". *)
Definition committed (h : string) (tr : list event) : Prop :=
  Exists (is_event h "Verify update success" ok) tr.

(** The play says "Rollback completed on h". *)
Definition rolled_back (h : string) (tr : list event) : Prop :=
  Exists (is_event h "Rollback notification" ok) tr.

Definition has_failed (h : string) (tr : list event) : Prop :=
  Exists (fun e => ev_host e = h ∧ ev_out e = failed) tr.

Definition started_ (h : string) (tr : list event) : Prop :=
  Exists (fun e => ev_host e = h) tr.

Inductive phase := Pending | InFlight | Failed | Committed | RolledBack.

#[global] Instance phase_eq_dec : EqDecision phase.
Proof. solve_decision. Defined.

(** Where a host stands after the events [tr]. *)
Definition phase_of (h : string) (tr : list event) : phase :=
  if decide (rolled_back h tr) then RolledBack
  else if decide (committed h tr) then Committed
  else if decide (has_failed h tr) then Failed
  else if decide (started_ h tr) then InFlight
  else Pending.

(** A host at rest: not started, or done with its update. *)
Definition at_rest (ph : phase) : Prop :=
  ph = Pending ∨ ph = Committed ∨ ph = RolledBack.

(** Every event satisfying [Q] comes after one satisfying [P]. *)
Definition preceded_by (P Q : event -> Prop) (tr : list event) : Prop :=
  forall pre e suf, tr = (pre ++ e :: suf)%list -> Q e -> Exists P pre.

(** The trace of one host. *)
Definition host_trace (w : host_world) (h : string) (only : list string) (p : play)
  (s : host_state) : list event :=
  concat (run_host w h only p (enter s)).2.

Definition host_end (w : host_world) (h : string) (only : list string) (p : play)
  (s : host_state) : hrun :=
  (run_host w h only p (enter s)).1.

(** ** The health gate, the sweep and the restore as the plays run them *)

(** The forward gate of the rolling update on a host. *)
Definition health_gate (w : host_world) (s : host_state) : mresult * list nat :=
  run_module w RollingUpdate.health_check s.

(** The verification of the rollback handler. *)
Definition rollback_gate (w : host_world) (s : host_state) : mresult * list nat :=
  run_module w RollingUpdate.verify_rollback s.

(** The two post_tasks of the rolling update on a backup directory. *)
Definition sweep_retention (now : Z) (d : dir) : dir :=
  remove_files (find_files (app_name +:+ "-") ".tar.gz" seven_days now d) d.

(** The newest files of a directory: no file has a later mtime. *)
Definition newest (d : dir) (n : string) : Prop :=
  ∃ f, d !! n = Some f ∧ ∀ n' f', d !! n' = Some f' → f_mtime f' <= f_mtime f.

(** The restore step of the rollback handler. *)
Definition restore_rollback (w : host_world) (s : host_state) : host_state :=
  m_state (exec_module w RollingUpdate.restore_from_backup 0 s).



(** ** Scenarios *)

Module Scenario.

Definition old_tree : tree := {[ "app.js" := "v1"; "src/index.js" := "v1" ]}.

Definition release : tree :=
  {[ "../package.json" := "v2"; "../app.js" := "v2"; "../ecosystem.config.js" := "v2";
     "../healthcheck.js" := "v2"; "../src/index.js" := "v2"; "../src/extra.js" := "v2" ]}.

Definition machine : host_state :=
  HostState {[ systemd_service_name := true; "nginx" := true ]} (Some old_tree)
            ∅ ∅ true ∅ [] ∅.

(** A world in which every module call succeeds and every probe of the
    named tasks in [sick] answers 503, every other probe 200. *)
Definition world_with (sick : list string) (strs : gmap string string)
  (controller : dir) : host_world :=
  World (fun _ => false) (fun _ => false)
        (fun name _ => if bool_decide (name ∈ sick) then 503 else 200)
        (fun _ => 1700000100) 1700000000 ∅ strs release
        {[ "node_modules/express" := "4" ]} {[ ".env" := "PORT=3000" ]} controller.

Definition healthy : host_world := world_with [] ∅ ∅.
Definition sick : host_world := world_with ["Health check after update"] ∅ ∅.

(** Disaster recovery from an archive of the old tree made from the
    root, on a host where every module call succeeds except the
    pre-recovery snapshot. *)
Definition no_snapshot : host_world :=
  World (fun n => bool_decide (n = "Create current state backup before recovery"))
        (fun _ => false) (fun _ _ => 200) (fun _ => 0) 0 ∅
        {[ "backup_restore_path" := "/backups/old.tar.gz" ]} ∅ ∅ ∅
        {[ "/backups/old.tar.gz" := File 0 (Rooted old_tree) ]}.


(** A host on which archiving fails (a full disk, say). *)
Definition no_backup : host_world :=
  World (fun n => bool_decide (n = "Create backup of current application"
                               ∨ n = "Create backup before update"))
        (fun _ => false) (fun _ _ => 200) (fun _ => 1700000100) 1700000000 ∅
        {[ "ansible_os_family" := "Debian" ]}
        release {[ "node_modules/express" := "4" ]} {[ ".env" := "PORT=3000" ]} ∅.

Definition hosts3 : list string := ["web1"; "web2"; "web3"].

(** Scenario A: every host healthy.  Scenario B: web2 answers 503 to
    every probe after its update. *)
Definition world_A (h : string) : host_world := healthy.
Definition world_B (h : string) : host_world :=
  if bool_decide (h = "web2") then sick else healthy.

End Scenario.

(** ** What a play can print for a task *)

(** Modules that change nothing on the host and never report "changed". *)
Definition quiet (m : module) : bool :=
  match m with
  | debug | fail_ | wait_for | mail | uri_get _ | find _ _ _ | stat_local _ => true
  | _ => false
  end.

(** The outcomes a task can have, from its keywords alone. *)
Definition possible (t : task) (o : outcome) : Prop :=
  match o with
  | ok => True
  | changed => quiet (t_module t) = false ∨ t_changed_when t = Some true
  | skipped => t_when t ≠ CTrue
  | ignored => t_ignore_errors t = true
  | failed => t_ignore_errors t = false
  end.

(** [ran h ts evs f]: the events [evs] are what host [h] can print for the
    tasks [ts], in order, one per task, up to and including its first
    fatal failure; [f] tells whether there was one. *)
Inductive ran (h : string) : list task -> list event -> bool -> Prop :=
| ran_nil : ran h [] [] false
| ran_step t ts o sl evs f :
    o ≠ failed -> possible t o -> ran h ts evs f ->
    ran h (t :: ts) (Event h (t_name t) o sl :: evs) f
| ran_stop t ts sl :
    possible t failed ->
    ran h (t :: ts) [Event h (t_name t) failed sl] true.

(** The machine of a host: everything but the play's own bookkeeping. *)
Definition same_machine (s s' : host_state) : Prop :=
  services s = services s' ∧ app s = app s' ∧ backups s = backups s'
  ∧ tmp s = tmp s' ∧ in_rotation s = in_rotation s' ∧ elsewhere s = elsewhere s'.

Definition names (ts : list task) : list string := map t_name ts.

(** The event of task [t] on [h], with an outcome that lets the host go on. *)
Definition passed (h : string) (t : task) (e : event) : Prop :=
  ∃ o sl, e = Event h (t_name t) o sl ∧ o ≠ failed ∧ possible t o.

(** One host after the other, up to the first that fails: [T h] is what
    host [h] prints and [F h] whether it fails. *)
Fixpoint chain (T : string -> list event) (F : string -> bool) (hosts : list string)
  : list event :=
  match hosts with
  | [] => []
  | h :: hs => T h ++ (if F h then [] else chain T F hs)
  end.

(** Closed decidable facts about the plays (names of tasks and the like)
    are settled by evaluation. *)
Ltac by_eval := apply (bool_decide_unpack _); vm_compute; exact I.


Definition all_tasks (p : play) : list task :=
  p_pre_tasks p ++ p_tasks p ++ p_post_tasks p.

(** Membership of a task in a play. *)
Ltac in_play :=
  cbv [all_tasks p_pre_tasks p_tasks p_post_tasks app];
  repeat first [apply list_elem_of_here | apply list_elem_of_further].

(** ** Statements about a rollout *)

(** The retention sweep: the post_tasks of the rolling update. *)
Definition is_sweep (e : event) : Prop :=
  ev_task e ∈ names (p_post_tasks RollingUpdate.rolling_update).

(** A host whose part in the rollout is over. *)
Definition terminal (ph : phase) : Prop :=
  ph = Committed ∨ ph = RolledBack ∨ ph = Failed.

(** "The sweep runs only after the whole rollout is terminal": whenever
    the sweep prints, every host of the inventory is terminal. *)
Definition sweep_after_rollout (hosts : list string) (tr : list event) : Prop :=
  forall pre e suf, tr = pre ++ e :: suf -> is_sweep e ->
  forall h, h ∈ hosts -> terminal (phase_of h pre).

(** The serial rolling update of an inventory. *)
Definition rolling_trace (world : string -> host_world) (init : string -> host_state)
  (hosts : list string) : list event :=
  pr_trace (run_play world init [] RollingUpdate.rolling_update hosts).

(** ** Statements about the health gate *)

Definition is_2xx (st : Z) : Prop := 200 <= st < 300.

(** "The first 2xx response short-circuits to success." *)
Definition gate_accepts_2xx (w : host_world) (s : host_state) : Prop :=
  (∃ k, (k <= health_check_retries)%nat
        ∧ is_2xx (w_http w (t_name RollingUpdate.health_check) k)) ->
  m_ok (health_gate w s).1 = true.

(** "The same retry count and the same delay." *)
Definition same_budget (t1 t2 : task) : Prop :=
  t_retries t1 = t_retries t2 ∧ t_delay t1 = t_delay t2.

(** A probe: a [uri] GET that is retried until it answers 200. *)
Definition probe_task (t : task) : Prop :=
  (∃ url, t_module t = uri_get url)
  ∧ (t_until t = None
     ∨ ∃ r, t_register t = Some r ∧ t_until t = Some (CStatusEq r 200)).

(** ** Statements about backups *)

(** "The newest backup is never deleted by a sweep." *)
Definition keeps_newest (now : Z) (d : dir) : Prop :=
  forall n, newest d n -> is_Some (sweep_retention now d !! n).

(** A backup as the sweep sees it: a file of the backup directory named
    nodejs-ansible-deploy-*.tar.gz. *)
Definition is_backup_name (n : string) : Prop :=
  glob (app_name +:+ "-") ".tar.gz" n = true.



(** ** Statements about disaster recovery *)

(** The path the operator gave, [""] when none was given. *)
Definition dr_path (w : host_world) : string :=
  default "" (w_strs w !! "backup_restore_path").







(** ** Statements about the backup taken before an update *)

(** The backup task of a play succeeded on the host. *)
Definition backed_up (h backup : string) (e : event) : Prop :=
  named h backup e ∧ (ev_out e = ok ∨ ev_out e = changed).

(** "Nothing destructive is printed before the backup has succeeded." *)
Definition backup_first (h backup : string) (destructive : list string)
  (tr : list event) : Prop :=
  preceded_by (backed_up h backup) (fun e => ev_task e ∈ destructive) tr.

(** The rolling update: its first two tasks, and what comes after the
    backup. *)
Definition ru_until_backup : list task :=
  [RollingUpdate.check_rolling; RollingUpdate.create_backup].

Definition ru_after_backup : list task :=
  [RollingUpdate.remove_from_lb; RollingUpdate.drain; RollingUpdate.stop_service;
   RollingUpdate.update_files; RollingUpdate.update_src; RollingUpdate.update_npm;
   RollingUpdate.start_service; RollingUpdate.wait_ready; RollingUpdate.health_check;
   RollingUpdate.add_to_lb; RollingUpdate.verify_success;
   RollingUpdate.find_old_backups; RollingUpdate.remove_old_backups].

(** File replacement and dependency install in the deployment, and with
    the stop before them. *)
Definition deploy_replacement : list task :=
  [Deploy.copy_files; Deploy.copy_src; Deploy.copy_public; Deploy.env_file;
   Deploy.install_npm].

Definition deploy_destructive : list task :=
  Deploy.stop_if_running :: deploy_replacement.

(** The names the handlers of a play can print. *)
Definition handler_names (p : play) : list string :=
  names (flat_map h_block (p_handlers p)).

(** ** More of the plays *)

(** Three tasks of the deployment by name, as [Deploy.tasks] has them. *)
Definition deploy_health_test : task :=
  task_ "Test application health endpoint" (uri_get health_url)
    |> register "health_check" |> retries 5 |> delay 10
    |> until (CStatusEq "health_check" 200).

Definition deploy_start_services : task :=
  task_ "Start and enable services" (systemd [systemd_service_name; "nginx"] started)
    |> when_ (CNot Deploy.use_pm2).

Definition deploy_enable_pm2 : task :=
  task_ "Enable services (PM2 mode)" (systemd ["pm2-nodeapp"; "nginx"] started)
    |> when_ Deploy.use_pm2.

(** The unit that runs the application: nodejs-app under systemd,
    pm2-nodeapp when [use_pm2] is set. *)
Definition app_unit (w : host_world) : string :=
  if default false (w_flags w !! "use_pm2") then "pm2-nodeapp" else systemd_service_name.

(** The hosts a serial play enters: the inventory up to the first host
    that fails, that host included. *)
Fixpoint reached (F : string -> bool) (hosts : list string) : list string :=
  match hosts with
  | [] => []
  | h :: hs => h :: (if F h then [] else reached F hs)
  end.

(** Two more incidents: npm fails during the update; the restored
    application never answers. *)
Module Incident.

Definition broken_npm : host_world :=
  World (fun n => bool_decide (n = "Update npm dependencies"))
        (fun _ => false) (fun _ _ => 200) (fun _ => 1700000100) 1700000000 ∅ ∅
        Scenario.release {[ "node_modules/express" := "4" ]} {[ ".env" := "PORT=3000" ]} ∅.

Definition no_recovery : host_world :=
  Scenario.world_with ["Verify recovery success"]
    {[ "backup_restore_path" := "/backups/old.tar.gz" ]}
    {[ "/backups/old.tar.gz" := File 0 (Tarball Scenario.old_tree) ]}.

End Incident.

(** ** The shell scripts *)

(** What the two scripts have in common: a run is the list of what the
    script did, in order, and how control left it.  [Next n] falls
    through to the next command with [$?] = n, [Return n] leaves the
    function, [Exit n] leaves the script. *)
Module Shell.

Inductive status := Next (st : nat) | Return (st : nat) | Exit (st : nat).

Definition code (s : status) : nat :=
  match s with Next n | Return n | Exit n => n end.

Definition run (A : Type) : Type := list A * status.

(** [a; b]: [b] runs when [a] fell through. *)
Definition andthen {A} (a b : run A) : run A :=
  match a.2 with
  | Next _ => (a.1 ++ b.1, b.2)
  | _ => a
  end.

(** [a; b] where [b] reads [$?]. *)
Definition andthen_st {A} (a : run A) (b : nat -> run A) : run A :=
  match a.2 with
  | Next n => (a.1 ++ (b n).1, (b n).2)
  | _ => a
  end.

Definition ret {A} (n : nat) : run A := ([], Return n).
Definition exit_ {A} (n : nat) : run A := ([], Exit n).
Definition act {A} (a : A) : run A := ([a], Next 0%nat).

(** A command whose status is [st]; under [set -e] a status other than 0
    ends the script with that status, unless the command is tested by
    an [if]. *)
Definition simple {A} (errexit : bool) (a : A) (st : nat) : run A :=
  ([a], if errexit && negb (st =? 0)%nat then Exit st else Next st).

(** A function called as a command: what it returned is the status of
    the call. *)
Definition call {A} (errexit : bool) (f : run A) : run A :=
  match f.2 with
  | Exit _ => f
  | Next n | Return n => (f.1, if errexit && negb (n =? 0)%nat then Exit n else Next n)
  end.

(** [if ! c; then t; fi] and [if c; then t; else e; fi]; [c] is run with
    [set -e] ignored. *)
Definition if_fails {A} (c t : run A) : run A :=
  match c.2 with
  | Exit _ => c
  | Next n | Return n => if (n =? 0)%nat then (c.1, Next 0%nat) else (c.1 ++ t.1, t.2)
  end.


End Shell.

Notation "a >>> b" := (Shell.andthen a b) (at level 60, right associativity).

(** *** deploy.sh *)
Module DeployScript.
Import Shell.

Inductive action :=
| Echo (line : string)     (* echo *)
| EchoE (line : string)    (* echo -e, the escapes as the script writes them *)
| Exec (cmd : string).     (* a command of the control node *)

#[global] Instance deploy_action_eq_dec : EqDecision action.
Proof. solve_decision. Defined.

Definition RED : string := "\033[0;31m".
Definition GREEN : string := "\033[0;32m".
Definition YELLOW : string := "\033[1;33m".
Definition BLUE : string := "\033[0;34m".
Definition NC : string := "\033[0m".

(** The control node as the script sees it: which commands [command -v]
    finds, which files [test] finds, and the status of the commands it
    runs. *)
Record env := Env {
  cmd_ansible : bool;
  cmd_node : bool;
  cmd_npm : bool;
  node_version : nat;
  npm_version : nat;
  dir_ansible : bool;
  file_inventory : bool;
  file_playbook : bool;
  ping : nat;
  playbook : nat;
  monitor : nat
}.

Definition print_color (color message : string) : run action :=
  act (EchoE (color +:+ message +:+ NC)).

Definition show_usage (script : string) : run action :=
  ([Echo ("Usage: " +:+ script +:+ " [OPTIONS]");
    Echo "Options:";
    Echo "  -d, --deploy     Deploy the application";
    Echo "  -m, --monitor    Monitor the application";
    Echo "  -c, --check      Check prerequisites";
    Echo "  -h, --help       Show this help message";
    Echo "";
    Echo "Examples:";
    Echo ("  " +:+ script +:+ " --check      Check if all prerequisites are met");
    Echo ("  " +:+ script +:+ " --deploy     Deploy the application to all servers");
    Echo ("  " +:+ script +:+ " --monitor    Monitor application status")],
   Next 0%nat).

(** The status of the pipeline [ansible --version | head -n 1] is that
    of [head]. *)
Definition check_prerequisites (errexit : bool) (e : env) : run action :=
  print_color BLUE "Checking prerequisites..." >>>
  (if negb (cmd_ansible e) then
     print_color RED "❌ Ansible is not installed!" >>>
     print_color YELLOW "Install Ansible:" >>>
     print_color YELLOW "  Ubuntu/Debian: sudo apt install ansible" >>>
     print_color YELLOW "  macOS: brew install ansible" >>>
     print_color YELLOW "  pip: pip install ansible" >>>
     ret 1
   else
     print_color GREEN "✅ Ansible is installed" >>>
     simple errexit (Exec "ansible --version | head -n 1") 0) >>>
  (if negb (cmd_node e) then
     print_color YELLOW "⚠️  Node.js is not installed locally (optional for local testing)"
   else
     print_color GREEN "✅ Node.js is installed locally" >>>
     simple errexit (Exec "node --version") (node_version e)) >>>
  (if negb (cmd_npm e) then
     print_color YELLOW "⚠️  npm is not installed locally (optional for local testing)"
   else
     print_color GREEN "✅ npm is installed locally" >>>
     simple errexit (Exec "npm --version") (npm_version e)) >>>
  (if negb (dir_ansible e) then
     print_color RED "❌ Ansible directory not found!" >>>
     print_color YELLOW "Make sure you're running this script from the project root" >>>
     ret 1
   else print_color GREEN "✅ Ansible directory found") >>>
  (if negb (file_inventory e) then
     print_color RED "❌ Inventory file not found!" >>>
     print_color YELLOW "Create ansible/inventory.ini with your server details" >>>
     ret 1
   else print_color GREEN "✅ Inventory file found") >>>
  (if negb (file_playbook e) then
     print_color RED "❌ Deploy playbook not found!" >>>
     ret 1
   else print_color GREEN "✅ Deploy playbook found") >>>
  print_color GREEN "✅ All prerequisites met!" >>>
  ret 0.

(** [cd ansible] succeeds when the directory is there. *)
Definition cd_ansible (e : env) : run action :=
  simple true (Exec "cd ansible") (if dir_ansible e then 0 else 1)%nat.

Definition deploy_application (e : env) : run action :=
  print_color BLUE "Starting deployment..." >>>
  if_fails (call false (check_prerequisites false e))
    (print_color RED "❌ Prerequisites not met. Aborting deployment." >>> exit_ 1) >>>
  cd_ansible e >>>
  print_color BLUE "Testing connectivity to servers..." >>>
  if_fails (simple false (Exec "ansible all -i inventory.ini -m ping") (ping e))
    (print_color RED "❌ Cannot connect to servers. Check your inventory and SSH keys." >>>
     exit_ 1) >>>
  print_color GREEN "✅ Connectivity test passed" >>>
  print_color BLUE "Running deployment playbook..." >>>
  andthen_st (simple true (Exec "ansible-playbook -i inventory.ini deploy.yml") (playbook e))
    (fun st =>
       if (st =? 0)%nat then
         print_color GREEN "✅ Deployment completed successfully!" >>>
         print_color YELLOW "Your application should now be running on the target servers." >>>
         print_color YELLOW "You can access it via the server's IP address or domain name."
       else
         print_color RED "❌ Deployment failed!" >>> exit_ 1).

Definition monitor_application (e : env) : run action :=
  print_color BLUE "Monitoring application..." >>>
  cd_ansible e >>>
  andthen_st (simple true (Exec "ansible-playbook -i inventory.ini monitor.yml") (monitor e))
    (fun st =>
       if (st =? 0)%nat then print_color GREEN "✅ Monitoring completed!"
       else print_color RED "❌ Monitoring failed!" >>> exit_ 1).

(** The [case] at the end of the script; [arg] is [${1:-}]. *)
Definition main (script arg : string) (e : env) : run action :=
  if bool_decide (arg ∈ ["-d"; "--deploy"]) then call true (deploy_application e)
  else if bool_decide (arg ∈ ["-m"; "--monitor"]) then call true (monitor_application e)
  else if bool_decide (arg ∈ ["-c"; "--check"]) then call true (check_prerequisites true e)
  else if bool_decide (arg ∈ ["-h"; "--help"]) then call true (show_usage script)
  else if bool_decide (arg = "") then
    print_color YELLOW "No option provided. Use -h for help." >>> show_usage script
  else
    print_color RED ("Unknown option: " +:+ arg) >>> show_usage script >>> exit_ 1.

(** What the script did and its exit status. *)
Definition output (script arg : string) (e : env) : list action := (main script arg e).1.
Definition exit_status (script arg : string) (e : env) : nat := code (main script arg e).2.

(** Every prerequisite the script insists on. *)
Definition prerequisites (e : env) : bool :=
  cmd_ansible e && dir_ansible e && file_inventory e && file_playbook e.

Definition deploy_playbook : action := Exec "ansible-playbook -i inventory.ini deploy.yml".

Definition monitor_playbook : action :=
  Exec "ansible-playbook -i inventory.ini monitor.yml".

Definition is_exec (a : action) : bool :=
  match a with Exec _ => true | _ => false end.

Definition is_echo (a : action) : bool :=
  match a with Echo _ => true | _ => false end.

(** The two messages of the [else] branches after the playbooks. *)
Definition failure_messages : list action :=
  [EchoE (RED +:+ "❌ Deployment failed!" +:+ NC);
   EchoE (RED +:+ "❌ Monitoring failed!" +:+ NC)].

(** The commands of [check_prerequisites]. *)
Definition version_commands : list action :=
  [Exec "ansible --version | head -n 1"; Exec "node --version"; Exec "npm --version"].

End DeployScript.

(** *** templates/monitor.sh.j2, installed as /usr/local/bin/monitor-app *)
Module MonitorScript.
Import Shell.

(** What the script does: a line on stdout, the two halves of
    [log_message] (the line "<date> - msg" on stdout and the same line
    appended to /var/log/app-monitor.log), and the commands that act on
    the host.  The commands that only read ([systemctl is-active],
    [netstat], the GET of [curl]) are the probe below. *)
Inductive action :=
| Stdout (line : string)
| PrintLog (msg : string)
| AppendLog (msg : string)
| RestartUnit (unit : string)              (* systemctl restart *)
| Post (url payload : string)          (* curl -X POST ... --data payload url *)
| Sleep (seconds : nat).

#[global] Instance monitor_action_eq_dec : EqDecision action.
Proof. solve_decision. Defined.


Definition RED : string := "\033[0;31m".
Definition GREEN : string := "\033[0;32m".
Definition NC : string := "\033[0m".

(** What one health check sees. *)
Record probe := Probe {
  is_active : string;      (* systemctl is-active "$SERVICE_NAME" *)
  listening : bool;        (* netstat -tuln | grep -q ":$APP_PORT " *)
  http_code : string       (* curl -s -o /dev/null -w "%{http_code}" .../health *)
}.

Record env := Env {
  before : probe;          (* the host when the script starts *)
  after : probe;           (* the host 30 seconds after a restart *)
  restart_status : nat;    (* systemctl restart "$SERVICE_NAME" *)
  webhook_url : string     (* ${WEBHOOK_URL:-} *)
}.









(** The health check sees a healthy application. *)
Definition healthy (p : probe) : bool :=
  bool_decide (is_active p = "active") && listening p && bool_decide (http_code p = "200").





End MonitorScript.

(** ** Statements about the restore steps *)




(** ** Facts about lists of events *)

Lemma preceded_by_none P Q tr :
  Forall (fun e => ¬ Q e) tr -> preceded_by P Q tr.
Proof.
  intros HF pre e suf -> HQ.
  rewrite Forall_app, Forall_cons in HF. tauto.
Qed.

Lemma preceded_by_app P Q l1 l2 :
  preceded_by P Q l1 ->
  Exists P l1 ∨ preceded_by P Q l2 ->
  preceded_by P Q (l1 ++ l2).
Proof.
  intros H1 H2 pre e suf Heq HQ.
  apply app_eq_app in Heq as [m [[-> Hm] | [-> Hm]]].
  - destruct m as [|x m]; simpl in Hm.
    + subst l2. rewrite app_nil_r in *.
      destruct H2 as [H2 | H2]; [exact H2|].
      specialize (H2 [] e suf eq_refl HQ). inversion H2.
    + injection Hm as <- ->. eapply H1; eauto.
  - apply Exists_app.
    destruct H2 as [H2 | H2]; [by left|].
    right. eapply H2; eauto.
Qed.

Lemma preceded_by_weaken (P P' Q Q' : event -> Prop) tr :
  (forall e, P e -> P' e) -> (forall e, Q' e -> Q e) ->
  preceded_by P Q tr -> preceded_by P' Q' tr.
Proof.
  intros HP HQ H pre e suf Heq Hq.
  eapply Exists_impl; [eapply H; eauto | auto].
Qed.

Lemma preceded_by_prefix P Q l1 l2 :
  preceded_by P Q (l1 ++ l2) -> preceded_by P Q l1.
Proof.
  intros H pre e suf -> HQ.
  eapply (H pre e (suf ++ l2)); [|done].
  by rewrite <- app_assoc.
Qed.

(** ** Facts about the engine *)

Section EngineFacts.
Variable w : host_world.
Variable h : string.

Lemma same_machine_refl s : same_machine s s.
Proof. by repeat split. Qed.

Lemma same_machine_trans s1 s2 s3 :
  same_machine s1 s2 -> same_machine s2 s3 -> same_machine s1 s3.
Proof. unfold same_machine. intuition congruence. Qed.

Lemma register_same t v s : same_machine s (register_result t v s).
Proof. unfold register_result. destruct (t_register t); by repeat split. Qed.

Lemma register_notified t v s : notified (register_result t v s) = notified s.
Proof. unfold register_result. by destruct (t_register t). Qed.

(** A module call that fails leaves the host as it was. *)
Lemma exec_fail_state t k s :
  m_ok (exec_module w t k s) = false -> m_state (exec_module w t k s) = s.
Proof.
  unfold exec_module, failure, success.
  destruct (t_module t); simpl; repeat case_match; simpl; congruence.
Qed.

Lemma exec_notified t k s :
  notified (m_state (exec_module w t k s)) = notified s.
Proof.
  unfold exec_module, failure, success.
  destruct (t_module t); simpl; repeat case_match; simpl; congruence.
Qed.

Lemma exec_quiet t k s :
  quiet (t_module t) = true ->
  m_changed (exec_module w t k s) = false ∧ m_state (exec_module w t k s) = s.
Proof.
  unfold exec_module, failure, success.
  destruct (t_module t); simpl; try discriminate; intros _;
    repeat case_match; simpl; split; try reflexivity;
    apply bool_decide_eq_false; tauto.
Qed.

Lemma attempts_notified t left : forall k s,
  notified (m_state (attempts w t k left s).1) = notified s.
Proof.
  induction left as [|left IH]; intros k s; simpl;
    repeat case_match; simpl;
    rewrite ?register_notified, ?exec_notified; try done.
  all: match goal with H : attempts _ _ _ _ _ = _ |- _ =>
    pose proof (IH (S k) (register_result t (m_val (exec_module w t k s))
                            (m_state (exec_module w t k s)))) as IH';
    rewrite H in IH'; simpl in IH' end.
  all: by rewrite IH', register_notified, exec_notified.
Qed.

Lemma attempts_quiet t left : quiet (t_module t) = true -> forall k s,
  m_changed (attempts w t k left s).1 = false
  ∧ same_machine s (m_state (attempts w t k left s).1).
Proof.
  intros Hq. induction left as [|left IH]; intros k s; simpl;
    destruct (exec_quiet t k s Hq) as [Hc Hs];
    repeat case_match; simpl; rewrite ?Hc, ?Hs;
    try (split; [done | apply register_same]).
  all: match goal with H : attempts _ _ _ _ _ = _ |- _ =>
    pose proof (IH (S k) (register_result t (m_val (exec_module w t k s))
                            (m_state (exec_module w t k s)))) as IH';
    rewrite H in IH'; simpl in IH' end.
  all: destruct IH' as [IH1 IH2]; split; [done|].
  all: eapply same_machine_trans; [|exact IH2].
  all: rewrite Hs; apply register_same.
Qed.

Lemma run_module_notified t s :
  notified (m_state (run_module w t s).1) = notified s.
Proof.
  unfold run_module. destruct (budget t).
  - simpl. by rewrite register_notified, exec_notified.
  - apply attempts_notified.
Qed.

Lemma run_module_quiet t s :
  quiet (t_module t) = true ->
  m_changed (run_module w t s).1 = false
  ∧ same_machine s (m_state (run_module w t s).1).
Proof.
  intros Hq. unfold run_module. destruct (budget t).
  - simpl. destruct (exec_quiet t 0 s Hq) as [-> ->]. split; [done | apply register_same].
  - by apply attempts_quiet.
Qed.

(** A failed host runs nothing more. *)
Lemma run_task_failed only t s :
  run_task w h only t (HRun s true) = (HRun s true, []).
Proof. reflexivity. Qed.

Lemma run_list_failed only ts s :
  run_list w h only ts (HRun s true) = (HRun s true, map (fun _ => []) ts).
Proof.
  induction ts as [|t ts IH]; simpl; [done|]. by rewrite IH.
Qed.

Lemma concat_silent (ts : list task) :
  concat (map (fun _ => @nil event) ts) = [].
Proof. induction ts; simpl; auto. Qed.

(** One task on a host that has not failed: exactly one event, of an
    outcome the task allows, and the host fails iff it says [failed]. *)
Lemma run_task_spec t s :
  ∃ o sl s',
    run_task w h [] t (HRun s false)
    = (HRun s' (bool_decide (o = failed)), [Event h (t_name t) o sl])
    ∧ possible t o.
Proof.
  unfold run_task, failed_or_ignored. simpl.
  destruct (eval_cond w s (t_when t)) as [[|]|] eqn:Hc.
  - destruct (run_module w t s) as [m sl] eqn:Hm.
    destruct (m_ok m).
    + destruct (default (m_changed m) (t_changed_when t)) eqn:Hch.
      * eexists changed, sl, _. split; [reflexivity|]. simpl.
        destruct (t_changed_when t) as [[|]|]; simpl in Hch; try discriminate; auto.
        left. destruct (quiet (t_module t)) eqn:Hq; [|done].
        destruct (run_module_quiet t s Hq) as [Hq' _].
        rewrite Hm in Hq'. simpl in Hq'. congruence.
      * by eexists ok, sl, _.
    + destruct (t_ignore_errors t) eqn:Hi.
      * by eexists ignored, sl, _.
      * by eexists failed, sl, _.
  - eexists skipped, [], _. split; [reflexivity|]. simpl.
    intros Heq. rewrite Heq in Hc. discriminate.
  - destruct (t_ignore_errors t) eqn:Hi.
    + by eexists ignored, [], _.
    + by eexists failed, [], _.
Qed.

(** What a list of tasks prints on a host. *)
Lemma run_list_ran ts : forall s,
  ran h ts (concat (run_list w h [] ts (HRun s false)).2)
        (r_failed (run_list w h [] ts (HRun s false)).1).
Proof.
  induction ts as [|t ts IH]; intros s; simpl; [constructor|].
  destruct (run_task_spec t s) as (o & sl & s' & -> & Hp).
  destruct (decide (o = failed)) as [-> | Hne].
  - rewrite bool_decide_eq_true_2 by done.
    rewrite run_list_failed. simpl. rewrite concat_silent.
    by constructor.
  - rewrite bool_decide_eq_false_2 by done.
    specialize (IH s').
    destruct (run_list w h [] ts (HRun s' false)) as [r2 gs]. simpl in *.
    by constructor.
Qed.

(** Tasks that notify nothing leave the list of notified handlers alone. *)
Lemma run_task_notified only t r :
  t_notify t = [] ->
  notified (r_state (run_task w h only t r).1) = notified (r_state r).
Proof.
  intros Hn. unfold run_task, failed_or_ignored.
  destruct r as [s [|]]; simpl; [done|].
  destruct (selected only t); simpl; [|done].
  destruct (eval_cond w s (t_when t)) as [[|]|].
  - pose proof (run_module_notified t s) as Hm.
    destruct (run_module w t s) as [m sl]. simpl in Hm.
    repeat case_match; simpl; rewrite ?Hn, ?app_nil_r; done.
  - simpl. apply register_notified.
  - by case_match.
Qed.

Lemma run_list_notified only ts : forall r,
  Forall (fun t => t_notify t = []) ts ->
  notified (r_state (run_list w h only ts r).1) = notified (r_state r).
Proof.
  induction ts as [|t ts IH]; intros r HF; simpl; [done|].
  inversion HF as [|? ? Ht Hts]; subst.
  pose proof (run_task_notified only t r Ht) as H1.
  destruct (run_task w h only t r) as [r1 g]. simpl in H1.
  specialize (IH r1 Hts).
  destruct (run_list w h only ts r1) as [r2 gs]. simpl in *. congruence.
Qed.

(** With nothing notified, the end of a section runs no handler. *)
Lemma flush_nothing hds r :
  notified (r_state r) = [] ->
  flush_handlers w h hds r = (r, []).
Proof.
  intros Hn. unfold flush_handlers. destruct r as [s [|]]; simpl in *; [done|].
  rewrite Hn.
  replace (filter (fun hd => h_name hd ∈ []) hds) with (@nil handler).
  - simpl. f_equal. f_equal. destruct s; simpl in *; by subst.
  - symmetry. induction hds as [|hd hds IH]; [done|].
    rewrite filter_cons. case_decide as Hin; [by apply elem_of_nil in Hin | done].
Qed.

Lemma run_list_app only ts1 ts2 r :
  run_list w h only (ts1 ++ ts2) r
  = let '(r1, g1) := run_list w h only ts1 r in
    let '(r2, g2) := run_list w h only ts2 r1 in
    (r2, g1 ++ g2).
Proof.
  revert r. induction ts1 as [|t ts1 IH]; intros r; simpl.
  - by destruct (run_list w h only ts2 r).
  - destruct (run_task w h only t r) as [r1 g]. rewrite IH.
    destruct (run_list w h only ts1 r1) as [r2 g1].
    by destruct (run_list w h only ts2 r2).
Qed.

(** A play whose tasks notify nothing is its three sections in a row. *)
Lemma run_host_plain p s :
  Forall (fun t => t_notify t = []) (all_tasks p) ->
  notified s = [] ->
  (run_host w h [] p s).1 = (run_list w h [] (all_tasks p) (HRun s false)).1
  ∧ concat (run_host w h [] p s).2
    = concat (run_list w h [] (all_tasks p) (HRun s false)).2.
Proof.
  intros HF Hs. unfold all_tasks in *. rewrite !Forall_app in HF. destruct HF as (H1 & H2 & H3).
  unfold run_host, run_section. rewrite run_list_app.
  pose proof (run_list_notified [] (p_pre_tasks p) (HRun s false) H1) as N1.
  destruct (run_list w h [] (p_pre_tasks p) (HRun s false)) as [r1 g1].
  simpl in N1. rewrite Hs in N1. rewrite (flush_nothing _ _ N1).
  rewrite run_list_app.
  pose proof (run_list_notified [] (p_tasks p) r1 H2) as N2.
  destruct (run_list w h [] (p_tasks p) r1) as [r2 g2].
  simpl in N2. rewrite N1 in N2. rewrite (flush_nothing _ _ N2).
  pose proof (run_list_notified [] (p_post_tasks p) r2 H3) as N3.
  destruct (run_list w h [] (p_post_tasks p) r2) as [r3 g3].
  simpl in N3. rewrite N2 in N3. rewrite (flush_nothing _ _ N3).
  simpl. split; [done|].
  rewrite !concat_app. simpl. by rewrite !app_nil_r.
Qed.

End EngineFacts.

(** ** Facts about what a host prints *)


Section RanFacts.
Variable h : string.

Lemma ran_events ts evs f :
  ran h ts evs f ->
  Forall (fun e => ev_host e = h ∧ ev_task e ∈ names ts) evs.
Proof.
  induction 1 as [|t ts o sl evs f Ho Hp Hr IH|t ts sl Hp]; simpl.
  - constructor.
  - constructor; [split; [done | apply elem_of_cons; by left]|].
    eapply Forall_impl; [exact IH|].
    intros e [? ?]. split; [done | apply elem_of_cons; by right].
  - constructor; [|constructor]. split; [done | apply elem_of_cons; by left].
Qed.

Lemma ran_failed_iff ts evs f :
  ran h ts evs f -> f = true ↔ Exists (fun e => ev_out e = failed) evs.
Proof.
  induction 1 as [|t ts o sl evs f Ho Hp Hr IH|t ts sl Hp]; simpl.
  - split; [done | by inversion 1].
  - rewrite IH. split; [by right|].
    inversion 1 as [? ? Hx|]; subst; [done | done].
  - split; [by left | done].
Qed.

(** A host that did not fail passed every task. *)
Lemma ran_alive ts evs t :
  ran h ts evs false -> t ∈ ts -> Exists (passed h t) evs.
Proof.
  intros Hr. remember false as f eqn:Hf.
  induction Hr as [|t' ts o sl evs f Ho Hp Hr IH|t' ts sl Hp]; intros Hin.
  - by apply elem_of_nil in Hin.
  - apply elem_of_cons in Hin as [-> | Hin].
    + left. by exists o, sl.
    + right. by apply IH.
  - discriminate.
Qed.

(** The first task always prints. *)
Lemma ran_head t ts evs f :
  ran h (t :: ts) evs f -> ∃ e evs', evs = e :: evs' ∧ named h (t_name t) e.
Proof. inversion 1; subst; eexists _, _; by split. Qed.

(** Whatever is printed for the tasks after [t] comes after [t] was
    passed. *)
Lemma ran_preceded ts1 t ts2 evs f :
  ran h (ts1 ++ t :: ts2) evs f ->
  Forall (fun n => n ∉ names (ts1 ++ [t])) (names ts2) ->
  preceded_by (passed h t) (fun e => ev_task e ∈ names ts2) evs.
Proof.
  revert evs. induction ts1 as [|t1 ts1 IH]; intros evs Hr Hd; simpl in Hr.
  - assert (t_name t ∉ names ts2) as Hn.
    { intros Hin. rewrite Forall_forall in Hd.
      apply (Hd _ Hin). simpl. apply elem_of_cons. by left. }
    inversion Hr as [|? ? o sl evs' ? Ho Hp Hr'|? ? sl Hp]; subst.
    + apply (preceded_by_app _ _ [_] evs').
      * apply preceded_by_none. by repeat constructor.
      * left. left. by exists o, sl.
    + apply preceded_by_none. by repeat constructor.
  - assert (t_name t1 ∉ names ts2) as Hn.
    { intros Hin. rewrite Forall_forall in Hd.
      apply (Hd _ Hin). simpl. apply elem_of_cons. by left. }
    assert (Forall (fun n => n ∉ names (ts1 ++ [t])) (names ts2)) as Hd'.
    { eapply Forall_impl; [exact Hd|]. intros n Hx Hin.
      apply Hx. simpl. apply elem_of_cons. by right. }
    inversion Hr as [|? ? o sl evs' ? Ho Hp Hr'|? ? sl Hp]; subst.
    + apply (preceded_by_app _ _ [_] evs').
      * apply preceded_by_none. by repeat constructor.
      * right. by apply IH.
    + apply preceded_by_none. by repeat constructor.
Qed.

(** Nothing is printed for the tasks after one that failed. *)
Lemma ran_after_failure ts1 t ts2 evs f :
  ran h (ts1 ++ t :: ts2) evs f ->
  Forall (fun n => n ∉ names (ts1 ++ [t])) (names ts2) ->
  Exists (is_event h (t_name t) failed) evs ->
  Forall (fun e => ev_task e ∉ names ts2) evs.
Proof.
  revert evs. induction ts1 as [|t1 ts1 IH]; intros evs Hr Hd Hf; simpl in Hr.
  - assert (t_name t ∉ names ts2) as Hn.
    { intros Hin. rewrite Forall_forall in Hd.
      apply (Hd _ Hin). simpl. apply elem_of_cons. by left. }
    inversion Hr as [|? ? o sl evs' ? Ho Hp Hr'|? ? sl Hp]; subst.
    + exfalso. inversion Hf as [? ? (_ & _ & Hx)|? ? Hx]; subst; [done|].
      apply Exists_exists in Hx as (e & Hin & (_ & Hname & _)).
      pose proof (ran_events _ _ _ Hr') as Hev.
      rewrite Forall_forall in Hev. destruct (Hev _ Hin) as [_ He].
      by rewrite Hname in He.
    + by repeat constructor.
  - assert (t_name t1 ∉ names ts2) as Hn.
    { intros Hin. rewrite Forall_forall in Hd.
      apply (Hd _ Hin). simpl. apply elem_of_cons. by left. }
    assert (Forall (fun n => n ∉ names (ts1 ++ [t])) (names ts2)) as Hd'.
    { eapply Forall_impl; [exact Hd|]. intros n Hx Hin.
      apply Hx. simpl. apply elem_of_cons. by right. }
    inversion Hr as [|? ? o sl evs' ? Ho Hp Hr'|? ? sl Hp]; subst.
    + constructor; [done|]. apply IH; [done | done |].
      inversion Hf as [? ? (_ & _ & Hx)|? ? Hx]; subst; done.
    + by repeat constructor.
Qed.

End RanFacts.


(** ** The rolling update on one host *)

Section RollingHost.
Import RollingUpdate.
Variable w : host_world.
Variable h : string.
Variable s : host_state.

Let T := host_trace w h [] rolling_update s.
Let E := host_end w h [] rolling_update s.

Lemma rolling_no_notify : Forall (fun t => t_notify t = []) (all_tasks rolling_update).
Proof. by_eval. Qed.

(** No task notifies the handler, so the host's trace is the trace of
    the fifteen tasks in order. *)
Lemma rolling_ran : ran h (all_tasks rolling_update) T (r_failed E).
Proof.
  destruct (run_host_plain w h rolling_update (enter s) rolling_no_notify eq_refl)
    as [H1 H2].
  unfold T, E, host_trace, host_end. rewrite H1, H2.
  apply run_list_ran.
Qed.

Lemma rolling_host_events : Forall (fun e => ev_host e = h) T.
Proof.
  eapply Forall_impl; [exact (ran_events _ _ _ _ rolling_ran)|]. by intros e [? _].
Qed.

Lemma rolling_task_names :
  Forall (fun e => ev_task e ∈ names (all_tasks rolling_update)) T.
Proof.
  eapply Forall_impl; [exact (ran_events _ _ _ _ rolling_ran)|]. by intros e [_ ?].
Qed.

(** The handler's tasks never print. *)
Lemma rolling_no_handler_event :
  Forall (fun e => ev_task e ∉ names (h_block rollback_on_failure)) T.
Proof.
  eapply Forall_impl; [exact rolling_task_names|].
  intros e Hin Hh.
  assert (Forall (fun n => n ∉ names (h_block rollback_on_failure))
                 (names (all_tasks rolling_update))) as Hd by by_eval.
  rewrite Forall_forall in Hd. by apply (Hd _ Hin).
Qed.

Lemma rolling_never_rolled_back : ¬ rolled_back h T.
Proof.
  intros Hr. apply Exists_exists in Hr as (e & Hin & (_ & Hn & _)).
  pose proof rolling_no_handler_event as Hf.
  rewrite Forall_forall in Hf. apply (Hf _ Hin). rewrite Hn. by_eval.
Qed.

(** The event of "Verify update success" can only be [ok] or [failed]. *)
Lemma passed_verify_success e :
  passed h verify_success e -> is_event h "Verify update success" ok e.
Proof.
  intros (o & sl & -> & Ho & Hp). repeat split.
  destruct o; simpl in *; try done.
  by destruct Hp.
Qed.

Lemma rolling_alive_committed : r_failed E = false -> committed h T.
Proof.
  intros Hf. pose proof rolling_ran as Hr. rewrite Hf in Hr.
  eapply Exists_impl; [|exact passed_verify_success].
  eapply ran_alive; [exact Hr | unfold rolling_update; in_play].
Qed.

Lemma rolling_failed_iff : r_failed E = true ↔ Exists (fun e => ev_out e = failed) T.
Proof. exact (ran_failed_iff _ _ _ _ rolling_ran). Qed.

(** The sweep of a host prints only after the host has committed. *)
Lemma rolling_sweep_after_commit :
  preceded_by (is_event h "Verify update success" ok) is_sweep T.
Proof.
  eapply preceded_by_weaken; [exact passed_verify_success | |].
  { intros e He. exact He. }
  apply (ran_preceded h
           [check_rolling; create_backup; remove_from_lb; drain; stop_service;
            update_files; update_src; update_npm; start_service; wait_ready;
            health_check; add_to_lb]
           verify_success (p_post_tasks rolling_update) T (r_failed E)).
  - exact rolling_ran.
  - by_eval.
Qed.

End RollingHost.

(** ** Phases *)

Lemma committed_started h tr : committed h tr -> started_ h tr.
Proof. intros H. eapply Exists_impl; [exact H|]. by intros e (? & _). Qed.

Lemma rolled_back_started h tr : rolled_back h tr -> started_ h tr.
Proof. intros H. eapply Exists_impl; [exact H|]. by intros e (? & _). Qed.

Lemma has_failed_started h tr : has_failed h tr -> started_ h tr.
Proof. intros H. eapply Exists_impl; [exact H|]. by intros e (? & _). Qed.

Lemma phase_pending h tr : phase_of h tr = Pending ↔ ¬ started_ h tr.
Proof.
  unfold phase_of. repeat case_decide; split; try done; intros Hn; exfalso;
    eauto using committed_started, rolled_back_started, has_failed_started.
Qed.

Lemma phase_committed h tr :
  committed h tr -> ¬ rolled_back h tr -> phase_of h tr = Committed.
Proof. intros. unfold phase_of. by repeat case_decide. Qed.

Lemma not_at_rest_started h tr : ¬ at_rest (phase_of h tr) -> started_ h tr.
Proof.
  intros Hn. destruct (decide (started_ h tr)) as [|Hs]; [done|].
  exfalso. apply Hn. left. by apply phase_pending.
Qed.

Lemma started_app h l1 l2 : started_ h (l1 ++ l2) ↔ started_ h l1 ∨ started_ h l2.
Proof. apply Exists_app. Qed.

Lemma not_started_others h h' tr :
  Forall (fun e => ev_host e = h') tr -> h ≠ h' -> ¬ started_ h tr.
Proof.
  intros HF Hne Hs. apply Exists_exists in Hs as (e & Hin & He).
  rewrite Forall_forall in HF. specialize (HF _ Hin). congruence.
Qed.

(** ** One host after the other *)

Section Serial.
(** What each host prints and whether it fails. *)
Variable T : string -> list event.
Variable F : string -> bool.

Hypothesis T_host : forall h, Forall (fun e => ev_host e = h) (T h).
Hypothesis T_commit : forall h, F h = false -> committed h (T h).
Hypothesis T_failed : forall h, Exists (fun e => ev_out e = failed) (T h) -> F h = true.


Lemma chain_hosts hosts : Forall (fun e => ev_host e ∈ hosts) (chain T F hosts).
Proof.
  induction hosts as [|h hs IH]; simpl; [constructor|].
  apply Forall_app. split.
  - eapply Forall_impl; [apply T_host|]. intros e ->. apply elem_of_cons. by left.
  - destruct (F h); [constructor|].
    eapply Forall_impl; [exact IH|]. intros e ?. apply elem_of_cons. by right.
Qed.

Lemma chain_started hosts h : started_ h (chain T F hosts) -> h ∈ hosts.
Proof.
  intros Hs. apply Exists_exists in Hs as (e & Hin & <-).
  pose proof (chain_hosts hosts) as HF. rewrite Forall_forall in HF. auto.
Qed.

(** A host prints only after every host before it has committed. *)
Lemma chain_order hosts :
  NoDup hosts ->
  forall pre suf, chain T F hosts = pre ++ suf ->
  forall (i j : nat) h1 h2, (i < j)%nat ->
    hosts !! i = Some h1 -> hosts !! j = Some h2 ->
    started_ h2 pre -> committed h1 pre.
Proof.
  induction hosts as [|h hs IH]; intros ND pre suf Heq i j h1 h2 Hij H1 H2 Hs;
    [done|].
  apply NoDup_cons in ND as [Hnin ND].
  destruct j as [|j]; [lia|]. simpl in H2.
  assert (h2 ∈ hs) as Hin2 by (apply list_elem_of_lookup; eauto).
  assert (h2 ≠ h) as Hne2 by (intros ->; done).
  simpl in Heq. apply app_eq_app in Heq as [l [[HT Hsuf] | [-> Hrest]]].
  - exfalso. eapply (not_started_others h2 h pre); [|done|done].
    pose proof (T_host h) as HF. rewrite HT, Forall_app in HF. tauto.
  - apply started_app in Hs as [Hs | Hs];
      [exfalso; by eapply (not_started_others h2 h (T h)) |].
    destruct (F h) eqn:HF.
    { symmetry in Hrest. apply app_eq_nil in Hrest as [-> _]. inversion Hs. }
    unfold committed. rewrite Exists_app.
    destruct i as [|i]; simpl in H1.
    + injection H1 as <-. left. by apply T_commit.
    + right. eapply (IH ND l suf Hrest i j); eauto. lia.
Qed.

(** After a host has failed no later host prints anything. *)
Lemma chain_halts hosts :
  NoDup hosts ->
  forall (i j : nat) h1 h2, (i < j)%nat ->
    hosts !! i = Some h1 -> hosts !! j = Some h2 ->
    has_failed h1 (chain T F hosts) -> ¬ started_ h2 (chain T F hosts).
Proof.
  induction hosts as [|h hs IH]; intros ND i j h1 h2 Hij H1 H2 Hf; [done|].
  apply NoDup_cons in ND as [Hnin ND].
  destruct j as [|j]; [lia|]. simpl in H2.
  assert (h2 ∈ hs) as Hin2 by (apply list_elem_of_lookup; eauto).
  assert (h2 ≠ h) as Hne2 by (intros ->; done).
  simpl. rewrite started_app. intros [Hs | Hs];
    [by eapply (not_started_others h2 h (T h)) |].
  destruct (F h) eqn:HF; [inversion Hs|].
  destruct i as [|i]; simpl in H1.
  - injection H1 as <-. simpl in Hf. rewrite HF in Hf.
    apply Exists_app in Hf as [Hf | Hf].
    + assert (F h = true); [|congruence].
      apply T_failed. eapply Exists_impl; [exact Hf|]. by intros e [_ ?].
    + apply Hnin. apply chain_started. by apply has_failed_started.
  - simpl in Hf. rewrite HF in Hf.
    assert (h1 ∈ hs) as Hin1 by (apply list_elem_of_lookup; eauto).
    assert (h1 ≠ h) as Hne1 by (intros ->; done).
    apply Exists_app in Hf as [Hf | Hf].
    + eapply (not_started_others h1 h (T h)); eauto using has_failed_started.
    + eapply (IH ND i j); eauto. lia.
Qed.

Lemma chain_Forall (P : event -> Prop) hosts :
  (forall h, Forall P (T h)) -> Forall P (chain T F hosts).
Proof.
  intros HP. induction hosts as [|h hs IH]; simpl; [constructor|].
  apply Forall_app. split; [apply HP|]. destruct (F h); [constructor | done].
Qed.

Lemma chain_preceded (P Q : event -> Prop) hosts :
  (forall h, preceded_by P Q (T h)) -> preceded_by P Q (chain T F hosts).
Proof.
  intros HP. induction hosts as [|h hs IH]; simpl.
  - apply preceded_by_none. constructor.
  - apply preceded_by_app; [apply HP|]. right.
    destruct (F h); [apply preceded_by_none; constructor | done].
Qed.

(** While a host prints, the hosts after it have printed nothing. *)
Lemma chain_later hosts :
  NoDup hosts ->
  forall pre e suf, chain T F hosts = pre ++ e :: suf ->
  forall (i j : nat) h2, (i < j)%nat ->
    hosts !! i = Some (ev_host e) -> hosts !! j = Some h2 ->
    ¬ started_ h2 pre.
Proof.
  induction hosts as [|h hs IH]; intros ND pre e suf Heq i j h2 Hij H1 H2; [done|].
  apply NoDup_cons in ND as [Hnin ND].
  destruct j as [|j]; [lia|]. simpl in H2.
  assert (h2 ∈ hs) as Hin2 by (apply list_elem_of_lookup; eauto).
  assert (h2 ≠ h) as Hne2 by (intros ->; done).
  simpl in Heq. apply app_eq_app in Heq as [l [[HT Hsuf] | [-> Hrest]]].
  - eapply (not_started_others h2 h pre); [|done].
    pose proof (T_host h) as HF. rewrite HT, Forall_app in HF. tauto.
  - rewrite started_app. intros [Hs | Hs];
      [by eapply (not_started_others h2 h (T h)) |].
    destruct (F h) eqn:HF.
    { symmetry in Hrest. by apply app_eq_nil in Hrest as [_ ?]. }
    assert (ev_host e ∈ hs) as Hine.
    { pose proof (chain_hosts hs) as HC. rewrite Hrest, Forall_app, Forall_cons in HC.
      tauto. }
    destruct i as [|i]; simpl in H1.
    + injection H1 as ->. done.
    + eapply (IH ND l e suf Hrest i j h2); [lia | done | done | done].
Qed.

End Serial.

(** ** A play with [serial: 1] *)

Section SerialPlay.
Variable world : string -> host_world.
Variable init : string -> host_state.
Variable only : list string.
Variable p : play.

Lemma chunks_one hosts : chunks (length hosts) 1 hosts = map (fun h => [h]) hosts.
Proof. induction hosts as [|h hs IH]; simpl; [done|]. by rewrite drop_0, IH. Qed.

Lemma zip_app_nil gs : zip_app gs [] = gs.
Proof. by destruct gs. Qed.

Lemma run_batch_one h :
  run_batch world init only p [h]
  = PlayResult (host_trace (world h) h only p (init h))
               [(h, host_end (world h) h only p (init h))].
Proof.
  unfold run_batch, host_trace, host_end, lockstep. simpl.
  by rewrite zip_app_nil.
Qed.

(** With [serial: 1] the play is the hosts' traces one after the other,
    up to the first host that fails. *)
Lemma run_play_serial hosts :
  p_serial p = Some 1%nat ->
  pr_trace (run_play world init only p hosts)
  = chain (fun h => host_trace (world h) h only p (init h))
          (fun h => r_failed (host_end (world h) h only p (init h))) hosts.
Proof.
  intros Hs. unfold run_play, batches. rewrite Hs, chunks_one.
  induction hosts as [|h hs IH]; [done|].
  cbn [map run_batches chain]. rewrite run_batch_one.
  cbn [pr_hosts pr_trace forallb snd]. rewrite andb_true_r.
  destruct (r_failed _); simpl; [by rewrite app_nil_r|]. by rewrite IH.
Qed.

End SerialPlay.

(** ** The serial rollout *)

Section Rollout.
Import RollingUpdate.
Variable world : string -> host_world.
Variable init : string -> host_state.

Let T := fun h => host_trace (world h) h [] rolling_update (init h).
Let F := fun h => r_failed (host_end (world h) h [] rolling_update (init h)).

Lemma rolling_trace_chain hosts : rolling_trace world init hosts = chain T F hosts.
Proof. unfold rolling_trace. by rewrite run_play_serial. Qed.

Lemma rollout_host_events h : Forall (fun e => ev_host e = h) (T h).
Proof. apply rolling_host_events. Qed.

Lemma rollout_alive_committed h : F h = false -> committed h (T h).
Proof. apply rolling_alive_committed. Qed.

Lemma rollout_failed_event h : Exists (fun e => ev_out e = failed) (T h) -> F h = true.
Proof. apply rolling_failed_iff. Qed.

Lemma rollout_never_rolled_back hosts h pre suf :
  rolling_trace world init hosts = pre ++ suf -> ¬ rolled_back h pre.
Proof.
  rewrite rolling_trace_chain. intros Heq Hr.
  assert (Forall (fun e => ev_task e ∉ names (h_block rollback_on_failure))
                 (chain T F hosts)) as HF.
  { apply chain_Forall. intros h'. apply rolling_no_handler_event. }
  rewrite Heq, Forall_app in HF. destruct HF as [HF _].
  apply Exists_exists in Hr as (e & Hin & (_ & Hn & _)).
  rewrite Forall_forall in HF. apply (HF _ Hin). rewrite Hn. by_eval.
Qed.

Lemma rollout_order hosts :
  NoDup hosts ->
  forall pre suf, rolling_trace world init hosts = pre ++ suf ->
  forall (i j : nat) h1 h2, (i < j)%nat ->
    hosts !! i = Some h1 -> hosts !! j = Some h2 ->
    started_ h2 pre -> phase_of h1 pre = Committed.
Proof.
  intros ND pre suf Heq i j h1 h2 Hij H1 H2 Hs.
  apply phase_committed; [|by eapply rollout_never_rolled_back].
  rewrite rolling_trace_chain in Heq.
  eapply (chain_order T F rollout_host_events rollout_alive_committed hosts ND pre suf Heq i j); eauto.
Qed.

End Rollout.

(** C4.  Under [serial: 1], at every moment of a rolling update at most
    one host is outside {Pending, Committed, RolledBack}; a host prints
    its first line only when every host before it in the inventory is
    Committed; and once a host has failed, no host after it ever starts. *)
Theorem serial_one_host_in_flight world init (hosts : list string) :
  NoDup hosts ->
  (forall pre suf, rolling_trace world init hosts = pre ++ suf ->
     (forall h1 h2, ¬ at_rest (phase_of h1 pre) -> ¬ at_rest (phase_of h2 pre) -> h1 = h2)
     ∧ (forall (i j : nat) h1 h2, (i < j)%nat ->
          hosts !! i = Some h1 -> hosts !! j = Some h2 ->
          phase_of h2 pre ≠ Pending -> phase_of h1 pre = Committed))
  ∧ (forall (i j : nat) h1 h2, (i < j)%nat ->
       hosts !! i = Some h1 -> hosts !! j = Some h2 ->
       has_failed h1 (rolling_trace world init hosts) ->
       phase_of h2 (rolling_trace world init hosts) = Pending).
Proof.
  intros ND. split.
  - intros pre suf Heq.
    assert (forall (i j : nat) h1 h2, (i < j)%nat ->
              hosts !! i = Some h1 -> hosts !! j = Some h2 ->
              started_ h2 pre -> phase_of h1 pre = Committed) as Hord.
    { intros. eapply rollout_order; eauto. }
    split.
    + intros h1 h2 Hn1 Hn2.
      pose proof (not_at_rest_started _ _ Hn1) as Hs1.
      pose proof (not_at_rest_started _ _ Hn2) as Hs2.
      assert (forall h, started_ h pre -> ∃ i, hosts !! i = Some h) as Hidx.
      { intros h Hs. apply list_elem_of_lookup.
        eapply (chain_started _ _ (rollout_host_events world init)).
        rewrite <- rolling_trace_chain, Heq. apply started_app. by left. }
      destruct (Hidx _ Hs1) as [i Hi]. destruct (Hidx _ Hs2) as [j Hj].
      destruct (Nat.lt_trichotomy i j) as [Hlt | [-> | Hlt]].
      * exfalso. apply Hn1. right. left. eapply Hord; eauto.
      * congruence.
      * exfalso. apply Hn2. right. left. eapply Hord; eauto.
    + intros i j h1 h2 Hij H1 H2 Hp. eapply Hord; eauto.
      destruct (decide (started_ h2 pre)) as [|Hn]; [done|].
      by apply phase_pending in Hn.
  - intros i j h1 h2 Hij H1 H2 Hf. apply phase_pending.
    rewrite rolling_trace_chain in *.
    eapply (chain_halts _ _ (rollout_host_events world init) (rollout_failed_event world init) hosts ND i j); eauto.
Qed.

(** Scenario B: web2 fails its health check, web3 never starts. *)
Lemma serial_one_host_in_flight_witness :
  NoDup Scenario.hosts3
  ∧ phase_of "web3" (rolling_trace Scenario.world_B (fun _ => Scenario.machine)
                                   Scenario.hosts3) = Pending.
Proof.
  assert (NoDup Scenario.hosts3) as ND by by_eval.
  split; [exact ND|].
  apply (proj2 (serial_one_host_in_flight Scenario.world_B (fun _ => Scenario.machine)
                  Scenario.hosts3 ND) 1%nat 2%nat "web2" "web3").
  - lia.
  - reflexivity.
  - reflexivity.
  - by_eval.
Defined.

(** C7, as stated, fails: in Scenario A the sweep of web1 prints while
    web2 and web3 have not started. *)
Lemma sweep_runs_between_hosts :
  ¬ sweep_after_rollout Scenario.hosts3
      (rolling_trace Scenario.world_A (fun _ => Scenario.machine) Scenario.hosts3).
Proof.
  intros H.
  set (tr := rolling_trace Scenario.world_A (fun _ => Scenario.machine) Scenario.hosts3) in *.
  specialize (H (take 13 tr) (Event "web1" "Clean up old backups" ok []) (drop 14 tr)).
  assert (terminal (phase_of "web2" (take 13 tr))) as Ht.
  { apply H; [by vm_compute | by_eval | by_eval]. }
  vm_compute in Ht. by destruct Ht as [? | [? | ?]].
Qed.

(** C7, amended.  The sweep is part of each host's own pipeline: when it
    prints for a host, that host is Committed, no host is in flight or
    failed, and the hosts after it in the inventory are still Pending. *)
Theorem sweep_at_host_boundary world init (hosts : list string) :
  NoDup hosts ->
  forall pre e suf, rolling_trace world init hosts = pre ++ e :: suf -> is_sweep e ->
    phase_of (ev_host e) pre = Committed
    ∧ (forall h, at_rest (phase_of h pre))
    ∧ (forall (i j : nat) h2, (i < j)%nat ->
         hosts !! i = Some (ev_host e) -> hosts !! j = Some h2 ->
         phase_of h2 pre = Pending).
Proof.
  intros ND pre e suf Heq Hsw.
  set (T := fun h => host_trace (world h) h [] RollingUpdate.rolling_update (init h)).
  set (F := fun h => r_failed (host_end (world h) h [] RollingUpdate.rolling_update (init h))).
  assert (chain T F hosts = pre ++ e :: suf) as Hch
    by (by rewrite <- Heq, rolling_trace_chain).
  assert (committed (ev_host e) pre) as Hc.
  { eapply (chain_preceded T F (is_event (ev_host e) "Verify update success" ok)
              (fun e' => ev_host e' = ev_host e ∧ is_sweep e') hosts); [|exact Hch|done].
    intros h' pre' e' suf' Heq' [Hh Hs'].
    assert (ev_host e' = h') as Hh'.
    { pose proof (rollout_host_events world init h') as HF. fold T in HF.
      rewrite Heq', Forall_app, Forall_cons in HF. tauto. }
    rewrite <- Hh, Hh'. eapply rolling_sweep_after_commit; eauto. }
  assert (phase_of (ev_host e) pre = Committed) as Hpc.
  { apply phase_committed; [done|]. by eapply rollout_never_rolled_back. }
  assert (forall (i j : nat) h2, (i < j)%nat ->
            hosts !! i = Some (ev_host e) -> hosts !! j = Some h2 ->
            ¬ started_ h2 pre) as Hlater.
  { intros i j h2 Hij H1 H2.
    eapply (chain_later T F (rollout_host_events world init) hosts ND pre e suf Hch i j); eauto. }
  split; [done|]. split.
  - intros h. destruct (decide (started_ h pre)) as [Hs | Hn];
      [|left; by apply phase_pending].
    assert (forall h', started_ h' (chain T F hosts) -> ∃ i, hosts !! i = Some h') as Hidx.
    { intros h' Hs'. apply list_elem_of_lookup.
      by eapply (chain_started _ _ (rollout_host_events world init)). }
    destruct (Hidx h) as [j Hj]. { rewrite Hch. apply started_app. by left. }
    destruct (Hidx (ev_host e)) as [i Hi].
    { rewrite Hch. apply started_app. right. by left. }
    destruct (Nat.lt_trichotomy i j) as [Hlt | [-> | Hlt]].
    + exfalso. by eapply Hlater.
    + right. left. congruence.
    + right. left. eapply (rollout_order world init hosts ND pre (e :: suf) Heq j i); eauto.
      by apply committed_started.
  - intros i j h2 Hij H1 H2. apply phase_pending. by eapply Hlater.
Qed.

(** Scenario A: when web2 sweeps, web1 and web2 are Committed and web3 is
    Pending. *)
Lemma sweep_at_host_boundary_witness :
  NoDup Scenario.hosts3
  ∧ ∃ pre, phase_of "web2" pre = Committed ∧ at_rest (phase_of "web1" pre)
           ∧ phase_of "web3" pre = Pending.
Proof.
  assert (NoDup Scenario.hosts3) as ND by by_eval.
  split; [exact ND|].
  set (tr := rolling_trace Scenario.world_A (fun _ => Scenario.machine) Scenario.hosts3).
  exists (take 28 tr).
  destruct (sweep_at_host_boundary Scenario.world_A (fun _ => Scenario.machine)
              Scenario.hosts3 ND (take 28 tr)
              (Event "web2" "Clean up old backups" ok []) (drop 29 tr))
    as (H1 & H2 & H3).
  - by vm_compute.
  - by_eval.
  - split; [exact H1|]. split; [apply H2|].
    apply (H3 1%nat 2%nat "web3"); [lia | reflexivity | reflexivity].
Defined.

(** ** Probes *)

Section Probes.
Variable w : host_world.
Variable t : task.
Hypothesis Ht : probe_task t.

Let answer (k : nat) : Z := w_http w (t_name t) k.

(** One turn of the retry loop of a probe. *)
Lemma probe_step k left s :
  attempts w t k left s
  = let s1 := register_result t (RHttp (answer k)) s in
    if Z.eqb (answer k) 200 then (MResult true false (RHttp (answer k)) s1, [])
    else match left with
         | O => (MResult false false (RHttp (answer k)) s1, [])
         | S left' =>
             let '(r, sl) := attempts w t (S k) left' s1 in (r, t_delay t :: sl)
         end.
Proof.
  destruct Ht as [[url Hm] Hu]. unfold answer.
  assert (exec_module w t k s
          = MResult (Z.eqb (w_http w (t_name t) k) 200) false
                    (RHttp (w_http w (t_name t) k)) s) as He
    by (unfold exec_module; by rewrite Hm).
  assert (match t_until t with
          | Some c => eval_cond w (register_result t (RHttp (w_http w (t_name t) k)) s) c
          | None => Some (Z.eqb (w_http w (t_name t) k) 200)
          end = Some (Z.eqb (w_http w (t_name t) k) 200)) as Hmet.
  { destruct Hu as [-> | (r & Hr & ->)]; [done|].
    unfold register_result. rewrite Hr. simpl. by rewrite lookup_insert_eq. }
  destruct left as [|left]; simpl; rewrite He; simpl; rewrite Hmet;
    by destruct (Z.eqb (w_http w (t_name t) k) 200).
Qed.

(** The first 200, at attempt [k0 + n], ends the loop with success after
    [n] sleeps of [delay] seconds. *)
Lemma probe_first_200 n : forall k0 left s,
  (n <= left)%nat ->
  (forall j, (j < n)%nat -> answer (k0 + j) ≠ 200) ->
  answer (k0 + n) = 200 ->
  ∃ s', attempts w t k0 left s
        = (MResult true false (RHttp 200) s', replicate n (t_delay t)).
Proof.
  induction n as [|n IH]; intros k0 left s Hle Hno Hyes; rewrite probe_step; simpl.
  - rewrite Nat.add_0_r in Hyes. rewrite Hyes. simpl. eauto.
  - specialize (Hno 0%nat ltac:(lia)) as H0. rewrite Nat.add_0_r in H0.
    apply Z.eqb_neq in H0. rewrite H0.
    destruct left as [|left]; [lia|].
    destruct (IH (S k0) left (register_result t (RHttp (answer k0)) s)) as [s' ->].
    + lia.
    + intros j Hj. replace (S k0 + j)%nat with (k0 + S j)%nat by lia. apply Hno. lia.
    + by replace (S k0 + n)%nat with (k0 + S n)%nat by lia.
    + eauto.
Qed.

(** No 200 in [left + 1] attempts: the loop gives up after [left] sleeps
    of [delay] seconds. *)
Lemma probe_exhausted left : forall k0 s,
  (forall j, (j <= left)%nat -> answer (k0 + j) ≠ 200) ->
  ∃ st s', attempts w t k0 left s
           = (MResult false false (RHttp st) s', replicate left (t_delay t)).
Proof.
  induction left as [|left IH]; intros k0 s Hno; rewrite probe_step; simpl.
  - specialize (Hno 0%nat ltac:(lia)) as H0. rewrite Nat.add_0_r in H0.
    apply Z.eqb_neq in H0. rewrite H0. eauto.
  - specialize (Hno 0%nat ltac:(lia)) as H0. rewrite Nat.add_0_r in H0.
    apply Z.eqb_neq in H0. rewrite H0.
    destruct (IH (S k0) (register_result t (RHttp (answer k0)) s)) as (st & s' & ->).
    + intros j Hj. replace (S k0 + j)%nat with (k0 + S j)%nat by lia. apply Hno. lia.
    + eauto.
Qed.

End Probes.

Lemma health_check_probe : probe_task RollingUpdate.health_check.
Proof. split; [by eexists | right; by eexists]. Qed.

Lemma verify_rollback_probe : probe_task RollingUpdate.verify_rollback.
Proof. split; [by eexists | by left]. Qed.

(** C8, as stated, fails: a health endpoint that answers 204 (a 2xx) to
    every probe is classified unhealthy. *)
Lemma health_gate_rejects_204 :
  ¬ gate_accepts_2xx
      (World (fun _ => false) (fun _ => false) (fun _ _ => 204) (fun _ => 0) 0
             ∅ ∅ ∅ ∅ ∅ ∅)
      Scenario.machine.
Proof.
  intros H. unfold gate_accepts_2xx in H.
  assert (false = true) as Hx; [|discriminate].
  rewrite <- H; [by vm_compute|].
  exists 0%nat. split; [unfold health_check_retries; lia|]. simpl. unfold is_2xx. lia.
Qed.

(** C8, amended.  The health gate probes at most 11 times ([retries: 10]
    after the first attempt), sleeping 30 s before each retry; the first
    answer 200, at attempt [k], ends the task with [ok] after [k] sleeps;
    eleven answers other than 200 (2xx included) end it with [failed]
    after ten sleeps, and the host has failed. *)
Theorem health_gate_fixed_retries (w : host_world) (h : string) (s : host_state) :
  let name := "Health check after update" in
  (forall k : nat, (k <= 10)%nat ->
     w_http w name k = 200 -> (forall j : nat, (j < k)%nat -> w_http w name j ≠ 200) ->
     ∃ s', run_task w h [] RollingUpdate.health_check (HRun s false)
           = (HRun s' false, [Event h name ok (replicate k 30%nat)]))
  ∧ ((forall j : nat, (j <= 10)%nat -> w_http w name j ≠ 200) ->
     ∃ s', run_task w h [] RollingUpdate.health_check (HRun s false)
           = (HRun s' true, [Event h name failed (replicate 10 30%nat)])).
Proof.
  intros name. split.
  - intros k Hk Hyes Hno.
    destruct (probe_first_200 w _ health_check_probe k 0 10 s Hk Hno Hyes) as [s' He].
    exists s'. unfold run_task. simpl.
    change (run_module w RollingUpdate.health_check s)
      with (attempts w RollingUpdate.health_check 0 10 s).
    by rewrite He.
  - intros Hno.
    destruct (probe_exhausted w _ health_check_probe 10 0 s Hno) as (st & s' & He).
    exists s'. unfold run_task. simpl.
    change (run_module w RollingUpdate.health_check s)
      with (attempts w RollingUpdate.health_check 0 10 s).
    by rewrite He.
Qed.

(** Scenario B on web2: eleven probes, ten sleeps of 30 s, failed. *)
Lemma health_gate_fixed_retries_witness :
  ∃ s', run_task Scenario.sick "web2" [] RollingUpdate.health_check
          (HRun Scenario.machine false)
        = (HRun s' true,
           [Event "web2" "Health check after update" failed (replicate 10 30%nat)]).
Proof.
  apply (proj2 (health_gate_fixed_retries Scenario.sick "web2" Scenario.machine)).
  intros j _. vm_compute. discriminate.
Defined.

(** C9, as stated, fails: the two tasks do not have the same budget. *)
Lemma rollback_budget_differs :
  ¬ same_budget RollingUpdate.verify_rollback RollingUpdate.health_check.
Proof. intros [H _]. vm_compute in H. discriminate. Qed.

(** C9, amended.  The verification of the rollback has a budget of its
    own, 5 retries 10 s apart, against 10 retries 30 s apart for the
    forward gate: on a host that never answers 200 the forward gate gives
    up after ten sleeps of 30 s, the rollback verification after five
    sleeps of 10 s. *)
Theorem rollback_gate_budget (w : host_world) (s1 s2 : host_state) :
  (forall j : nat, (j <= 10)%nat -> w_http w "Health check after update" j ≠ 200) ->
  (forall j : nat, (j <= 5)%nat -> w_http w "Verify rollback" j ≠ 200) ->
  m_ok (health_gate w s1).1 = false
  ∧ (health_gate w s1).2 = replicate 10 30%nat
  ∧ m_ok (rollback_gate w s2).1 = false
  ∧ (rollback_gate w s2).2 = replicate 5 10%nat.
Proof.
  intros H1 H2.
  destruct (probe_exhausted w _ health_check_probe 10 0 s1 H1) as (st1 & s1' & He1).
  destruct (probe_exhausted w _ verify_rollback_probe 5 0 s2 H2) as (st2 & s2' & He2).
  unfold health_gate, rollback_gate.
  change (run_module w RollingUpdate.health_check s1)
    with (attempts w RollingUpdate.health_check 0 10 s1).
  change (run_module w RollingUpdate.verify_rollback s2)
    with (attempts w RollingUpdate.verify_rollback 0 5 s2).
  by rewrite He1, He2.
Qed.

Lemma rollback_gate_budget_witness :
  (health_gate (Scenario.world_with ["Health check after update"; "Verify rollback"] ∅ ∅)
               Scenario.machine).2 = replicate 10 30%nat
  ∧ (rollback_gate (Scenario.world_with ["Health check after update"; "Verify rollback"] ∅ ∅)
                   Scenario.machine).2 = replicate 5 10%nat.
Proof.
  destruct (rollback_gate_budget
              (Scenario.world_with ["Health check after update"; "Verify rollback"] ∅ ∅)
              Scenario.machine Scenario.machine) as (_ & H1 & _ & H2).
  - intros j _. vm_compute. discriminate.
  - intros j _. vm_compute. discriminate.
  - by split.
Defined.

(** ** The retention sweep *)

Lemma remove_files_lookup (l : list string) (d : dir) n :
  remove_files l d !! n = if decide (n ∈ l) then None else d !! n.
Proof.
  induction l as [|x l IH]; cbn [remove_files foldr].
  - destruct (decide (n ∈ [])) as [H|]; [by apply elem_of_nil in H | done].
  - fold (remove_files l d).
    destruct (decide (n ∈ x :: l)) as [Hin | Hnin].
    + destruct (decide (x = n)) as [-> | Hne]; [apply lookup_delete_eq|].
      rewrite lookup_delete_ne by done. rewrite IH.
      apply elem_of_cons in Hin as [-> | Hin]; [done|].
      by destruct (decide (n ∈ l)).
    + rewrite not_elem_of_cons in Hnin. destruct Hnin as [Hne Hnin].
      rewrite lookup_delete_ne by done. rewrite IH.
      by destruct (decide (n ∈ l)).
Qed.

Lemma find_files_spec pre suf age now (d : dir) n :
  n ∈ find_files pre suf age now d
  ↔ ∃ f, d !! n = Some f ∧ glob pre suf n = true ∧ age <= now - f_mtime f.
Proof.
  unfold find_files. rewrite list_elem_of_fmap. split.
  - intros ([n' f] & -> & Hin). simpl.
    apply elem_of_map_to_list in Hin.
    apply map_lookup_filter_Some in Hin as [Hl [Hg Ha]]. by exists f.
  - intros (f & Hl & Hg & Ha). exists (n, f). split; [done|].
    apply elem_of_map_to_list. by apply map_lookup_filter_Some.
Qed.

(** C2, as stated, fails: a host whose only backup is eight days old is
    left without any restore point. *)
Lemma sweep_deletes_newest :
  ¬ keeps_newest (1700000000 + 8 * 86400)
      {[ "nodejs-ansible-deploy-pre-update-1700000000.tar.gz"
           := File 1700000000 (Tarball Scenario.old_tree) ]}.
Proof.
  intros H.
  specialize (H "nodejs-ansible-deploy-pre-update-1700000000.tar.gz").
  assert (is_Some (@None file)) as [? Hx]; [|discriminate].
  replace (@None file) with
    (sweep_retention (1700000000 + 8 * 86400)
       {[ "nodejs-ansible-deploy-pre-update-1700000000.tar.gz"
            := File 1700000000 (Tarball Scenario.old_tree) ]}
       !! "nodejs-ansible-deploy-pre-update-1700000000.tar.gz") by (by vm_compute).
  apply H. eexists. split; [apply lookup_singleton_eq|].
  intros n' f' Hl. apply lookup_singleton_Some in Hl as [_ <-]. simpl. lia.
Qed.

(** C2, amended.  The sweep goes by name and age alone: a file of the
    backup directory survives it exactly when it is not a backup
    (nodejs-ansible-deploy-*.tar.gz) of age 7 days or more.  The newest
    backup is treated like any other. *)
Theorem sweep_by_age_only (now : Z) (d : dir) (n : string) (f : file) :
  sweep_retention now d !! n = Some f
  ↔ d !! n = Some f ∧ ¬ (is_backup_name n ∧ seven_days <= now - f_mtime f).
Proof.
  unfold sweep_retention, is_backup_name. rewrite remove_files_lookup.
  case_decide as Hin.
  - apply find_files_spec in Hin as (f' & Hl & Hg & Ha).
    split; [done|]. intros [Hl' Hn]. exfalso. apply Hn.
    rewrite Hl in Hl'. injection Hl' as <-. done.
  - split.
    + intros Hl. split; [done|]. intros [Hg Ha]. apply Hin.
      apply find_files_spec. by exists f.
    + by intros [Hl _].
Qed.

(** ** Stepping through a play *)

Lemma set_notified_id s : set_notified (notified s ++ []) s = s.
Proof. destruct s; unfold set_notified; simpl. by rewrite app_nil_r. Qed.

(** A task with no [when], no retries, no [register], no [notify] and no
    [changed_when] is its module call. *)
Lemma run_task_plain w h t s :
  t_when t = CTrue -> budget t = 0%nat -> t_register t = None -> t_notify t = [] ->
  t_changed_when t = None ->
  run_task w h [] t (HRun s false)
  = let m := exec_module w t 0 s in
    if m_ok m
    then (HRun (m_state m) false,
          [Event h (t_name t) (if m_changed m then changed else ok) []])
    else failed_or_ignored h t (m_state m) [].
Proof.
  intros Hw Hb Hr Hn Hc. unfold run_task, run_module, register_result.
  rewrite Hw, Hb, Hr, Hn, Hc. simpl.
  destruct (m_ok _); [|done]. destruct (m_changed _); simpl; [|done].
  by rewrite set_notified_id.
Qed.

Lemma run_task_plain_end w h t s :
  t_when t = CTrue -> budget t = 0%nat -> t_register t = None -> t_notify t = [] ->
  t_changed_when t = None ->
  (run_task w h [] t (HRun s false)).1
  = HRun (m_state (exec_module w t 0 s))
         (negb (m_ok (exec_module w t 0 s) || t_ignore_errors t)).
Proof.
  intros Hw Hb Hr Hn Hc. rewrite run_task_plain by done. simpl.
  unfold failed_or_ignored.
  destruct (m_ok _); simpl; [done|]. by destruct (t_ignore_errors t).
Qed.

Lemma run_list_cons_end w h only t ts r :
  (run_list w h only (t :: ts) r).1 = (run_list w h only ts (run_task w h only t r).1).1.
Proof.
  cbn [run_list]. destruct (run_task w h only t r) as [r1 g]. cbn [fst].
  by destruct (run_list w h only ts r1).
Qed.

(** The host after the next plain task, with the module call laid open. *)
Ltac step_end :=
  match goal with
  | |- context [(run_task ?w ?h [] ?t (HRun ?s false)).1] =>
      rewrite (run_task_plain_end w h t s eq_refl eq_refl eq_refl eq_refl eq_refl);
      unfold exec_module at 1 2;
      simpl (t_module _); simpl (t_name _); simpl (t_ignore_errors _);
      cbn [orb negb]
  end.

Ltac settle := cbn [m_ok success m_state m_changed failure orb negb].

(** ** Restoring a backup *)


(** The restore step of the rollback handler: the pre-update archive of
    the backup directory is extracted at the root. *)
Lemma restore_rollback_eq w s :
  restore_rollback w s
  = if w_fails w "Restore from backup" then s
    else match backups s !! backup_name w (app_name +:+ "-pre-update-") with
         | Some (File _ (Archive m)) => if extractable m then write_files m s else s
         | _ => s
         end.
Proof.
  unfold restore_rollback, exec_module. simpl (t_module _). simpl (t_name _).
  destruct (w_fails w "Restore from backup"); [reflexivity|].
  destruct (backups s !! backup_name w (app_name +:+ "-pre-update-")) as [[mt [a|]]|];
    try reflexivity.
  cbn [fmap option_fmap option_map f_data]. by destruct (extractable a).
Qed.







(** The host of Scenario B that failed its health check, as the play
    leaves it. *)
Lemma sick_host_backup :
  f_data <$> backups (r_state (host_end Scenario.sick "web2" [] RollingUpdate.rolling_update
                                        Scenario.machine))
             !! backup_name Scenario.sick (app_name +:+ "-pre-update-")
  = Some (Tarball Scenario.old_tree).
Proof. by vm_compute. Qed.




(** ** Disaster recovery on one host *)

Section RecoveryHost.
Import DisasterRecovery.
Variable w : host_world.
Variable h : string.




Lemma dr_no_notify : Forall (fun t => t_notify t = []) (all_tasks disaster_recovery).
Proof. by_eval. Qed.



End RecoveryHost.




Lemma run_list_cons w h only t ts r :
  run_list w h only (t :: ts) r
  = let '(r1, g) := run_task w h only t r in
    let '(r2, gs) := run_list w h only ts r1 in
    (r2, g :: gs).
Proof. reflexivity. Qed.



(** ** The backup before an update *)

Section BackupFacts.
Variable w : host_world.
Variable h : string.

Lemma ran_possible ts evs f :
  ran h ts evs f ->
  Forall (fun e => ∃ t, t ∈ ts ∧ ev_task e = t_name t ∧ possible t (ev_out e)) evs.
Proof.
  induction 1 as [|t ts o sl evs f Ho Hp Hr IH|t ts sl Hp].
  - constructor.
  - constructor.
    + exists t. split; [apply list_elem_of_here | by split].
    + eapply Forall_impl; [exact IH|].
      intros e (t' & Hin & Hn & Hp'). exists t'. split; [by apply list_elem_of_further | by split].
  - constructor; [|constructor].
    exists t. split; [apply list_elem_of_here | by split].
Qed.

(** A task that was passed is followed by the event of the next one. *)
Lemma ran_next ts1 t t' ts2 evs f :
  ran h (ts1 ++ t :: t' :: ts2) evs f ->
  Forall (fun n => n ≠ t_name t) (names ts1) ->
  Exists (fun e => ev_task e = t_name t ∧ ev_out e ≠ failed) evs ->
  Exists (named h (t_name t')) evs.
Proof.
  revert evs. induction ts1 as [|t1 ts1 IH]; intros evs Hr Hd Hex; simpl in Hr.
  - inversion Hr as [|? ? o sl evs' ? Ho Hp Hr'|? ? sl Hp]; subst.
    + right. apply ran_head in Hr' as (e & evs'' & -> & Hn). by left.
    + exfalso. inversion Hex as [? ? [_ Hx]|? ? Hx]; subst; [done | inversion Hx].
  - inversion Hd as [|? ? Hne Hd']; subst.
    inversion Hr as [|? ? o sl evs' ? Ho Hp Hr'|? ? sl Hp]; subst.
    + right. apply IH; [done | done |].
      inversion Hex as [? ? [Hx _]|? ? Hx]; subst; [done | done].
    + exfalso. inversion Hex as [? ? [Hx _]|? ? Hx]; subst; [done | inversion Hx].
Qed.

Lemma run_list_events_any ts r :
  Forall (fun e => ev_host e = h ∧ ev_task e ∈ names ts) (concat (run_list w h [] ts r).2).
Proof.
  destruct r as [s [|]].
  - rewrite run_list_failed. simpl. rewrite concat_silent. constructor.
  - eapply ran_events. apply run_list_ran.
Qed.

Lemma handler_tasks_names hd : names (handler_tasks hd) = names (h_block hd).
Proof.
  unfold handler_tasks, names. induction (h_block hd) as [|t l IH]; simpl; [done|].
  by rewrite IH.
Qed.

Lemma due_names (P : handler -> Prop) `{forall hd, Decision (P hd)} hds n :
  n ∈ names (flat_map handler_tasks (filter P hds)) ->
  n ∈ names (flat_map h_block hds).
Proof.
  induction hds as [|hd hds IH]; [done|].
  rewrite filter_cons. unfold names in *. simpl.
  rewrite fmap_app, elem_of_app. intros Hin.
  destruct (decide (P hd)).
  - simpl in Hin. rewrite fmap_app, elem_of_app in Hin.
    destruct Hin as [Hin | Hin]; [left | right; by apply IH].
    change (n ∈ names (h_block hd)). rewrite <- handler_tasks_names. exact Hin.
  - right. by apply IH.
Qed.

(** The end of a section prints handler tasks only. *)
Lemma flush_events p r :
  Forall (fun e => ev_task e ∈ handler_names p) (flush_handlers w h (p_handlers p) r).2.
Proof.
  unfold flush_handlers. destruct (r_failed r); [constructor|].
  match goal with |- context [run_list w h [] ?ts ?r0] =>
    pose proof (run_list_events_any ts r0) as Hev;
    destruct (run_list w h [] ts r0) as [r1 gs] end.
  simpl in *. eapply Forall_impl; [exact Hev|].
  intros e [_ Hn]. unfold handler_names. by eapply due_names.
Qed.

Lemma flush_failed hds s : flush_handlers w h hds (HRun s true) = (HRun s true, []).
Proof. reflexivity. Qed.

Lemma preceded_by_foreign (P Q : event -> Prop) tr (l qs : list string) :
  Forall (fun e => ev_task e ∈ l) tr ->
  (forall e, Q e -> ev_task e ∈ qs) ->
  Forall (fun n => n ∉ qs) l ->
  preceded_by P Q tr.
Proof.
  intros Htr HQ Hd. apply preceded_by_none.
  eapply Forall_impl; [exact Htr|]. intros e Hin Hq.
  rewrite Forall_forall in Hd. by apply (Hd _ Hin), HQ.
Qed.

Lemma deploy_pre_no_notify : Forall (fun t => t_notify t = []) Deploy.pre_tasks.
Proof. by_eval. Qed.

(** What a host prints in the deployment: its pre_tasks, its tasks (if
    it got that far), then the handlers. *)
Lemma deploy_trace s :
  ∃ A B H f1 f2,
    host_trace w h [] Deploy.deploy s = A ++ B ++ H
    ∧ ran h Deploy.pre_tasks A f1
    ∧ (f1 = true -> B = [])
    ∧ (f1 = false -> ran h Deploy.tasks B f2)
    ∧ Forall (fun e => ev_task e ∈ handler_names Deploy.deploy) H.
Proof.
  unfold host_trace, run_host, run_section.
  cbn [p_pre_tasks p_tasks p_post_tasks p_handlers Deploy.deploy].
  pose proof (run_list_ran w h Deploy.pre_tasks (enter s)) as Hpre.
  pose proof (run_list_notified w h [] Deploy.pre_tasks (HRun (enter s) false)
                deploy_pre_no_notify) as Hn.
  destruct (run_list w h [] Deploy.pre_tasks (HRun (enter s) false)) as [r1 g1].
  cbn [fst snd] in Hpre, Hn. change (notified (r_state (HRun (enter s) false))) with (@nil string) in Hn.
  rewrite (flush_nothing w h _ r1 Hn).
  destruct r1 as [s1 [|]].
  - rewrite run_list_failed, flush_failed. cbn [run_list]. rewrite flush_failed.
    exists (concat g1), [], [], true, true.
    split; [|split; [done|split; [done|split; [done|constructor]]]].
    cbn [fst snd]. rewrite !concat_app, concat_silent. simpl. by rewrite !app_nil_r.
  - pose proof (run_list_ran w h Deploy.tasks s1) as Htasks.
    destruct (run_list w h [] Deploy.tasks (HRun s1 false)) as [r2 g2].
    pose proof (flush_events Deploy.deploy r2) as Hh1.
    cbn [p_handlers Deploy.deploy] in Hh1.
    destruct (flush_handlers w h Deploy.handlers r2) as [r2' gh].
    cbn [run_list].
    pose proof (flush_events Deploy.deploy r2') as Hh2.
    cbn [p_handlers Deploy.deploy] in Hh2.
    destruct (flush_handlers w h Deploy.handlers r2') as [r3 gh2].
    cbn [fst snd] in *.
    exists (concat g1), (concat g2), (gh ++ gh2), false, (r_failed r2).
    split; [|split; [done|split; [done|split; [done|by apply Forall_app]]]].
    rewrite !concat_app. simpl. by rewrite !app_nil_r, <- !app_assoc.
Qed.

(** The first two tasks of the rolling update when archiving fails: the
    host has failed and nothing on it has changed. *)
Lemma rolling_backup_fails s :
  w_fails w "Create backup before update" = true ∨ app s = None ->
  r_failed (run_list w h [] ru_until_backup (HRun s false)).1 = true
  ∧ same_machine s (r_state (run_list w h [] ru_until_backup (HRun s false)).1).
Proof.
  intros Hbad.
  assert (∃ s', (run_list w h [] ru_until_backup (HRun s false)).1 = HRun s' true
                ∧ same_machine s s') as (s' & -> & Hs); [|by split].
  unfold ru_until_backup.
  rewrite !run_list_cons_end. cbn [run_list fst].
  step_end. destruct (w_fails w "Check if this is a rolling update").
  { settle. exists s. split; [reflexivity | apply same_machine_refl]. }
  settle. rewrite (run_task_plain_end w h RollingUpdate.create_backup s eq_refl eq_refl
                     eq_refl eq_refl eq_refl).
  unfold exec_module. simpl (t_module _). simpl (t_name _). simpl (t_ignore_errors _).
  destruct Hbad as [-> | ->].
  - settle. exists s. split; [reflexivity | apply same_machine_refl].
  - destruct (w_fails w "Create backup before update"); settle;
      (exists s; split; [reflexivity | apply same_machine_refl]).
Qed.

End BackupFacts.

Lemma passed_backed_up h e :
  passed h RollingUpdate.create_backup e -> backed_up h "Create backup before update" e.
Proof.
  intros (o & sl & -> & Ho & Hp). split; [by split|].
  destruct o; simpl in *; try tauto; try discriminate.
Qed.

Lemma passed_named h t e : passed h t e -> named h (t_name t) e.
Proof. intros (o & sl & -> & _). by split. Qed.

(** C3, as stated, fails for the deployment play: on a host where
    archiving fails, the failure is ignored and the files are replaced
    without any backup. *)
Lemma deploy_backup_fail_open :
  ¬ backup_first "web1" "Create backup of current application" (names deploy_destructive)
      (host_trace Scenario.no_backup "web1" [] Deploy.deploy Scenario.machine).
Proof.
  intros H.
  set (T := host_trace Scenario.no_backup "web1" [] Deploy.deploy Scenario.machine) in *.
  specialize (H (take 21 T) (Event "web1" "Copy application files" changed []) (drop 22 T)).
  assert (¬ Exists (backed_up "web1" "Create backup of current application") (take 21 T))
    as Hn by by_eval.
  apply Hn, H; [vm_compute; reflexivity | by_eval].
Qed.


(** ** A host that fails its health check *)

(** Whatever the world, a host whose health check fails is never
    Committed; nor is it rolled back, since nothing notifies the
    handler. *)
Lemma failed_health_check_never_commits (w : host_world) (h : string) (s : host_state) :
  Exists (is_event h "Health check after update" failed)
         (host_trace w h [] RollingUpdate.rolling_update s) ->
  r_failed (host_end w h [] RollingUpdate.rolling_update s) = true
  ∧ ¬ committed h (host_trace w h [] RollingUpdate.rolling_update s)
  ∧ ¬ rolled_back h (host_trace w h [] RollingUpdate.rolling_update s).
Proof.
  intros Hf. split; [|split].
  - apply rolling_failed_iff. eapply Exists_impl; [exact Hf|]. by intros e (_ & _ & ?).
  - intros Hc.
    pose proof (ran_after_failure h
                  (take 10 (all_tasks RollingUpdate.rolling_update))
                  RollingUpdate.health_check
                  (drop 11 (all_tasks RollingUpdate.rolling_update))
                  _ _ (rolling_ran w h s) ltac:(by_eval) Hf) as Hno.
    apply Exists_exists in Hc as (e & Hin & (_ & Hn & _)).
    rewrite Forall_forall in Hno. apply (Hno _ Hin). rewrite Hn. by_eval.
  - apply rolling_never_rolled_back.
Qed.

(** C1 on the code.  Scenario B: web2 answers 503 to all eleven probes
    after its update.  The play stops at the failed health check: web2
    ends Failed, not RolledBack; no task of the handler "rollback on
    failure" is ever printed; the files of the failed release are still in
    place and its service is left running. *)
Theorem unhealthy_host_is_not_rolled_back :
  let tr := rolling_trace Scenario.world_B (fun _ => Scenario.machine) Scenario.hosts3 in
  let web2 := host_end Scenario.sick "web2" [] RollingUpdate.rolling_update
                       Scenario.machine in
  phase_of "web1" tr = Committed
  ∧ phase_of "web2" tr = Failed
  ∧ phase_of "web3" tr = Pending
  ∧ Forall (fun e => ev_task e ∉ names (h_block RollingUpdate.rollback_on_failure)) tr
  ∧ r_failed web2 = true
  ∧ app (r_state web2) ≫= (fun t => t !! "src/index.js") = Some "v2"
  ∧ app (r_state web2) ≫= (fun t => t !! "src/extra.js") = Some "v2"
  ∧ services (r_state web2) !! systemd_service_name = Some true.
Proof.
  repeat split; try (vm_compute; reflexivity). by_eval.
Qed.

(** Scenario A: every host healthy, every host Committed. *)
Example scenario_A_all_committed :
  Forall (fun h => phase_of h (rolling_trace Scenario.world_A (fun _ => Scenario.machine)
                                             Scenario.hosts3) = Committed)
         Scenario.hosts3.
Proof. by_eval. Qed.

(** The sweep alone ([--tags cleanup]) on a host whose only backup is
    eight days old leaves the host without a backup. *)
Example sweep_alone_empties_backup_dir :
  backups
    (r_state
       (host_end
          (World (fun _ => false) (fun _ => false) (fun _ _ => 200)
                 (fun _ => 1700000000 + 8 * 86400) (1700000000 + 8 * 86400) ∅ ∅ ∅ ∅ ∅ ∅)
          "web1" ["cleanup"] RollingUpdate.rolling_update
          (HostState ∅ (Some Scenario.old_tree)
             {[ "nodejs-ansible-deploy-pre-update-1700000000.tar.gz"
                  := File 1700000000 (Tarball Scenario.old_tree) ]}
             ∅ true ∅ [] ∅)))
  = ∅.
Proof. vm_compute. reflexivity. Qed.

(** A task that runs once and notifies nothing, with its result
    registered. *)
Lemma run_task_once_end w h t s :
  eval_cond w s (t_when t) = Some true -> budget t = 0%nat -> t_notify t = [] ->
  (run_task w h [] t (HRun s false)).1
  = HRun (register_result t (m_val (exec_module w t 0 s)) (m_state (exec_module w t 0 s)))
         (negb (m_ok (exec_module w t 0 s) || t_ignore_errors t)).
Proof.
  intros Hw Hb Hn. unfold run_task, run_module, failed_or_ignored.
  cbn [r_failed r_state selected negb]. rewrite Hw, Hb, Hn.
  cbn [m_ok m_changed m_state].
  destruct (m_ok _); cbn [orb negb fst].
  - destruct (default _ _); cbn [fst]; [|done]. by rewrite set_notified_id.
  - by destruct (t_ignore_errors t).
Qed.

(** The two post_tasks of the rolling update are [sweep_retention] at the
    time the first of them runs. *)
Lemma post_tasks_sweep (w : host_world) (h : string) (s : host_state) :
  w_fails w "Clean up old backups" = false ->
  w_fails w "Remove old backups" = false ->
  backups (r_state (run_list w h [] (p_post_tasks RollingUpdate.rolling_update)
                             (HRun s false)).1)
  = sweep_retention (w_clock w "Clean up old backups") (backups s).
Proof.
  intros H1 H2. cbn [p_post_tasks RollingUpdate.rolling_update].
  rewrite !run_list_cons_end. cbn [run_list fst].
  assert (exec_module w RollingUpdate.find_old_backups 0 s
          = MResult true false
              (RFound (find_files (app_name +:+ "-") ".tar.gz" seven_days
                                  (w_clock w "Clean up old backups") (backups s))) s) as He1
    by (unfold exec_module; simpl (t_module _); simpl (t_name _); by rewrite H1).
  rewrite (run_task_once_end w h RollingUpdate.find_old_backups s eq_refl eq_refl eq_refl).
  rewrite He1. cbn [m_ok m_val m_state orb negb].
  set (s1 := register_result _ _ s).
  assert (exec_module w RollingUpdate.remove_old_backups 0 s1
          = success s1 (set_backups (sweep_retention (w_clock w "Clean up old backups")
                                                     (backups s)) s1)) as He2.
  { unfold exec_module. simpl (t_module _). simpl (t_name _). rewrite H2.
    unfold s1, register_result. simpl (t_register _). cbn [regs set_regs].
    by rewrite lookup_insert_eq. }
  rewrite (run_task_once_end w h RollingUpdate.remove_old_backups s1 eq_refl eq_refl eq_refl).
  rewrite He2. reflexivity.
Qed.

(** ** More facts about the engine *)

Section Keeps.
Variable w : host_world.
Variable h : string.
Variable I : host_state -> Prop.
Hypothesis I_machine : forall s s', same_machine s s' -> I s -> I s'.

Lemma attempts_keeps t left : forall k s,
  (forall k s, I s -> I (m_state (exec_module w t k s))) ->
  I s -> I (m_state (attempts w t k left s).1).
Proof.
  induction left as [|left IH]; intros k s Ht Hs; simpl;
    repeat case_match; simpl;
    try (eapply I_machine; [apply register_same | by apply Ht]).
  all: match goal with H : attempts _ _ _ _ _ = _ |- _ =>
         pose proof (IH (S k) (register_result t (m_val (exec_module w t k s))
                                 (m_state (exec_module w t k s))) Ht) as IH';
         rewrite H in IH'; simpl in IH' end.
  all: apply IH'; eapply I_machine; [apply register_same | by apply Ht].
Qed.

Lemma run_module_keeps t s :
  (forall k s, I s -> I (m_state (exec_module w t k s))) ->
  I s -> I (m_state (run_module w t s).1).
Proof.
  intros Ht Hs. unfold run_module. destruct (budget t).
  - simpl. eapply I_machine; [apply register_same | by apply Ht].
  - by apply attempts_keeps.
Qed.

Lemma run_task_keeps_if only t r :
  (selected only t = true ->
   (exists s0, eval_cond w s0 (t_when t) = Some true) ->
   forall k s, I s -> I (m_state (exec_module w t k s))) ->
  I (r_state r) -> I (r_state (run_task w h only t r).1).
Proof.
  intros Ht Hs. unfold run_task, failed_or_ignored.
  destruct r as [s [|]]; simpl in *; [done|].
  destruct (selected only t); simpl; [|done].
  destruct (eval_cond w s (t_when t)) as [[|]|] eqn:Hc.
  - pose proof (run_module_keeps t s (Ht eq_refl (ex_intro _ s Hc)) Hs) as Hm.
    destruct (run_module w t s) as [m sl]. simpl in Hm.
    repeat case_match; simpl; try done.
    eapply I_machine; [|exact Hm]. by repeat split.
  - simpl. eapply I_machine; [apply register_same | done].
  - by case_match.
Qed.

Lemma run_list_keeps_if only ts : forall r,
  Forall (fun t => selected only t = true ->
                   (exists s0, eval_cond w s0 (t_when t) = Some true) ->
                   forall k s, I s -> I (m_state (exec_module w t k s))) ts ->
  I (r_state r) -> I (r_state (run_list w h only ts r).1).
Proof.
  induction ts as [|t ts IH]; intros r HF Hs; [done|].
  inversion HF as [|? ? Ht Hts]; subst.
  rewrite run_list_cons_end. apply IH; [done|]. by apply run_task_keeps_if.
Qed.

Lemma run_list_keeps only ts r :
  Forall (fun t => forall k s, I s -> I (m_state (exec_module w t k s))) ts ->
  I (r_state r) -> I (r_state (run_list w h only ts r).1).
Proof.
  intros HF. apply run_list_keeps_if.
  eapply Forall_impl; [exact HF|]. by intros t Ht _ _.
Qed.
End Keeps.

Section Alive.
Variable w : host_world.
Variable h : string.

Lemma run_task_alive only t r :
  r_failed (run_task w h only t r).1 = false -> r_failed r = false.
Proof. destruct r as [s [|]]; [by rewrite run_task_failed | done]. Qed.

Lemma run_list_alive only ts : forall r,
  r_failed (run_list w h only ts r).1 = false -> r_failed r = false.
Proof.
  induction ts as [|t ts IH]; intros r Hf; [done|].
  rewrite run_list_cons_end in Hf. eapply run_task_alive, IH, Hf.
Qed.

(** A task without [when], retries or [ignore_errors] lets the host go on
    only when its module call succeeded; the host is then as the module
    left it. *)
Lemma run_task_passed t s :
  t_when t = CTrue -> budget t = 0%nat -> t_ignore_errors t = false ->
  r_failed (run_task w h [] t (HRun s false)).1 = false ->
  m_ok (exec_module w t 0 s) = true
  ∧ same_machine (m_state (exec_module w t 0 s))
                 (r_state (run_task w h [] t (HRun s false)).1).
Proof.
  intros Hw Hb Hi. unfold run_task, run_module, failed_or_ignored.
  cbn [r_failed r_state selected negb]. rewrite Hw, Hb, Hi. cbn [eval_cond m_ok m_state m_changed].
  destruct (m_ok (exec_module w t 0 s)); cbn [fst r_failed r_state]; [|done].
  intros _. split; [done|].
  destruct (default _ _); cbn [r_state].
  - eapply same_machine_trans; [apply register_same|]. by repeat split.
  - apply register_same.
Qed.
End Alive.

Lemma passed_health_check h e :
  passed h RollingUpdate.health_check e -> is_event h "Health check after update" ok e.
Proof.
  intros (o & sl & -> & Ho & Hp). repeat split.
  destruct o; simpl in *; try done. by destruct Hp.
Qed.

Lemma dr_ran w h s :
  ran h (all_tasks DisasterRecovery.disaster_recovery)
        (host_trace w h [] DisasterRecovery.disaster_recovery s)
        (r_failed (host_end w h [] DisasterRecovery.disaster_recovery s)).
Proof.
  destruct (run_host_plain w h DisasterRecovery.disaster_recovery (enter s)
              (dr_no_notify) eq_refl) as [H1 H2].
  unfold host_trace, host_end. rewrite H1, H2. apply run_list_ran.
Qed.

Lemma events_imply_alive w h ts r e :
  e ∈ concat (run_list w h [] ts r).2 -> r_failed r = false.
Proof.
  destruct r as [s [|]]; [|done].
  rewrite run_list_failed. simpl. rewrite concat_silent. by intros ?%elem_of_nil.
Qed.

Lemma systemd_started_ok w t k s u :
  t_module t = systemd [u] started ->
  m_ok (exec_module w t k s) = true ->
  services (m_state (exec_module w t k s)) !! u = Some true.
Proof.
  intros Hm. unfold exec_module. rewrite Hm.
  destruct (w_fails w (t_name t)); simpl; [discriminate|].
  intros _. by rewrite lookup_insert_eq.
Qed.

Lemma sweep_retention_lookup (now : Z) (d : dir) (n : string) :
  sweep_retention now d !! n
  = match d !! n with
    | Some f => if decide (is_backup_name n ∧ seven_days <= now - f_mtime f)
                then None else Some f
    | None => None
    end.
Proof.
  unfold sweep_retention, is_backup_name. rewrite remove_files_lookup.
  destruct (decide (n ∈ _)) as [Hin | Hnin].
  - apply find_files_spec in Hin as (f & -> & Hg & Ha).
    by rewrite decide_True.
  - destruct (d !! n) as [f|] eqn:Hl; [|done].
    rewrite decide_False; [done|]. intros [Hg Ha]. apply Hnin.
    apply find_files_spec. by exists f.
Qed.

Lemma post_tasks_alive w h s :
  r_failed (run_list w h [] (p_post_tasks RollingUpdate.rolling_update) (HRun s false)).1
  = false ->
  w_fails w "Clean up old backups" = false ∧ w_fails w "Remove old backups" = false.
Proof.
  cbn [p_post_tasks RollingUpdate.rolling_update].
  rewrite !run_list_cons_end. cbn [run_list fst].
  intros Hal.
  pose proof (run_task_alive w h [] RollingUpdate.remove_old_backups _ Hal) as Hal1.
  pose proof (run_task_passed w h RollingUpdate.find_old_backups s
                eq_refl eq_refl eq_refl Hal1) as [Hok1 _].
  assert (w_fails w "Clean up old backups" = false) as H1.
  { revert Hok1. unfold exec_module. simpl (t_module _). simpl (t_name _).
    by destruct (w_fails w "Clean up old backups"). }
  split; [done|].
  revert Hal.
  rewrite (run_task_once_end w h RollingUpdate.find_old_backups s eq_refl eq_refl eq_refl).
  rewrite Hok1. cbn [orb negb].
  set (s1 := register_result _ _ _).
  intros Hal.
  pose proof (run_task_passed w h RollingUpdate.remove_old_backups s1
                eq_refl eq_refl eq_refl Hal) as [Hok2 _].
  revert Hok2. unfold exec_module. simpl (t_module _). simpl (t_name _).
  by destruct (w_fails w "Remove old backups").
Qed.

Lemma archive_ok w t k s prefix tr :
  t_module t = archive prefix -> app s = Some tr ->
  m_ok (exec_module w t k s) = true ->
  backups (m_state (exec_module w t k s)) !! backup_name w prefix
  = Some (File (w_clock w (t_name t)) (Tarball tr)).
Proof.
  intros Hm Ha. unfold exec_module. rewrite Hm, Ha.
  destruct (w_fails w (t_name t)); simpl; [discriminate|].
  intros _. by rewrite lookup_insert_eq.
Qed.

Lemma string_app_cons (c : Ascii.ascii) (a b : string) :
  String c a +:+ b = String c (a +:+ b).
Proof. reflexivity. Qed.

Lemma string_prefix_app (a b : string) : String.prefix a (a +:+ b) = true.
Proof.
  induction a as [|c a IH].
  - by destruct ("" +:+ b).
  - rewrite string_app_cons. cbn [String.prefix].
    destruct (Ascii.ascii_dec c c); [exact IH | done].
Qed.

Lemma string_length_app (a b : string) :
  String.length (a +:+ b) = (String.length a + String.length b)%nat.
Proof.
  induction a as [|c a IH]; [reflexivity|].
  rewrite string_app_cons. cbn [String.length]. by rewrite IH.
Qed.

Lemma string_substring_all (b : string) : String.substring 0 (String.length b) b = b.
Proof. induction b as [|c b IH]; simpl; [done | by rewrite IH]. Qed.

Lemma string_substring_app (a b : string) :
  String.substring (String.length a) (String.length b) (a +:+ b) = b.
Proof.
  induction a as [|c a IH]; [apply string_substring_all|].
  rewrite string_app_cons. exact IH.
Qed.

Lemma is_suffix_app (a suf : string) : is_suffix suf (a +:+ suf) = true.
Proof.
  unfold is_suffix. rewrite string_length_app.
  replace (String.length a + String.length suf - String.length suf)%nat
    with (String.length a) by lia.
  rewrite string_substring_app, String.eqb_refl, andb_true_r.
  apply Nat.leb_le. lia.
Qed.

Lemma string_app_assoc (a b c : string) : (a +:+ b) +:+ c = a +:+ (b +:+ c).
Proof.
  induction a as [|x a IH]; [reflexivity|].
  rewrite !string_app_cons. by rewrite IH.
Qed.

Lemma glob_app (pre mid suf : string) : glob pre suf (pre +:+ mid +:+ suf) = true.
Proof.
  unfold glob. rewrite string_prefix_app.
  replace (pre +:+ mid +:+ suf) with ((pre +:+ mid) +:+ suf) by apply string_app_assoc.
  rewrite is_suffix_app. rewrite !string_length_app. simpl. apply Nat.leb_le. lia.
Qed.

Section Tagged.
Variable w : host_world.
Variable h : string.

Lemma run_host_notify_free only p s :
  Forall (fun t => t_notify t = []) (all_tasks p) ->
  notified s = [] ->
  (run_host w h only p s).1 = (run_list w h only (all_tasks p) (HRun s false)).1
  ∧ concat (run_host w h only p s).2
    = concat (run_list w h only (all_tasks p) (HRun s false)).2.
Proof.
  intros HF Hs. unfold all_tasks in *. rewrite !Forall_app in HF. destruct HF as (H1 & H2 & H3).
  unfold run_host, run_section. rewrite run_list_app.
  pose proof (run_list_notified w h only (p_pre_tasks p) (HRun s false) H1) as N1.
  destruct (run_list w h only (p_pre_tasks p) (HRun s false)) as [r1 g1].
  simpl in N1. rewrite Hs in N1. rewrite (flush_nothing _ _ _ _ N1).
  rewrite run_list_app.
  pose proof (run_list_notified w h only (p_tasks p) r1 H2) as N2.
  destruct (run_list w h only (p_tasks p) r1) as [r2 g2].
  simpl in N2. rewrite N1 in N2. rewrite (flush_nothing _ _ _ _ N2).
  pose proof (run_list_notified w h only (p_post_tasks p) r2 H3) as N3.
  destruct (run_list w h only (p_post_tasks p) r2) as [r3 g3].
  simpl in N3. rewrite N2 in N3. rewrite (flush_nothing _ _ _ _ N3).
  simpl. split; [done|].
  rewrite !concat_app. simpl. by rewrite !app_nil_r.
Qed.

Lemma run_task_event_of only t r e :
  e ∈ (run_task w h only t r).2 ->
  ev_host e = h ∧ ev_task e = t_name t ∧ selected only t = true.
Proof.
  unfold run_task, failed_or_ignored.
  destruct (r_failed r); [by intros ?%elem_of_nil|].
  destruct (selected only t); cbn [negb]; [|by intros ?%elem_of_nil].
  repeat case_match; cbn [snd]; intros ->%list_elem_of_singleton; done.
Qed.

Lemma run_list_event_of only ts : forall r e,
  e ∈ concat (run_list w h only ts r).2 ->
  ev_host e = h ∧ ∃ t, t ∈ ts ∧ ev_task e = t_name t ∧ selected only t = true.
Proof.
  induction ts as [|t ts IH]; intros r e; [by intros ?%elem_of_nil|].
  rewrite run_list_cons.
  pose proof (run_task_event_of only t r e) as Ht.
  destruct (run_task w h only t r) as [r1 g].
  specialize (IH r1 e).
  destruct (run_list w h only ts r1) as [r2 gs].
  cbn [fst snd concat] in *. intros [Hin | Hin]%elem_of_app.
  - destruct (Ht Hin) as (? & ? & ?). split; [done|]. exists t. split; [left | done].
  - destruct (IH Hin) as (? & t' & ? & ? & ?). split; [done|].
    exists t'. split; [by right | done].
Qed.

Lemma forallb_false_ex {A} (f : A -> bool) (l : list A) :
  forallb f l = false -> ∃ y, y ∈ l ∧ f y = false.
Proof.
  induction l as [|a l IH]; simpl; [done|]. rewrite andb_false_iff.
  intros [H | H].
  - exists a. split; [left | done].
  - destruct (IH H) as (y & ? & ?). exists y. split; [by right | done].
Qed.

(** What [--tags] selects, laid open. *)
Lemma selected_spec only t :
  only ≠ [] ->
  selected only t = true ->
  "always" ∈ effective_tags t
  ∨ "all" ∈ only
  ∨ (∃ tag, tag ∈ only ∧ tag ∈ effective_tags t)
  ∨ ("tagged" ∈ only ∧ ∃ tag, tag ∈ effective_tags t ∧ tag ≠ "untagged").
Proof.
  intros Ho. unfold selected. destruct only as [|x only]; [done|].
  set (o := x :: only). clearbody o.
  rewrite !orb_true_iff, !andb_true_iff, !negb_true_iff.
  intros [[[Ha | [Hall _]] | Hex] | [[Htg Hun] _]].
  - left. by apply bool_decide_eq_true in Ha.
  - right. left. by apply bool_decide_eq_true in Hall.
  - right. right. left. apply existsb_exists in Hex as (y & Hin & Hy).
    apply bool_decide_eq_true in Hy. exists y. split; [by apply list_elem_of_In | done].
  - right. right. right. split; [by apply bool_decide_eq_true in Htg|].
    apply forallb_false_ex in Hun as (y & Hy & Hne).
    apply bool_decide_eq_false in Hne. by exists y.
Qed.

(** A task without tags runs under [--tags] only for all or untagged. *)
Lemma selected_untagged only t :
  only ≠ [] -> "all" ∉ only -> "untagged" ∉ only -> t_tags t = [] ->
  selected only t = false.
Proof.
  intros Ho Hall Hun Ht. apply not_true_is_false. intros Hsel.
  apply selected_spec in Hsel; [|done]. unfold effective_tags in Hsel. rewrite Ht in Hsel.
  destruct Hsel as [Ha | [? | [(tag & Hin & Htag) | (_ & tag & Htag & Hne)]]]; try done.
  - by apply list_elem_of_singleton in Ha.
  - apply list_elem_of_singleton in Htag. by subst tag.
  - by apply list_elem_of_singleton in Htag.
Qed.

(** A task with one tag of its own runs under [--tags] only for that tag,
    all or tagged. *)
Lemma selected_tagged only t tag :
  only ≠ [] -> "all" ∉ only -> "tagged" ∉ only -> t_tags t = [tag] -> tag ≠ "always" ->
  selected only t = true -> tag ∈ only.
Proof.
  intros Ho Hall Htg Ht Hne Hsel.
  apply selected_spec in Hsel; [|done]. unfold effective_tags in Hsel. rewrite Ht in Hsel.
  destruct Hsel as [Ha | [? | [(y & Hin & Hy) | (? & _)]]]; try done.
  - apply list_elem_of_singleton in Ha. by subst tag.
  - apply list_elem_of_singleton in Hy. by subst y.
Qed.
End Tagged.

Ltac rolling_tasks_cases :=
  repeat constructor; intros Hsel Hwhen k s' Hs';
  try (by rewrite selected_untagged in Hsel by done);
  unfold exec_module; simpl; repeat case_match; simpl; try done; try congruence.

Lemma run_list_event_from w h only ts : forall r e,
  e ∈ concat (run_list w h only ts r).2 ->
  ∃ t r', t ∈ ts ∧ e ∈ (run_task w h only t r').2.
Proof.
  induction ts as [|t ts IH]; intros r e; [by intros ?%elem_of_nil|].
  rewrite run_list_cons.
  destruct (run_task w h only t r) as [r1 g] eqn:Hrun.
  specialize (IH r1 e).
  destruct (run_list w h only ts r1) as [r2 gs].
  cbn [fst snd concat] in *. intros [Hin | Hin]%elem_of_app.
  - exists t, r. split; [left | by rewrite Hrun].
  - destruct (IH Hin) as (t' & r' & ? & ?). exists t', r'. split; [by right | done].
Qed.

Lemma run_task_skips w h only t r e :
  (forall s, eval_cond w s (t_when t) = Some false) ->
  e ∈ (run_task w h only t r).2 -> ev_out e = skipped.
Proof.
  intros Hw. unfold run_task.
  destruct (r_failed r); [by intros ?%elem_of_nil|].
  destruct (negb (selected only t)); [by intros ?%elem_of_nil|].
  rewrite Hw. cbn [snd]. by intros ->%list_elem_of_singleton.
Qed.

Lemma run_list_app_end w h only ts1 ts2 r :
  (run_list w h only (ts1 ++ ts2) r).1
  = (run_list w h only ts2 (run_list w h only ts1 r).1).1.
Proof.
  rewrite run_list_app. destruct (run_list w h only ts1 r) as [r1 g1].
  cbn [fst]. by destruct (run_list w h only ts2 r1).
Qed.

Ltac pass_step t r' P :=
  match goal with
  | |- context [run_task ?w ?h [] t (HRun ?s false)] =>
      pose proof (run_task_passed w h t s eq_refl eq_refl eq_refl) as P;
      remember (run_task w h [] t (HRun s false)).1 as r' eqn:E;
      clear E
  end.

Ltac exec_ok H :=
  revert H; unfold exec_module; simpl (t_module _); simpl (t_name _);
  cbv beta iota; repeat case_match; simpl; try discriminate; intros _.

Section DeployHandlers.
Variable w : host_world.
Variable h : string.

Lemma deploy_trace_handlers s :
  ∃ A H,
    host_trace w h [] Deploy.deploy s = A ++ H
    ∧ Forall (fun e => ev_task e ∈ names (all_tasks Deploy.deploy)) A
    ∧ (H ≠ [] -> Exists (passed h deploy_health_test) A)
    ∧ Forall (fun e => ev_task e ∈ handler_names Deploy.deploy) H.
Proof.
  unfold host_trace, run_host, run_section.
  cbn [p_pre_tasks p_tasks p_post_tasks p_handlers Deploy.deploy].
  pose proof (run_list_events_any w h Deploy.pre_tasks (HRun (enter s) false)) as Hpre.
  pose proof (run_list_notified w h [] Deploy.pre_tasks (HRun (enter s) false)
                deploy_pre_no_notify) as Hn.
  destruct (run_list w h [] Deploy.pre_tasks (HRun (enter s) false)) as [r1 g1].
  cbn [fst snd] in Hpre, Hn.
  change (notified (r_state (HRun (enter s) false))) with (@nil string) in Hn.
  rewrite (flush_nothing w h _ r1 Hn).
  assert (forall l, Forall (fun e => ev_host e = h ∧ ev_task e ∈ names Deploy.pre_tasks) l ->
                    Forall (fun e => ev_task e ∈ names (all_tasks Deploy.deploy)) l) as Wpre.
  { intros l Hl. eapply Forall_impl; [exact Hl|]. intros e [_ He].
    unfold all_tasks, names. rewrite map_app. apply elem_of_app. by left. }
  assert (forall l, Forall (fun e => ev_host e = h ∧ ev_task e ∈ names Deploy.tasks) l ->
                    Forall (fun e => ev_task e ∈ names (all_tasks Deploy.deploy)) l) as Wtasks.
  { intros l Hl. eapply Forall_impl; [exact Hl|]. intros e [_ He].
    unfold all_tasks, names. rewrite !map_app. apply elem_of_app. right.
    apply elem_of_app. by left. }
  destruct r1 as [s1 [|]].
  - rewrite run_list_failed, flush_failed. cbn [run_list]. rewrite flush_failed.
    exists (concat g1), [].
    split; [|split; [by apply Wpre|split; [done|constructor]]].
    cbn [fst snd]. rewrite !concat_app, concat_silent. simpl. by rewrite !app_nil_r.
  - pose proof (run_list_ran w h Deploy.tasks s1) as Htasks.
    pose proof (run_list_events_any w h Deploy.tasks (HRun s1 false)) as Hev.
    destruct (run_list w h [] Deploy.tasks (HRun s1 false)) as [r2 g2].
    pose proof (flush_events w h Deploy.deploy r2) as Hh1.
    cbn [p_handlers Deploy.deploy] in Hh1.
    destruct r2 as [s2 f2].
    destruct (flush_handlers w h Deploy.handlers (HRun s2 f2)) as [r2' gh] eqn:Hfl.
    cbn [run_list].
    pose proof (flush_events w h Deploy.deploy r2') as Hh2.
    cbn [p_handlers Deploy.deploy] in Hh2.
    destruct (flush_handlers w h Deploy.handlers r2') as [r3 gh2] eqn:Hfl2.
    cbn [fst snd] in *.
    exists (concat g1 ++ concat g2), (gh ++ gh2).
    split; [|split; [|split; [|by apply Forall_app]]].
    + rewrite !concat_app. simpl. by rewrite !app_nil_r, <- !app_assoc.
    + apply Forall_app. split; [by apply Wpre | by apply Wtasks].
    + intros Hne. apply Exists_app. right.
      destruct f2.
      * exfalso. apply Hne. rewrite flush_failed in Hfl. injection Hfl as <- <-.
        rewrite flush_failed in Hfl2. by injection Hfl2 as <- <-.
      * cbn [r_failed] in Htasks. apply (ran_alive h _ _ _ Htasks).
        apply list_elem_of_lookup. by exists 46%nat.
Qed.

End DeployHandlers.

Lemma systemd_stopped_ok w t k s u :
  t_module t = systemd [u] stopped ->
  m_ok (exec_module w t k s) = true ->
  services (m_state (exec_module w t k s)) !! u = Some false.
Proof.
  intros Hm. unfold exec_module. rewrite Hm.
  destruct (w_fails w (t_name t)); simpl; [discriminate|].
  intros _. by rewrite lookup_insert_eq.
Qed.

Lemma failed_event_fails w h ts r :
  Exists (fun e => ev_out e = failed) (concat (run_list w h [] ts r).2) ->
  r_failed (run_list w h [] ts r).1 = true.
Proof.
  destruct r as [s [|]].
  - by rewrite run_list_failed.
  - apply (ran_failed_iff h ts). apply run_list_ran.
Qed.

Section PlayHosts.
Variable world : string -> host_world.
Variable init : string -> host_state.
Variable only : list string.
Variable p : play.

Lemma run_host_events_host h s :
  Forall (fun e => ev_host e = h) (concat (run_host (world h) h only p s).2).
Proof.
  assert (forall o ts r, Forall (fun e => ev_host e = h)
                           (concat (run_list (world h) h o ts r).2)) as HL.
  { intros o ts r. apply Forall_forall. intros e Hin.
    by apply run_list_event_of in Hin as [? _]. }
  assert (forall r, Forall (fun e => ev_host e = h)
                      (flush_handlers (world h) h (p_handlers p) r).2) as HF.
  { intros r. unfold flush_handlers. destruct (r_failed r); [constructor|].
    match goal with |- context [run_list ?w h [] ?ts ?r0] =>
      pose proof (HL [] ts r0) as Hev; destruct (run_list w h [] ts r0) as [r1 gs] end.
    exact Hev. }
  unfold run_host, run_section.
  pose proof (HL only (p_pre_tasks p) (HRun s false)) as L1.
  destruct (run_list (world h) h only (p_pre_tasks p) (HRun s false)) as [r1 g1].
  pose proof (HF r1) as F1.
  destruct (flush_handlers (world h) h (p_handlers p) r1) as [r1' h1].
  pose proof (HL only (p_tasks p) r1') as L2.
  destruct (run_list (world h) h only (p_tasks p) r1') as [r2 g2].
  pose proof (HF r2) as F2.
  destruct (flush_handlers (world h) h (p_handlers p) r2) as [r2' h2].
  pose proof (HL only (p_post_tasks p) r2') as L3.
  destruct (run_list (world h) h only (p_post_tasks p) r2') as [r3 g3].
  pose proof (HF r3) as F3.
  destruct (flush_handlers (world h) h (p_handlers p) r3) as [r3' h3].
  cbn [fst snd] in *. rewrite !concat_app. cbn [concat]. rewrite !app_nil_r.
  rewrite !Forall_app. done.
Qed.

Lemma filter_zip_app_l (P : event -> Prop) `{forall e, Decision (P e)} xs ys :
  Forall (fun e => ¬ P e) (concat ys) ->
  filter P (concat (zip_app xs ys)) = filter P (concat xs).
Proof.
  revert ys. induction xs as [|x xs IH]; intros ys Hn.
  - cbn [zip_app concat filter]. induction (concat ys) as [|e l IHl]; [done|].
    inversion Hn; subst. rewrite filter_cons_False by done. by apply IHl.
  - destruct ys as [|y ys]; [done|].
    cbn [zip_app concat] in *. rewrite Forall_app in Hn. destruct Hn as [Hy Hys].
    rewrite !filter_app, (IH _ Hys). f_equal.
    clear -Hy. induction y as [|e l IHl]; [by rewrite app_nil_r|].
    inversion Hy; subst. rewrite filter_cons_False by done. by apply IHl.
Qed.

Lemma filter_zip_app_r (P : event -> Prop) `{forall e, Decision (P e)} xs ys :
  Forall (fun e => ¬ P e) (concat xs) ->
  filter P (concat (zip_app xs ys)) = filter P (concat ys).
Proof.
  revert ys. induction xs as [|x xs IH]; intros ys Hn; [done|].
  cbn [concat] in Hn. rewrite Forall_app in Hn. destruct Hn as [Hx Hxs].
  assert (filter P x = []) as Hfx.
  { clear -Hx. induction x as [|e l IHl]; [done|].
    inversion Hx; subst. rewrite filter_cons_False by done. by apply IHl. }
  destruct ys as [|y ys].
  - cbn [zip_app concat]. rewrite filter_app, Hfx. cbn [app filter].
    specialize (IH [] Hxs). rewrite zip_app_nil in IH. exact IH.
  - cbn [zip_app concat]. rewrite !filter_app, Hfx, (IH _ Hxs). done.
Qed.

Lemma filter_own (h : string) (l : list event) :
  Forall (fun e => ev_host e = h) l -> filter (fun e => ev_host e = h) l = l.
Proof.
  induction 1 as [|e l He Hl IH]; [done|].
  rewrite filter_cons_True by done. by rewrite IH.
Qed.

Lemma filter_lockstep h hosts :
  NoDup hosts -> h ∈ hosts ->
  filter (fun e => ev_host e = h)
         (lockstep (map (fun x => (run_host (world x) x only p (enter (init x))).2) hosts))
  = host_trace (world h) h only p (init h).
Proof.
  unfold lockstep.
  induction hosts as [|x hs IH]; intros Hnd Hin; [by apply elem_of_nil in Hin|].
  apply NoDup_cons in Hnd as [Hx Hnd]. cbn [map foldr].
  assert (forall l : list string, h ∉ l ->
            Forall (fun e => ¬ ev_host e = h)
              (concat (foldr zip_app []
                 (map (fun x => (run_host (world x) x only p (enter (init x))).2) l)))) as Hout.
  { clear. induction l as [|y l IHl]; intros Hn; [constructor|].
    apply not_elem_of_cons in Hn as [Hne Hn]. cbn [map foldr].
    apply Forall_forall. intros e He Heq.
    assert (e ∈ filter (fun e => ev_host e = h)
                  (concat (zip_app (run_host (world y) y only p (enter (init y))).2
                     (foldr zip_app []
                        (map (fun x => (run_host (world x) x only p (enter (init x))).2) l)))))
      as Hf by (by apply list_elem_of_filter).
    rewrite (filter_zip_app_l _ _ _ (IHl Hn)) in Hf.
    apply list_elem_of_filter in Hf as [_ Hf].
    pose proof (run_host_events_host y (enter (init y))) as Hy.
    rewrite Forall_forall in Hy. specialize (Hy _ Hf). congruence. }
  apply elem_of_cons in Hin as [-> | Hin].
  - rewrite (filter_zip_app_l _ _ _ (Hout _ Hx)).
    apply filter_own, run_host_events_host.
  - rewrite filter_zip_app_r; [by apply IH|].
    eapply Forall_impl; [apply run_host_events_host|].
    intros e He Heq. apply Hx. congruence.
Qed.

End PlayHosts.

(** A task without [when] or retries whose errors are ignored: the host
    goes on as the module left it, and the event says [ignored] exactly
    when the module call failed. *)
Lemma run_task_ignoring w h t s :
  t_when t = CTrue -> budget t = 0%nat -> t_ignore_errors t = true ->
  r_failed (run_task w h [] t (HRun s false)).1 = false
  ∧ same_machine (m_state (exec_module w t 0 s))
                 (r_state (run_task w h [] t (HRun s false)).1)
  ∧ ∃ o sl, (run_task w h [] t (HRun s false)).2 = [Event h (t_name t) o sl]
            ∧ (o ≠ ignored -> m_ok (exec_module w t 0 s) = true).
Proof.
  intros Hw Hb Hi. unfold run_task, run_module, failed_or_ignored.
  cbn [r_failed r_state selected negb]. rewrite Hw, Hb, Hi.
  cbn [eval_cond m_ok m_state m_changed].
  destruct (m_ok (exec_module w t 0 s)); cbn [fst snd r_failed r_state].
  - split; [done|]. split.
    + destruct (default _ _); cbn [r_state].
      * eapply same_machine_trans; [apply register_same|]. by repeat split.
      * apply register_same.
    + by eexists _, _.
  - split; [done|]. split; [apply register_same|]. by eexists ignored, _.
Qed.

Lemma set_units_lookup units b m u :
  u ∈ units -> set_units units b m !! u = Some b.
Proof.
  induction units as [|x units IH]; [by intros ?%elem_of_nil|].
  cbn [set_units foldr]. intros [-> | Hin]%elem_of_cons; [apply lookup_insert_eq|].
  destruct (decide (x = u)) as [-> | Hne]; [apply lookup_insert_eq|].
  rewrite lookup_insert_ne by done. by apply IH.
Qed.

Lemma set_units_keeps units b m u :
  m !! u = Some b -> set_units units b m !! u = Some b.
Proof.
  intros Hm. induction units as [|x units IH]; [done|].
  cbn [set_units foldr].
  destruct (decide (x = u)) as [-> | Hne]; [apply lookup_insert_eq|].
  by rewrite lookup_insert_ne.
Qed.

Section Passing.
Variable w : host_world.
Variable h : string.

(** A task whose [when] holds, without retries or [ignore_errors], lets
    the host go on only when its module call succeeded. *)
Lemma run_task_passed_when t s :
  eval_cond w s (t_when t) = Some true -> budget t = 0%nat -> t_ignore_errors t = false ->
  r_failed (run_task w h [] t (HRun s false)).1 = false ->
  m_ok (exec_module w t 0 s) = true
  ∧ same_machine (m_state (exec_module w t 0 s))
                 (r_state (run_task w h [] t (HRun s false)).1).
Proof.
  intros Hw Hb Hi. unfold run_task, run_module, failed_or_ignored.
  cbn [r_failed r_state selected negb]. rewrite Hw, Hb, Hi. cbn [m_ok m_state m_changed].
  destruct (m_ok (exec_module w t 0 s)); cbn [fst r_failed r_state]; [|done].
  intros _. split; [done|].
  destruct (default _ _); cbn [r_state].
  - eapply same_machine_trans; [apply register_same|]. by repeat split.
  - apply register_same.
Qed.

Lemma flush_alive hds r :
  r_failed (flush_handlers w h hds r).1 = false -> r_failed r = false.
Proof. destruct r as [s [|]]; [by rewrite flush_failed | done]. Qed.

Lemma Forall_due {A} (P : A -> Prop) (f : handler -> list A) (Q : handler -> Prop)
  `{forall hd, Decision (Q hd)} hds :
  Forall P (flat_map f hds) -> Forall P (flat_map f (filter Q hds)).
Proof.
  induction hds as [|hd hds IH]; [done|].
  cbn [flat_map]. rewrite Forall_app. intros [H1 H2].
  rewrite filter_cons. destruct (decide (Q hd)); [|by apply IH].
  cbn [flat_map]. rewrite Forall_app. split; [done | by apply IH].
Qed.

Lemma flush_keeps (I : host_state -> Prop) hds r :
  (forall s s', same_machine s s' -> I s -> I s') ->
  Forall (fun t => (exists s0, eval_cond w s0 (t_when t) = Some true) ->
                   forall k s, I s -> I (m_state (exec_module w t k s)))
         (flat_map handler_tasks hds) ->
  I (r_state r) -> I (r_state (flush_handlers w h hds r).1).
Proof.
  intros HI HF Hr. unfold flush_handlers. destruct (r_failed r); [done|].
  match goal with |- context [run_list w h [] ?ts ?r0] =>
    pose proof (run_list_keeps_if w h I HI [] ts r0) as Hk;
    destruct (run_list w h [] ts r0) as [r1 gs] end.
  cbn [fst snd] in *. apply Hk.
  - apply Forall_due. eapply Forall_impl; [exact HF|]. by intros t Ht _.
  - eapply HI; [|exact Hr]. by repeat split.
Qed.
End Passing.

(** ** Files that npm does not own *)

Lemma npm_result_lookup modules t k :
  npm_result modules t !! k = if npm_owned k then modules !! k else t !! k.
Proof.
  unfold npm_result. rewrite lookup_union, !map_lookup_filter.
  destruct (npm_owned k) eqn:E; destruct (t !! k), (modules !! k); simpl;
    repeat case_guard; simpl in *; try congruence; reflexivity.
Qed.

(** ** Disaster recovery when the snapshot fails *)







(** ** The backup before an update, on the host *)

(** A host that comes through the first two tasks of the rolling update
    has its application directory archived in the backup directory, and
    is otherwise as it was. *)
Lemma ru_backup_taken w h s :
  r_failed (run_list w h [] ru_until_backup (HRun s false)).1 = false ->
  ∃ tr, app s = Some tr
        ∧ same_machine
            (set_backups (<[backup_name w (app_name +:+ "-pre-update-")
                            := File (w_clock w "Create backup before update") (Tarball tr)]>
                            (backups s)) s)
            (r_state (run_list w h [] ru_until_backup (HRun s false)).1).
Proof.
  unfold ru_until_backup. rewrite !run_list_cons_end. cbn [run_list fst].
  intros Hal.
  pose proof (run_task_alive w h [] _ _ Hal) as Hal0.
  destruct (run_task_passed w h RollingUpdate.check_rolling s eq_refl eq_refl eq_refl Hal0)
    as [Hok0 Hm0].
  destruct (run_task w h [] RollingUpdate.check_rolling (HRun s false)).1 as [s1 f1].
  cbn [r_failed r_state] in *. subst f1.
  destruct (run_task_passed w h RollingUpdate.create_backup s1 eq_refl eq_refl eq_refl Hal)
    as [Hok1 Hm1].
  assert (same_machine s s1) as Hs1.
  { eapply same_machine_trans; [|exact Hm0].
    unfold exec_module. simpl (t_module _). simpl (t_name _).
    destruct (w_fails w _); apply same_machine_refl. }
  revert Hok1 Hm1. unfold exec_module. simpl (t_module _). simpl (t_name _).
  destruct (w_fails w "Create backup before update"); [discriminate|].
  destruct Hs1 as (E1 & E2 & E3 & E4 & E5 & E6).
  destruct (app s1) as [tr|] eqn:Happ; [|discriminate].
  intros _ Hm1. exists tr. split; [congruence|].
  eapply same_machine_trans; [|exact Hm1].
  unfold same_machine.
  cbn [m_state success set_backups services app backups tmp in_rotation elsewhere].
  rewrite E3. repeat split; congruence.
Qed.

(** What every task and every handler task of a play keeps, the host
    keeps through the play. *)
Lemma run_host_keeps w h (I : host_state -> Prop) only p s :
  (forall s s', same_machine s s' -> I s -> I s') ->
  Forall (fun t => selected only t = true ->
                   (exists s0, eval_cond w s0 (t_when t) = Some true) ->
                   forall k s, I s -> I (m_state (exec_module w t k s))) (all_tasks p) ->
  Forall (fun t => (exists s0, eval_cond w s0 (t_when t) = Some true) ->
                   forall k s, I s -> I (m_state (exec_module w t k s)))
         (flat_map handler_tasks (p_handlers p)) ->
  I s -> I (r_state (run_host w h only p s).1).
Proof.
  intros HI HF HH Hs. unfold all_tasks in HF. rewrite !Forall_app in HF.
  destruct HF as (F1 & F2 & F3).
  unfold run_host, run_section.
  pose proof (run_list_keeps_if w h I HI only (p_pre_tasks p) (HRun s false) F1 Hs) as K1.
  destruct (run_list w h only (p_pre_tasks p) (HRun s false)) as [r1 g1].
  pose proof (flush_keeps w h I (p_handlers p) r1 HI HH K1) as K1'.
  destruct (flush_handlers w h (p_handlers p) r1) as [r1' gh1].
  pose proof (run_list_keeps_if w h I HI only (p_tasks p) r1' F2 K1') as K2.
  destruct (run_list w h only (p_tasks p) r1') as [r2 g2].
  pose proof (flush_keeps w h I (p_handlers p) r2 HI HH K2) as K2'.
  destruct (flush_handlers w h (p_handlers p) r2) as [r2' gh2].
  pose proof (run_list_keeps_if w h I HI only (p_post_tasks p) r2' F3 K2') as K3.
  destruct (run_list w h only (p_post_tasks p) r2') as [r3 g3].
  pose proof (flush_keeps w h I (p_handlers p) r3 HI HH K3) as K3'.
  destruct (flush_handlers w h (p_handlers p) r3) as [r3' gh3].
  exact K3'.
Qed.

(** Every line a host prints comes from a task of the play or from a
    handler. *)
Lemma run_host_event_from w h only p s e :
  e ∈ concat (run_host w h only p s).2 ->
  (∃ t r, t ∈ all_tasks p ∧ e ∈ (run_task w h only t r).2)
  ∨ ev_task e ∈ handler_names p.
Proof.
  unfold run_host, run_section, all_tasks.
  pose proof (run_list_event_from w h only (p_pre_tasks p) (HRun s false) e) as E1.
  destruct (run_list w h only (p_pre_tasks p) (HRun s false)) as [r1 g1].
  pose proof (flush_events w h p r1) as H1.
  destruct (flush_handlers w h (p_handlers p) r1) as [r1' gh1].
  pose proof (run_list_event_from w h only (p_tasks p) r1' e) as E2.
  destruct (run_list w h only (p_tasks p) r1') as [r2 g2].
  pose proof (flush_events w h p r2) as H2.
  destruct (flush_handlers w h (p_handlers p) r2) as [r2' gh2].
  pose proof (run_list_event_from w h only (p_post_tasks p) r2' e) as E3.
  destruct (run_list w h only (p_post_tasks p) r2') as [r3 g3].
  pose proof (flush_events w h p r3) as H3.
  destruct (flush_handlers w h (p_handlers p) r3) as [r3' gh3].
  cbn [fst snd] in *. rewrite Forall_forall in H1, H2, H3.
  rewrite !concat_app. cbn [concat]. rewrite !app_nil_r, !elem_of_app.
  intros [[Hin | Hin] | [[Hin | Hin] | [Hin | Hin]]]; try (right; by auto).
  - destruct (E1 Hin) as (t & r & ? & ?). left. exists t, r. split; [|done].
    apply elem_of_app. by left.
  - destruct (E2 Hin) as (t & r & ? & ?). left. exists t, r. split; [|done].
    apply elem_of_app. right. apply elem_of_app. by left.
  - destruct (E3 Hin) as (t & r & ? & ?). left. exists t, r. split; [|done].
    apply elem_of_app. right. apply elem_of_app. by right.
Qed.

(** In the rolling update nothing after the backup task is printed for a
    host unless the archive of its application directory has been
    written. *)
Lemma ru_backup_before_rest w h s e :
  e ∈ host_trace w h [] RollingUpdate.rolling_update s ->
  ev_task e ∈ names ru_after_backup ->
  let r2 := (run_list w h [] ru_until_backup (HRun (enter s) false)).1 in
  r_failed r2 = false
  ∧ (∃ tr, app s = Some tr
           ∧ same_machine
               (set_backups (<[backup_name w (app_name +:+ "-pre-update-")
                               := File (w_clock w "Create backup before update")
                                       (Tarball tr)]> (backups s)) s)
               (r_state r2))
  ∧ host_end w h [] RollingUpdate.rolling_update s
    = (run_list w h [] ru_after_backup r2).1
  ∧ e ∈ concat (run_list w h [] ru_after_backup r2).2.
Proof.
  intros Hin Hname. cbv zeta.
  destruct (run_host_plain w h RollingUpdate.rolling_update (enter s)
              (rolling_no_notify) eq_refl) as [H1 H2].
  unfold host_end, host_trace in *. rewrite H1. rewrite H2 in Hin. clear H1 H2.
  change (all_tasks RollingUpdate.rolling_update) with (ru_until_backup ++ ru_after_backup)
    in *.
  rewrite run_list_app_end. rewrite run_list_app in Hin.
  pose proof (run_list_events_any w h ru_until_backup (HRun (enter s) false)) as Hev.
  pose proof (ru_backup_taken w h (enter s)) as Htaken.
  destruct (run_list w h [] ru_until_backup (HRun (enter s) false)) as [r2 g2].
  cbn [fst snd] in *.
  pose proof (events_imply_alive w h ru_after_backup r2 e) as Hal.
  destruct (run_list w h [] ru_after_backup r2) as [r3 g3].
  cbn [fst snd] in *. rewrite concat_app in Hin.
  assert (e ∈ concat g3) as Hin3.
  { apply elem_of_app in Hin as [Hin | Hin]; [|done].
    exfalso. rewrite Forall_forall in Hev. destruct (Hev _ Hin) as [_ Hn].
    revert Hname Hn. generalize (ev_task e). intros n Hn1 Hn2.
    assert (Forall (fun n => n ∉ names ru_until_backup) (names ru_after_backup)) as Hd
      by by_eval.
    rewrite Forall_forall in Hd. by apply (Hd n). }
  specialize (Hal Hin3). split; [exact Hal|].
  split; [|split; [reflexivity | exact Hin3]].
  destruct (Htaken Hal) as (tr & Happ & Hm). exists tr. split; [exact Happ|].
  eapply same_machine_trans; [|exact Hm]. by repeat split.
Qed.

(** With [backup_before_deploy] false the deployment skips its backup
    task and leaves the backup directory as it is. *)
Lemma deploy_backup_skipped w h s :
  w_flags w !! "backup_before_deploy" = Some false ->
  Forall (fun e => ev_task e = "Create backup of current application" ->
                   ev_out e = skipped)
         (host_trace w h [] Deploy.deploy s)
  ∧ backups (r_state (host_end w h [] Deploy.deploy s)) = backups s.
Proof.
  intros Hflag. split.
  - apply Forall_forall. intros e Hin Hname.
    apply run_host_event_from in Hin as [(t & r & Ht & Hin) | Hh].
    + assert (Forall (fun t => t_name t = "Create backup of current application" ->
                               t_when t = CFlag "backup_before_deploy" true)
                     (all_tasks Deploy.deploy)) as Hw.
      { repeat (apply Forall_cons_2 || apply Forall_nil_2); intros Hn;
          first [discriminate Hn | reflexivity]. }
      rewrite Forall_forall in Hw.
      apply (run_task_skips w h [] t r e); [|done].
      intros s0. rewrite (Hw t Ht); [simpl; by rewrite Hflag|].
      destruct (run_task_event_of w h [] t r e Hin) as (_ & <- & _). done.
    + exfalso. rewrite Hname in Hh. revert Hh. by_eval.
  - unfold host_end.
    apply (run_host_keeps w h (fun s' => backups s' = backups s)).
    + by intros ? ? (_ & _ & <- & _).
    + repeat (apply Forall_cons_2 || apply Forall_nil_2); intros _ [s0 Hc] k s' Hs';
        unfold exec_module; simpl (t_module _); simpl (t_name _); cbv beta iota zeta;
        repeat case_match; try done.
      simpl in Hc. rewrite Hflag in Hc. discriminate.
    + repeat (apply Forall_cons_2 || apply Forall_nil_2); intros _ k s' Hs';
        unfold exec_module; simpl (t_module _); simpl (t_name _); cbv beta iota zeta;
        repeat case_match; done.
    + done.
Qed.
(** C3, amended.  In the rolling update the backup is the first thing
    done to a host: no later task (stop, file replacement, dependency
    install among them) prints before the backup has succeeded, and when
    one does, the archive of the application directory as the host had it
    is in the backup directory, the host being otherwise as it was, and
    the rest of the play runs from there; when the backup cannot be
    created the host fails there, with its services, application
    directory and backups as they were.  In the deployment play the
    service is stopped before the backup is attempted; the backup is
    attempted before the files are replaced and the dependencies
    installed; its failure is ignored, and the play goes on to replace
    the files; with [backup_before_deploy] false the backup task is
    skipped and the backup directory stays as it is. *)
Theorem backup_before_update (w : host_world) (h : string) (s : host_state) :
  backup_first h "Create backup before update" (names ru_after_backup)
    (host_trace w h [] RollingUpdate.rolling_update s)
  ∧ (forall e, e ∈ host_trace w h [] RollingUpdate.rolling_update s ->
       ev_task e ∈ names ru_after_backup ->
       let r2 := (run_list w h [] ru_until_backup (HRun (enter s) false)).1 in
       r_failed r2 = false
       ∧ (∃ tr, app s = Some tr
                ∧ same_machine
                    (set_backups
                       (<[backup_name w (app_name +:+ "-pre-update-")
                          := File (w_clock w "Create backup before update") (Tarball tr)]>
                          (backups s)) s)
                    (r_state r2))
       ∧ host_end w h [] RollingUpdate.rolling_update s
         = (run_list w h [] ru_after_backup r2).1
       ∧ e ∈ concat (run_list w h [] ru_after_backup r2).2)
  ∧ (w_fails w "Create backup before update" = true ∨ app s = None ->
       r_failed (host_end w h [] RollingUpdate.rolling_update s) = true
       ∧ same_machine s (r_state (host_end w h [] RollingUpdate.rolling_update s))
       ∧ Forall (fun e => ev_task e ∈ names ru_until_backup)
                (host_trace w h [] RollingUpdate.rolling_update s))
  ∧ preceded_by (named h "Stop application if running")
                (named h "Create backup of current application")
                (host_trace w h [] Deploy.deploy s)
  ∧ preceded_by (named h "Create backup of current application")
                (fun e => ev_task e ∈ names deploy_replacement)
                (host_trace w h [] Deploy.deploy s)
  ∧ (forall e, e ∈ host_trace w h [] Deploy.deploy s ->
       ev_task e = "Create backup of current application" ->
       ev_out e ≠ failed
       ∧ Exists (named h "Copy application files") (host_trace w h [] Deploy.deploy s))
  ∧ (w_flags w !! "backup_before_deploy" = Some false ->
       Forall (fun e => ev_task e = "Create backup of current application" ->
                        ev_out e = skipped)
              (host_trace w h [] Deploy.deploy s)
       ∧ backups (r_state (host_end w h [] Deploy.deploy s)) = backups s).
Proof.
  assert (
    backup_first h "Create backup before update" (names ru_after_backup)
      (host_trace w h [] RollingUpdate.rolling_update s)
    ∧ (w_fails w "Create backup before update" = true ∨ app s = None ->
         r_failed (host_end w h [] RollingUpdate.rolling_update s) = true
         ∧ same_machine s (r_state (host_end w h [] RollingUpdate.rolling_update s))
         ∧ Forall (fun e => ev_task e ∈ names ru_until_backup)
                  (host_trace w h [] RollingUpdate.rolling_update s))
    ∧ preceded_by (named h "Stop application if running")
                  (named h "Create backup of current application")
                  (host_trace w h [] Deploy.deploy s)
    ∧ preceded_by (named h "Create backup of current application")
                  (fun e => ev_task e ∈ names deploy_replacement)
                  (host_trace w h [] Deploy.deploy s)
    ∧ (forall e, e ∈ host_trace w h [] Deploy.deploy s ->
         ev_task e = "Create backup of current application" ->
         ev_out e ≠ failed
         ∧ Exists (named h "Copy application files") (host_trace w h [] Deploy.deploy s))) as Hold.
  {
    split; [|split].
    - unfold backup_first.
      eapply preceded_by_weaken; [apply passed_backed_up | intros e He; exact He |].
      apply (ran_preceded h [RollingUpdate.check_rolling] RollingUpdate.create_backup
               ru_after_backup _ _ (rolling_ran w h s)).
      by_eval.
    - intros Hbad.
      destruct (run_host_plain w h RollingUpdate.rolling_update (enter s)
                  (rolling_no_notify) eq_refl) as [H1 H2].
      unfold host_end, host_trace. rewrite H1, H2.
      change (all_tasks RollingUpdate.rolling_update) with (ru_until_backup ++ ru_after_backup).
      rewrite run_list_app.
      pose proof (rolling_backup_fails w h (enter s) Hbad) as [Hf Hs].
      pose proof (run_list_events_any w h ru_until_backup (HRun (enter s) false)) as Hev.
      destruct (run_list w h [] ru_until_backup (HRun (enter s) false)) as [[s2 f2] g2].
      cbn [fst snd r_failed r_state] in Hf, Hs, Hev. subst f2.
      rewrite run_list_failed. cbn [fst snd r_failed r_state].
      split; [done|]. split.
      + eapply same_machine_trans; [|exact Hs]. by repeat split.
      + rewrite concat_app, concat_silent, app_nil_r.
        eapply Forall_impl; [exact Hev|]. by intros e [_ ?].
    - destruct (deploy_trace w h s) as (A & B & H & f1 & f2 & -> & HA & HB1 & HB2 & HH).
      assert (Forall (fun e => ev_task e ∈ names Deploy.pre_tasks) A) as HA'.
      { eapply Forall_impl; [exact (ran_events _ _ _ _ HA)|]. by intros e [_ ?]. }
      split; [|split].
      + apply preceded_by_app.
        { eapply (preceded_by_foreign _ _ A _ ["Create backup of current application"]);
            [exact HA' | | by_eval].
          intros e [_ ->]. apply list_elem_of_here. }
        right. apply preceded_by_app.
        { destruct f1; [rewrite HB1 by done; apply preceded_by_none; constructor|].
          eapply (preceded_by_weaken (passed h Deploy.stop_if_running) _
                    (fun e => ev_task e ∈ names (drop 18 Deploy.tasks)));
            [exact (passed_named h Deploy.stop_if_running) | |].
          2: { apply (ran_preceded h (take 17 Deploy.tasks) Deploy.stop_if_running
                        (drop 18 Deploy.tasks) B f2 (HB2 eq_refl)). by_eval. }
          intros e [_ ->]. by_eval. }
        right.
        eapply (preceded_by_foreign _ _ H _ ["Create backup of current application"]);
          [exact HH | | by_eval].
        intros e [_ ->]. apply list_elem_of_here.
      + apply preceded_by_app.
        { eapply (preceded_by_foreign _ _ A _ (names deploy_replacement));
            [exact HA' | | by_eval].
          by intros e ?. }
        right. apply preceded_by_app.
        { destruct f1; [rewrite HB1 by done; apply preceded_by_none; constructor|].
          eapply (preceded_by_weaken (passed h Deploy.create_backup) _
                    (fun e => ev_task e ∈ names (drop 19 Deploy.tasks)));
            [exact (passed_named h Deploy.create_backup) | |].
          2: { apply (ran_preceded h (take 18 Deploy.tasks) Deploy.create_backup
                        (drop 19 Deploy.tasks) B f2 (HB2 eq_refl)). by_eval. }
          intros e He.
          assert (Forall (fun n => n ∈ names (drop 19 Deploy.tasks))
                         (names deploy_replacement)) as Hsub by by_eval.
          rewrite Forall_forall in Hsub. by apply Hsub. }
        right.
        eapply (preceded_by_foreign _ _ H _ (names deploy_replacement));
          [exact HH | | by_eval].
        by intros e ?.
      + intros e Hin Hname.
        assert (e ∈ B) as HinB.
        { apply elem_of_app in Hin as [Hin | Hin].
          - exfalso. rewrite Forall_forall in HA'. specialize (HA' _ Hin).
            rewrite Hname in HA'. revert HA'. by_eval.
          - apply elem_of_app in Hin as [Hin | Hin]; [done|].
            exfalso. rewrite Forall_forall in HH. specialize (HH _ Hin).
            rewrite Hname in HH. revert HH. by_eval. }
        destruct f1; [rewrite HB1 in HinB by done; by apply elem_of_nil in HinB|].
        specialize (HB2 eq_refl).
        assert (ev_out e ≠ failed) as Hout.
        { pose proof (ran_possible h _ _ _ HB2) as Hp.
          rewrite Forall_forall in Hp. destruct (Hp _ HinB) as (t & Ht & Hn & Hpo).
          intros Hfail. rewrite Hfail in Hpo. simpl in Hpo.
          assert (Forall (fun t => t_name t = "Create backup of current application" ->
                                   t_ignore_errors t = true) Deploy.tasks) as Hig by by_eval.
          rewrite Forall_forall in Hig. rewrite (Hig t Ht) in Hpo; [done | congruence]. }
        split; [exact Hout|].
        apply Exists_app. right. apply Exists_app. left.
        apply (ran_next h (take 18 Deploy.tasks) Deploy.create_backup Deploy.copy_files
                 (drop 20 Deploy.tasks) B f2 HB2); [by_eval|].
        apply Exists_exists. exists e. by repeat split.
  }
  destruct Hold as (H1 & H3 & H4 & H5 & H6).
  split; [exact H1|]. split; [intros e; apply ru_backup_before_rest|].
  split; [exact H3|]. split; [exact H4|]. split; [exact H5|]. split; [exact H6|].
  apply deploy_backup_skipped.
Qed.

(** On a host where archiving fails, the rolling update stops at the
    backup and leaves the host as it was; on a healthy host the service
    is stopped with the archive of the old tree in the backup
    directory. *)
Lemma backup_before_update_witness :
  (r_failed (host_end Scenario.no_backup "web1" [] RollingUpdate.rolling_update
                      Scenario.machine) = true
   ∧ same_machine Scenario.machine
       (r_state (host_end Scenario.no_backup "web1" [] RollingUpdate.rolling_update
                          Scenario.machine)))
  ∧ backups (r_state (run_list Scenario.healthy "web1" [] ru_until_backup
                               (HRun (enter Scenario.machine) false)).1)
      !! backup_name Scenario.healthy (app_name +:+ "-pre-update-")
    = Some (File 1700000100 (Tarball Scenario.old_tree)).
Proof.
  split.
  - pose proof (proj1 (proj2 (proj2 (backup_before_update Scenario.no_backup "web1"
                                       Scenario.machine)))) as H.
    destruct H as (H1 & H2 & _).
    + left. vm_compute. reflexivity.
    + split; [exact H1 | exact H2].
  - pose proof (proj1 (proj2 (backup_before_update Scenario.healthy "web1"
                                Scenario.machine))
                  (Event "web1" "Stop application service" changed [])) as H.
    destruct H as (_ & (tr & Happ & Hm) & _).
    + by_eval.
    + by_eval.
    + destruct Hm as (_ & _ & <- & _). injection Happ as <-.
      cbn [backups set_backups]. by rewrite lookup_insert_eq.
Defined.

(** ** The rolling update, host by host *)

(** X1.  A host is put back behind the load balancer, and reported as
    updated, only after its health check has passed. *)
Theorem lb_add_after_healthy (w : host_world) (h : string) (s : host_state) :
  preceded_by (is_event h "Health check after update" ok)
              (fun e => ev_task e = "Add server back to load balancer"
                        ∨ ev_task e = "Verify update success")
              (host_trace w h [] RollingUpdate.rolling_update s).
Proof.
  eapply (preceded_by_weaken (passed h RollingUpdate.health_check) _
            (fun e => ev_task e ∈ names (drop 11 (all_tasks RollingUpdate.rolling_update))));
    [exact (passed_health_check h) | |].
  - intros e [-> | ->]; by_eval.
  - apply (ran_preceded h (take 10 (all_tasks RollingUpdate.rolling_update))
             RollingUpdate.health_check
             (drop 11 (all_tasks RollingUpdate.rolling_update)) _ _ (rolling_ran w h s)).
    by_eval.
Qed.

(** X2.  The two load-balancer calls of the rolling update never fail a
    host; when no load_balancer_host is defined they are skipped and the
    play leaves the rotation of the host as it found it. *)
Theorem lb_is_best_effort (w : host_world) (h : string) (s : host_state) :
  Forall (fun e => ev_task e ∈ ["Remove server from load balancer";
                                "Add server back to load balancer"] ->
                   ev_out e ≠ failed)
         (host_trace w h [] RollingUpdate.rolling_update s)
  ∧ (w_strs w !! "load_balancer_host" = None ->
     in_rotation (r_state (host_end w h [] RollingUpdate.rolling_update s)) = in_rotation s
     ∧ Forall (fun e => ev_task e ∈ ["Remove server from load balancer";
                                     "Add server back to load balancer"] ->
                        ev_out e = skipped)
              (host_trace w h [] RollingUpdate.rolling_update s)).
Proof.
  split.
  - eapply Forall_impl; [exact (ran_possible h _ _ _ (rolling_ran w h s))|].
    intros e (t & Ht & Hn & Hp) He Hf. rewrite Hf in Hp. rewrite Hn in He.
    revert He Hp. clear Hn Hf.
    repeat (apply elem_of_cons in Ht as [-> | Ht]); try (by apply elem_of_nil in Ht).
    all: first [ by_eval | done | intros He; exfalso; revert He; by_eval ].
  - intros Hlb.
    destruct (run_host_plain w h RollingUpdate.rolling_update (enter s)
                (rolling_no_notify) eq_refl) as [H1 H2].
    unfold host_end, host_trace. rewrite H1, H2. clear H1 H2. split.
    + apply (run_list_keeps_if w h (fun s' => in_rotation s' = in_rotation s));
        [by intros ? ? (_ & _ & _ & _ & <- & _) | | done].
      repeat constructor; intros Hsel [s0 Hwhen] k s' Hs';
        try (simpl in Hwhen; rewrite Hlb in Hwhen; cbv in Hwhen; discriminate);
        unfold exec_module; simpl; repeat case_match; simpl; try done.
    + apply Forall_forall. intros e Hin He.
      apply (run_list_event_from w h) in Hin as (t & r' & Ht & Hin).
      pose proof (run_task_event_of w h [] t r' e Hin) as (_ & Hn & _).
      rewrite Hn in He. revert Hin He. clear Hn.
      repeat (apply elem_of_cons in Ht as [-> | Ht]); try (by apply elem_of_nil in Ht).
      all: intros Hin He.
      all: try (exfalso; revert He; clear; by_eval).
      all: eapply run_task_skips; [|exact Hin]; intros s0.
      all: change (Some (bool_decide (is_Some (w_strs w !! "load_balancer_host")))
                   = Some false).
      all: by rewrite Hlb.
Qed.

(** X3.  A host that has committed has its service running at the end of the play,
    whatever happens in the sweep. *)
Theorem committed_host_is_running (w : host_world) (h : string) (s : host_state) :
  committed h (host_trace w h [] RollingUpdate.rolling_update s) ->
  services (r_state (host_end w h [] RollingUpdate.rolling_update s))
    !! systemd_service_name = Some true.
Proof.
  intros Hc.
  destruct (run_host_plain w h RollingUpdate.rolling_update (enter s)
              (rolling_no_notify) eq_refl) as [H1 H2].
  unfold host_end, host_trace in *. rewrite H1. rewrite H2 in Hc. clear H1 H2.
  revert Hc.
  pose (A := take 8 (all_tasks RollingUpdate.rolling_update)).
  pose (B := drop 9 (all_tasks RollingUpdate.rolling_update)).
  assert (all_tasks RollingUpdate.rolling_update
          = A ++ RollingUpdate.start_service :: B) as -> by reflexivity.
  rewrite run_list_app.
  pose proof (run_list_events_any w h A (HRun (enter s) false)) as HA.
  destruct (run_list w h [] A (HRun (enter s) false)) as [rA gA].
  rewrite run_list_cons.
  pose proof (run_task_passed w h RollingUpdate.start_service (r_state rA)
                eq_refl eq_refl eq_refl) as Hst.
  pose proof (run_task_alive w h [] RollingUpdate.start_service rA) as Hal.
  destruct (run_task_spec w h RollingUpdate.start_service (r_state rA))
    as (o & sl & s1 & Hspec & _).
  destruct (run_task w h [] RollingUpdate.start_service rA) as [r1 g1] eqn:Hrun.
  pose proof (fun e => events_imply_alive w h B r1 e) as HB.
  pose proof (run_list_keeps w h
                (fun s' => services s' !! systemd_service_name = Some true)
                ltac:(by intros ? ? (-> & _)) [] B r1) as Hk.
  destruct (run_list w h [] B r1) as [rB gB].
  cbn [fst snd] in *. intros Hc.
  (* the commit event is printed by B *)
  apply Exists_exists in Hc as (e & Hin & (_ & Hn & _)).
  rewrite concat_app in Hin. cbn [concat] in Hin.
  assert (e ∈ concat gB) as HinB.
  { apply elem_of_app in Hin as [Hin | Hin].
    - exfalso. rewrite Forall_forall in HA. destruct (HA _ Hin) as [_ Hx].
      rewrite Hn in Hx. revert Hx. by_eval.
    - apply elem_of_app in Hin as [Hin | Hin]; [|done]. exfalso.
      assert (ev_task e = "Start application service") as Hx.
      { destruct rA as [sA [|]].
        - rewrite run_task_failed in Hrun. injection Hrun as _ <-. by apply elem_of_nil in Hin.
        - cbn [r_state] in Hspec. rewrite Hspec in Hrun. injection Hrun as _ <-.
          apply list_elem_of_singleton in Hin. by subst e. }
      rewrite Hn in Hx. discriminate. }
  specialize (HB e HinB). specialize (Hal HB).
  destruct rA as [sA fA]. cbn [r_failed r_state] in *. subst fA.
  rewrite Hrun in Hst. cbn [fst] in Hst. destruct (Hst HB) as [Hok Hm].
  apply Hk.
  - unfold B. repeat constructor; intros k s' Hs';
      unfold exec_module; simpl; repeat case_match; simpl; done.
  - destruct Hm as (<- & _). by apply systemd_started_ok.
Qed.

Lemma committed_host_is_running_witness :
  services (r_state (host_end Scenario.healthy "web1" [] RollingUpdate.rolling_update
                              Scenario.machine))
    !! systemd_service_name = Some true.
Proof.
  apply committed_host_is_running. unfold committed, is_event. by_eval.
Defined.

(** X4.  A host on which one of the three update tasks fails is left with
    its service stopped: the play has no step that starts it again. *)
Theorem failed_update_leaves_service_stopped (w : host_world) (h : string)
  (s : host_state) (name : string) :
  name ∈ ["Update application files"; "Update source directory";
          "Update npm dependencies"] ->
  Exists (is_event h name failed) (host_trace w h [] RollingUpdate.rolling_update s) ->
  r_failed (host_end w h [] RollingUpdate.rolling_update s) = true
  ∧ services (r_state (host_end w h [] RollingUpdate.rolling_update s))
      !! systemd_service_name = Some false.
Proof.
  intros Hname Hf.
  destruct (run_host_plain w h RollingUpdate.rolling_update (enter s)
              (rolling_no_notify) eq_refl) as [H1 H2].
  unfold host_end, host_trace in *. rewrite H1. rewrite H2 in Hf. clear H1 H2.
  revert Hf.
  pose (A := take 4 (all_tasks RollingUpdate.rolling_update)).
  pose (U := [RollingUpdate.update_files; RollingUpdate.update_src;
              RollingUpdate.update_npm]).
  pose (B := drop 8 (all_tasks RollingUpdate.rolling_update)).
  assert (all_tasks RollingUpdate.rolling_update
          = A ++ RollingUpdate.stop_service :: (U ++ B)) as -> by reflexivity.
  rewrite run_list_app.
  pose proof (run_list_events_any w h A (HRun (enter s) false)) as HA.
  destruct (run_list w h [] A (HRun (enter s) false)) as [rA gA].
  rewrite run_list_cons.
  pose proof (run_task_passed w h RollingUpdate.stop_service (r_state rA)
                eq_refl eq_refl eq_refl) as Hst.
  pose proof (run_task_alive w h [] RollingUpdate.stop_service rA) as Hal.
  destruct (run_task_spec w h RollingUpdate.stop_service (r_state rA))
    as (o & sl & s1 & Hspec & _).
  destruct (run_task w h [] RollingUpdate.stop_service rA) as [r1 g1] eqn:Hrun.
  rewrite run_list_app.
  pose proof (fun e => events_imply_alive w h U r1 e) as HU.
  pose proof (failed_event_fails w h U r1) as HUf.
  pose proof (run_list_keeps w h
                (fun s' => services s' !! systemd_service_name = Some false)
                ltac:(by intros ? ? (-> & _)) [] U r1) as Hk.
  destruct (run_list w h [] U r1) as [rU gU].
  pose proof (run_list_events_any w h B rU) as HB.
  pose proof (run_list_failed w h [] B (r_state rU)) as HBf.
  destruct (run_list w h [] B rU) as [rB gB] eqn:HrB.
  cbn [fst snd] in *. intros Hf.
  apply Exists_exists in Hf as (e & Hin & (_ & Hn & Ho)).
  rewrite !concat_app in Hin. cbn [concat] in Hin. rewrite concat_app in Hin.
  assert (Forall (fun n => (n ∉ names A) ∧ (n ≠ "Stop application service") ∧ (n ∉ names B))
                 ["Update application files"; "Update source directory";
                  "Update npm dependencies"]) as Hd by by_eval.
  rewrite Forall_forall in Hd. destruct (Hd _ Hname) as (HnA & Hns & HnB).
  assert (e ∈ concat gU) as HinU.
  { apply elem_of_app in Hin as [Hin | Hin].
    - exfalso. rewrite Forall_forall in HA. destruct (HA _ Hin) as [_ Hx].
      rewrite Hn in Hx. done.
    - apply elem_of_app in Hin as [Hin | Hin].
      + exfalso. apply Hns. rewrite <- Hn.
        destruct rA as [sA [|]].
        * rewrite run_task_failed in Hrun. injection Hrun as _ <-. by apply elem_of_nil in Hin.
        * cbn [r_state] in Hspec. rewrite Hspec in Hrun. injection Hrun as _ <-.
          apply list_elem_of_singleton in Hin. by subst e.
      + apply elem_of_app in Hin as [Hin | Hin]; [done|].
        exfalso. rewrite Forall_forall in HB. destruct (HB _ Hin) as [_ Hx].
        rewrite Hn in Hx. done. }
  specialize (HU e HinU). specialize (Hal HU).
  destruct rA as [sA fA]. cbn [r_failed r_state] in *. subst fA.
  rewrite Hrun in Hst. cbn [fst] in Hst. destruct (Hst HU) as [Hok Hm].
  assert (r_failed rU = true) as HfU.
  { apply HUf. apply Exists_exists. by exists e. }
  destruct rU as [sU fU]. cbn [r_failed r_state] in *. subst fU.
  rewrite HBf in HrB. injection HrB as <- _. cbn [r_failed r_state].
  split; [done|].
  apply Hk.
  - unfold U. repeat (apply Forall_cons_2 || apply Forall_nil_2); intros k s' Hs';
      unfold exec_module; simpl; repeat case_match; simpl; done.
  - destruct Hm as (<- & _). by apply systemd_stopped_ok.
Qed.

Lemma failed_update_leaves_service_stopped_witness :
  services (r_state (host_end Incident.broken_npm "web1" [] RollingUpdate.rolling_update
                              Scenario.machine))
    !! systemd_service_name = Some false.
Proof.
  apply (failed_update_leaves_service_stopped Incident.broken_npm "web1" Scenario.machine
           "Update npm dependencies").
  - by_eval.
  - unfold is_event. by_eval.
Defined.

(** X5.  The rolling update never removes a file of the application
    directory that is not npm's own (node_modules, the lock file):
    whatever the outcome and whatever the tags, every such file the host
    had is still there at the end of the play. *)
Theorem update_never_deletes_app_files (w : host_world) (h : string) (s : host_state)
  (only : list string) (tr : tree) (k : string) :
  app s = Some tr -> is_Some (tr !! k) -> npm_owned k = false ->
  ∃ a, app (r_state (host_end w h only RollingUpdate.rolling_update s)) = Some a
       ∧ is_Some (a !! k).
Proof.
  intros Happ Hk Hown.
  destruct (run_host_notify_free w h only RollingUpdate.rolling_update (enter s)
              (rolling_no_notify) eq_refl) as [H1 _].
  unfold host_end. rewrite H1. clear H1.
  apply (run_list_keeps w h (fun s' => ∃ a, app s' = Some a ∧ is_Some (a !! k))).
  - by intros ? ? (_ & <- & _).
  - repeat (apply Forall_cons_2 || apply Forall_nil_2); intros j s' (a & Ha & Hin);
      unfold exec_module; simpl (t_module _); simpl (t_name _); cbv beta iota zeta;
      rewrite ?Ha; repeat case_match; try (by exists a).
    + unfold write_files, success, set_elsewhere, set_app. cbn [m_state app]. rewrite Ha.
      eexists. split; [reflexivity|]. rewrite lookup_union_is_Some. by right.
    + unfold success, set_app. cbn [m_state app default].
      eexists. split; [reflexivity|]. rewrite lookup_union_is_Some. by right.
    + unfold success, set_app. cbn [m_state app].
      eexists. split; [reflexivity|]. by rewrite npm_result_lookup, Hown.
  - by exists tr.
Qed.

Lemma update_never_deletes_app_files_witness :
  ∃ a, app (r_state (host_end Scenario.healthy "web1" [] RollingUpdate.rolling_update
                              Scenario.machine)) = Some a
       ∧ is_Some (a !! "app.js").
Proof.
  apply (update_never_deletes_app_files Scenario.healthy "web1" Scenario.machine []
           Scenario.old_tree "app.js").
  - reflexivity.
  - by_eval.
  - reflexivity.
Defined.

Lemma run_list_selected_ext w h o1 o2 ts :
  Forall (fun t => selected o1 t = selected o2 t) ts ->
  forall r, run_list w h o1 ts r = run_list w h o2 ts r.
Proof.
  induction 1 as [|t ts Ht _ IH]; intros r; [done|].
  cbn [run_list].
  assert (run_task w h o1 t r = run_task w h o2 t r) as ->
    by (unfold run_task; by rewrite Ht).
  destruct (run_task w h o2 t r) as [r1 g]. by rewrite IH.
Qed.

Lemma run_host_selected_ext w h o1 o2 p s :
  Forall (fun t => selected o1 t = selected o2 t) (all_tasks p) ->
  run_host w h o1 p s = run_host w h o2 p s.
Proof.
  unfold all_tasks. rewrite !Forall_app. intros (F1 & F2 & F3).
  unfold run_host, run_section.
  rewrite (run_list_selected_ext w h o1 o2 _ F1).
  destruct (run_list w h o2 (p_pre_tasks p) (HRun s false)) as [r1 g1].
  destruct (flush_handlers w h (p_handlers p) r1) as [r1' gh1].
  rewrite (run_list_selected_ext w h o1 o2 _ F2).
  destruct (run_list w h o2 (p_tasks p) r1') as [r2 g2].
  destruct (flush_handlers w h (p_handlers p) r2) as [r2' gh2].
  by rewrite (run_list_selected_ext w h o1 o2 _ F3).
Qed.

(** X6.  The rolling update under --tags.  With [--tags all] it runs as
    without tags.  With tags that do not include all or untagged it
    never stops or starts the service and never calls the load balancer
    (these tasks have no tag); it writes a backup only when backup or
    tagged is among the tags, and changes files only when update or
    tagged is; every task it runs has tags, and one of them was asked
    for unless tagged was. *)
Theorem tagged_run_is_partial (w : host_world) (h : string) (s : host_state) :
  (host_end w h ["all"] RollingUpdate.rolling_update s
   = host_end w h [] RollingUpdate.rolling_update s
   ∧ host_trace w h ["all"] RollingUpdate.rolling_update s
     = host_trace w h [] RollingUpdate.rolling_update s)
  ∧ forall only, only ≠ [] -> "all" ∉ only -> "untagged" ∉ only ->
    services (r_state (host_end w h only RollingUpdate.rolling_update s)) = services s
    ∧ in_rotation (r_state (host_end w h only RollingUpdate.rolling_update s))
      = in_rotation s
    ∧ ("backup" ∉ only -> "tagged" ∉ only ->
       backups (r_state (host_end w h only RollingUpdate.rolling_update s)) ⊆ backups s)
    ∧ ("update" ∉ only -> "tagged" ∉ only ->
       app (r_state (host_end w h only RollingUpdate.rolling_update s)) = app s
       ∧ elsewhere (r_state (host_end w h only RollingUpdate.rolling_update s))
         = elsewhere s)
    ∧ Forall (fun e => ∃ t, t ∈ all_tasks RollingUpdate.rolling_update
                            ∧ ev_task e = t_name t
                            ∧ t_tags t ≠ []
                            ∧ ("tagged" ∈ only ∨ ∃ tag, tag ∈ t_tags t ∧ tag ∈ only))
             (host_trace w h only RollingUpdate.rolling_update s).
Proof.
  split.
  { unfold host_end, host_trace.
    rewrite (run_host_selected_ext w h ["all"] [] RollingUpdate.rolling_update (enter s));
      [done|].
    repeat (apply Forall_cons_2 || apply Forall_nil_2); reflexivity. }
  intros only Ho Hall Hun.
  destruct (run_host_notify_free w h only RollingUpdate.rolling_update (enter s)
              (rolling_no_notify) eq_refl) as [H1 H2].
  unfold host_end, host_trace. rewrite H1, H2. clear H1 H2.
  split; [|split; [|split; [|split]]].
  - apply (run_list_keeps_if w h (fun s' => services s' = services s));
      [by intros ? ? (<- & _) | | done].
    rolling_tasks_cases.
  - apply (run_list_keeps_if w h (fun s' => in_rotation s' = in_rotation s));
      [by intros ? ? (_ & _ & _ & _ & <- & _) | | done].
    rolling_tasks_cases.
  - intros Hb Htg.
    apply (run_list_keeps_if w h (fun s' => backups s' ⊆ backups s));
      [by intros ? ? (_ & _ & <- & _) | | done].
    rolling_tasks_cases.
    + exfalso. apply Hb.
      by apply (selected_tagged only RollingUpdate.create_backup "backup").
    + etrans; [|exact Hs']. apply map_subseteq_spec. intros n f.
      rewrite remove_files_lookup. by case_decide.
  - intros Hu Htg.
    apply (run_list_keeps_if w h (fun s' => app s' = app s ∧ elsewhere s' = elsewhere s));
      [by intros ? ? (_ & <- & _ & _ & _ & <-) | | done].
    repeat (apply Forall_cons_2 || apply Forall_nil_2); intros Hsel Hwhen k s' Hs';
      try (by rewrite selected_untagged in Hsel by done);
      try (exfalso; apply Hu;
           first [ by apply (selected_tagged only RollingUpdate.update_files "update")
                 | by apply (selected_tagged only RollingUpdate.update_src "update")
                 | by apply (selected_tagged only RollingUpdate.update_npm "update") ]);
      unfold exec_module; simpl (t_module _); simpl (t_name _); cbv beta iota zeta;
      repeat case_match; try done;
      destruct Hs' as [Hs1 Hs2]; split; cbn; congruence.
  - apply Forall_forall. intros e Hin.
    apply run_list_event_of in Hin as (_ & t & Ht & Hn & Hsel).
    exists t. split; [done|]. split; [done|].
    apply selected_spec in Hsel; [|done].
    assert (Forall (fun t => "always" ∉ t_tags t) (all_tasks RollingUpdate.rolling_update))
      as Hnever by by_eval.
    rewrite Forall_forall in Hnever. specialize (Hnever t Ht).
    unfold effective_tags in Hsel.
    destruct (t_tags t) as [|t0 tl] eqn:Htags.
    + exfalso. destruct Hsel as [Ha | [? | [(tag & Hi & Htag) | (_ & tag & Htag & Hne)]]];
        try done.
      * by apply list_elem_of_singleton in Ha.
      * apply list_elem_of_singleton in Htag. by subst tag.
      * by apply list_elem_of_singleton in Htag.
    + split; [done|].
      destruct Hsel as [Ha | [? | [(tag & Hi & Htag) | (? & _)]]]; try done.
      * right. by exists tag.
      * by left.
Qed.

(** [--tags update] on a healthy host: the files are replaced while the
    service keeps running, and no backup is written. *)
Lemma tagged_run_is_partial_witness :
  services (r_state (host_end Scenario.healthy "web1" ["update"]
                              RollingUpdate.rolling_update Scenario.machine))
  = services Scenario.machine
  ∧ backups (r_state (host_end Scenario.healthy "web1" ["update"]
                               RollingUpdate.rolling_update Scenario.machine))
    ⊆ backups Scenario.machine.
Proof.
  destruct (proj2 (tagged_run_is_partial Scenario.healthy "web1" Scenario.machine)
              ["update"])
    as (H1 & _ & H3 & _).
  - done.
  - by_eval.
  - by_eval.
  - split; [exact H1|]. apply H3; by_eval.
Defined.

(** ** Backups *)

(** X7.  A rolling update that completes on a host leaves the backup it took
    in place, provided the sweep runs less than 7 days after it. *)
Theorem completed_update_keeps_its_backup (w : host_world) (h : string)
  (s : host_state) (tr : tree) :
  app s = Some tr ->
  r_failed (host_end w h [] RollingUpdate.rolling_update s) = false ->
  w_clock w "Clean up old backups" - w_clock w "Create backup before update" < seven_days ->
  backups (r_state (host_end w h [] RollingUpdate.rolling_update s))
    !! backup_name w (app_name +:+ "-pre-update-")
  = Some (File (w_clock w "Create backup before update") (Tarball tr)).
Proof.
  intros Happ Hal Hage.
  destruct (run_host_plain w h RollingUpdate.rolling_update (enter s)
              (rolling_no_notify) eq_refl) as [H1 _].
  unfold host_end in *. rewrite H1 in *. clear H1. revert Hal.
  pose (M := take 11 (drop 2 (all_tasks RollingUpdate.rolling_update))).
  assert (all_tasks RollingUpdate.rolling_update
          = [RollingUpdate.check_rolling]
            ++ ([RollingUpdate.create_backup]
            ++ (M ++ p_post_tasks RollingUpdate.rolling_update))) as -> by reflexivity.
  rewrite run_list_app.
  pose proof (run_list_keeps w h (fun s' => app s' = Some tr)
                ltac:(by intros ? ? (_ & <- & _)) [] [RollingUpdate.check_rolling]
                (HRun (enter s) false)) as Hk0.
  pose proof (run_list_alive w h [] [RollingUpdate.check_rolling]
                (HRun (enter s) false)) as Ha0.
  destruct (run_list w h [] [RollingUpdate.check_rolling] (HRun (enter s) false))
    as [r0 g0].
  rewrite run_list_app.
  pose proof (run_task_passed w h RollingUpdate.create_backup (r_state r0)
                eq_refl eq_refl eq_refl) as Hb.
  pose proof (run_list_alive w h [] [RollingUpdate.create_backup] r0) as Ha1.
  assert (run_list w h [] [RollingUpdate.create_backup] r0
          = ((run_task w h [] RollingUpdate.create_backup r0).1,
             [(run_task w h [] RollingUpdate.create_backup r0).2])) as Hone
    by (cbn [run_list]; by destruct (run_task _ _ _ _ r0)).
  rewrite Hone in *. clear Hone.
  destruct (run_task w h [] RollingUpdate.create_backup r0) as [r1 g1] eqn:Hrun.
  cbn [fst snd] in *.
  rewrite run_list_app.
  pose proof (run_list_keeps w h
                (fun s' => backups s' !! backup_name w (app_name +:+ "-pre-update-")
                           = Some (File (w_clock w "Create backup before update")
                                        (Tarball tr)))
                ltac:(by intros ? ? (_ & _ & <- & _)) [] M r1) as HkM.
  pose proof (run_list_alive w h [] M r1) as HaM.
  destruct (run_list w h [] M r1) as [rM gM].
  pose proof (run_list_alive w h [] (p_post_tasks RollingUpdate.rolling_update) rM) as HaP.
  destruct rM as [sM fM].
  pose proof (post_tasks_alive w h sM) as Hpa.
  pose proof (post_tasks_sweep w h sM) as Hps.
  destruct (run_list w h [] (p_post_tasks RollingUpdate.rolling_update) (HRun sM fM))
    as [rP gP] eqn:HP.
  cbn [fst snd r_state r_failed] in *.
  intros Hal.
  specialize (HaP Hal). subst fM. rewrite HP in Hpa, Hps. cbn [fst] in Hpa, Hps.
  destruct (Hpa Hal) as [Hf1 Hf2]. rewrite (Hps Hf1 Hf2).
  specialize (HaM eq_refl). specialize (Ha1 HaM). specialize (Ha0 Ha1).
  destruct r0 as [s0 f0]. cbn [r_state r_failed] in *. subst f0.
  rewrite Hrun in Hb. cbn [fst] in Hb. destruct (Hb HaM) as [Hok Hm].
  rewrite sweep_retention_lookup.
  assert (backups sM !! backup_name w (app_name +:+ "-pre-update-")
          = Some (File (w_clock w "Create backup before update") (Tarball tr))) as ->.
  { apply HkM.
    + unfold M. repeat constructor; intros k s' Hs';
        unfold exec_module; simpl; repeat case_match; simpl; done.
    + destruct Hm as (_ & _ & <- & _).
      apply (archive_ok w RollingUpdate.create_backup 0 s0 _ tr eq_refl); [|done].
      apply Hk0; [|done].
      repeat constructor; intros k s' Hs';
        unfold exec_module; simpl; repeat case_match; simpl; done. }
  rewrite decide_False; [done|]. intros [_ Hx]. simpl in Hx. lia.
Qed.

Lemma completed_update_keeps_its_backup_witness :
  backups (r_state (host_end Scenario.healthy "web1" [] RollingUpdate.rolling_update
                             Scenario.machine))
    !! backup_name Scenario.healthy (app_name +:+ "-pre-update-")
  = Some (File (w_clock Scenario.healthy "Create backup before update")
               (Tarball Scenario.old_tree)).
Proof.
  apply completed_update_keeps_its_backup.
  - reflexivity.
  - vm_compute. reflexivity.
  - vm_compute. reflexivity.
Defined.

(** X8.  The sweep only deletes; sweeping again at the same or an earlier
    time deletes nothing more; a later sweep deletes at least as much. *)
Theorem sweep_only_deletes (now now' : Z) (d : dir) :
  now' <= now ->
  sweep_retention now d ⊆ d
  ∧ sweep_retention now' (sweep_retention now d) = sweep_retention now d
  ∧ sweep_retention now d ⊆ sweep_retention now' d.
Proof.
  intros Hle. split; [|split].
  - apply map_subseteq_spec. intros n f. rewrite sweep_retention_lookup.
    destruct (d !! n); [|done]. by case_decide.
  - apply map_eq. intros n. rewrite !sweep_retention_lookup.
    destruct (d !! n) as [f|]; [|done].
    destruct (decide (is_backup_name n ∧ seven_days <= now - f_mtime f)) as [H|H]; [done|].
    rewrite decide_False; [done|]. intros [Hg Ha]. apply H. split; [done|lia].
  - apply map_subseteq_spec. intros n f. rewrite !sweep_retention_lookup.
    destruct (d !! n) as [f'|]; [|done].
    destruct (decide (is_backup_name n ∧ seven_days <= now - f_mtime f')) as [H|H]; [done|].
    intros [= <-]. rewrite decide_False; [done|]. intros [Hg Ha]. apply H. split; [done|lia].
Qed.

Lemma sweep_only_deletes_witness :
  sweep_retention (1700000000 + 8 * 86400)
    {[ "nodejs-ansible-deploy-pre-update-1700000000.tar.gz"
         := File 1700000000 (Tarball Scenario.old_tree) ]}
  ⊆ sweep_retention 1700000000
      {[ "nodejs-ansible-deploy-pre-update-1700000000.tar.gz"
           := File 1700000000 (Tarball Scenario.old_tree) ]}.
Proof.
  apply (sweep_only_deletes (1700000000 + 8 * 86400) 1700000000). lia.
Defined.

(** X9.  Every archive the three plays write in the backup directory has a
    name the sweep of the rolling update matches. *)
Theorem every_backup_is_swept_by_name (w : host_world) (p : play) (t : task)
  (prefix : string) :
  p ∈ [RollingUpdate.rolling_update; DisasterRecovery.disaster_recovery; Deploy.deploy] ->
  t ∈ all_tasks p -> t_module t = archive prefix ->
  is_backup_name (backup_name w prefix).
Proof.
  intros Hp Ht Hm.
  assert (∃ x, prefix = (app_name +:+ "-") +:+ x) as [x ->].
  { repeat (apply elem_of_cons in Hp as [-> | Hp]); [| | |by apply elem_of_nil in Hp].
    all: revert Hm; repeat (apply elem_of_cons in Ht as [-> | Ht]);
      try (by apply elem_of_nil in Ht); try discriminate.
    all: intros [= <-].
    - by exists "pre-update-".
    - by exists "pre-recovery-".
    - by exists "". }
  unfold is_backup_name, backup_name.
  replace (((app_name +:+ "-") +:+ x) +:+ pretty (w_epoch w) +:+ ".tar.gz")
    with ((app_name +:+ "-") +:+ (x +:+ pretty (w_epoch w)) +:+ ".tar.gz").
  - apply glob_app.
  - by rewrite !string_app_assoc.
Qed.

Lemma every_backup_is_swept_by_name_witness :
  is_backup_name (backup_name Scenario.healthy (app_name +:+ "-pre-recovery-")).
Proof.
  apply (every_backup_is_swept_by_name Scenario.healthy DisasterRecovery.disaster_recovery
           DisasterRecovery.snapshot).
  - apply list_elem_of_further, list_elem_of_here.
  - do 4 apply list_elem_of_further. apply list_elem_of_here.
  - reflexivity.
Defined.

(** ** Facts about paths *)

Lemma segments_nonempty p : segments p ≠ [].
Proof. destruct p as [|c r]; simpl; [done|]. by repeat case_match. Qed.

Lemma segments_cons c r :
  segments (String c r)
  = if Ascii.eqb c slash then EmptyString :: segments r
    else match segments r with
         | x :: l => String c x :: l
         | [] => [String c EmptyString]
         end.
Proof. reflexivity. Qed.

(** A path [a/k] has the segments of [a], then those of [k]. *)
Lemma segments_app a k : segments (a +:+ "/" +:+ k) = segments a ++ segments k.
Proof.
  induction a as [|c r IH].
  - reflexivity.
  - rewrite string_app_cons, !segments_cons. rewrite IH.
    destruct (Ascii.eqb c slash); [done|].
    pose proof (segments_nonempty r).
    by destruct (segments r).
Qed.

Lemma join_cons x y l : join (x :: y :: l) = x +:+ "/" +:+ join (y :: l).
Proof. reflexivity. Qed.

Lemma join_cons_char c x l : join (String c x :: l) = String c (join (x :: l)).
Proof. destruct l; [reflexivity|]. by rewrite !join_cons, string_app_cons. Qed.

(** Joining the segments of a path gives the path back. *)
Lemma join_segments p : join (segments p) = p.
Proof.
  induction p as [|c r IH]; [reflexivity|].
  rewrite segments_cons. pose proof (segments_nonempty r) as Hne.
  destruct (Ascii.eqb c slash) eqn:Hc.
  - apply Ascii.eqb_eq in Hc. subst c.
    destruct (segments r) as [|x l]; [done|]. rewrite join_cons, IH. reflexivity.
  - destruct (segments r) as [|x l]; [done|]. by rewrite join_cons_char, IH.
Qed.

(** Through plain segments the walk only goes down. *)
Lemma walk_plain segs : forall up,
  Forall (fun x => plain_segment x = true) segs ->
  walk up segs = rev up ++ segs.
Proof.
  induction segs as [|x l IH]; intros up HF; [by rewrite app_nil_r|].
  inversion HF as [|? ? Hx Hl]; subst. cbn [walk].
  unfold plain_segment in Hx. apply negb_true_iff, bool_decide_eq_false in Hx.
  rewrite bool_decide_eq_false_2 by tauto.
  rewrite bool_decide_eq_false_2 by tauto.
  rewrite IH by done. cbn [rev]. by rewrite <- app_assoc.
Qed.

(** A file of app_dir as the [archive] module names it is extracted next
    to the root, not in app_dir. *)
Lemma locate_member k :
  plain_path k = true ->
  locate (app_base +:+ "/" +:+ k) = Outside ("/" +:+ app_base +:+ "/" +:+ k).
Proof.
  intros Hk. unfold locate. change (resolve app_dir) with ["opt"; "nodejs-app"].
  unfold resolve. rewrite segments_app.
  unfold plain_path in Hk. rewrite forallb_forall in Hk.
  rewrite walk_plain.
  2: { apply Forall_app. split; [by_eval|].
       apply Forall_forall. intros x Hx. apply Hk. by apply list_elem_of_In. }
  change (segments app_base) with [app_base].
  pose proof (segments_nonempty k) as Hne.
  destruct (segments k) as [|x l] eqn:Hs; [done|].
  cbn [rev Datatypes.app below].
  rewrite (bool_decide_eq_false_2 (app_base = "opt")) by done.
  rewrite join_cons, <- Hs, join_segments. reflexivity.
Qed.

Lemma rekey_lookup_Some f (m : tree) k k' v :
  m !! k = Some v -> f k = Some k' ->
  (forall j, is_Some (m !! j) -> f j = Some k' -> j = k) ->
  rekey f m !! k' = Some v.
Proof.
  intros Hk Hf Huniq. unfold rekey. apply elem_of_list_to_map_1'.
  - intros y Hy. apply list_elem_of_omap in Hy as ([j y'] & Hin & Hj).
    apply elem_of_map_to_list in Hin. cbn [fst snd] in Hj.
    destruct (f j) as [k''|] eqn:Hfj; [|discriminate]. cbn in Hj.
    injection Hj as -> ->.
    rewrite (Huniq j) in Hin by (by eauto). congruence.
  - apply list_elem_of_omap. exists (k, v). split; [by apply elem_of_map_to_list|].
    cbn [fst snd]. by rewrite Hf.
Qed.

Lemma rekey_empty f (m : tree) :
  (forall j, is_Some (m !! j) -> f j = None) -> rekey f m = ∅.
Proof.
  intros Hf. apply map_eq. intros i. rewrite lookup_empty.
  unfold rekey. apply not_elem_of_list_to_map_1.
  intros Hin. apply list_elem_of_fmap in Hin as ([i' y] & -> & Hin).
  apply list_elem_of_omap in Hin as ([j y'] & Hin & Hj).
  apply elem_of_map_to_list in Hin. cbn [fst snd] in Hj.
  rewrite (Hf j) in Hj by (by eauto). discriminate.
Qed.

(** The members of an archive of app_dir made by the [archive] module. *)
Lemma member_lookup (tr : tree) j :
  is_Some (kmap (M2 := gmap string) (String.append (app_base +:+ "/")) tr !! j) ->
  ∃ k, j = app_base +:+ "/" +:+ k ∧ is_Some (tr !! k).
Proof.
  intros [v Hv].
  apply (lookup_kmap_Some (String.append (app_base +:+ "/"))
           (Inj0 := String.app_inj (app_base +:+ "/"))) in Hv as (k & -> & Hk).
  exists k. split; [apply string_app_assoc | by eauto].
Qed.

(** tar extracts such an archive when the files have plain names. *)
Lemma members_extractable (tr : tree) :
  (forall k, is_Some (tr !! k) -> plain_path k = true) ->
  extractable (kmap (String.append (app_base +:+ "/")) tr) = true.
Proof.
  intros Hplain. unfold extractable. apply bool_decide_eq_true.
  intros j v Hj. destruct (member_lookup tr j (mk_is_Some _ _ Hj)) as (k & -> & Hk).
  unfold safe_member. apply negb_true_iff, bool_decide_eq_false.
  rewrite segments_app. change (segments app_base) with [app_base].
  intros [Hin | Hin]%elem_of_app.
  - by apply list_elem_of_singleton in Hin.
  - specialize (Hplain k Hk). unfold plain_path in Hplain.
    rewrite forallb_forall in Hplain.
    specialize (Hplain ".." ltac:(by apply list_elem_of_In)). discriminate.
Qed.

(** Extracted at the root, such an archive leaves app_dir alone and puts
    its files under /nodejs-app. *)
Lemma write_files_members (tr : tree) s :
  (forall k, is_Some (tr !! k) -> plain_path k = true) ->
  app (write_files (kmap (String.append (app_base +:+ "/")) tr) s) = app s
  ∧ forall k v, tr !! k = Some v ->
      elsewhere (write_files (kmap (String.append (app_base +:+ "/")) tr) s)
        !! ("/" +:+ app_base +:+ "/" +:+ k) = Some v.
Proof.
  intros Hplain.
  assert (forall j, is_Some (kmap (M2 := gmap string) (String.append (app_base +:+ "/")) tr
                               !! j) ->
                    ∃ k, j = app_base +:+ "/" +:+ k ∧ is_Some (tr !! k)
                         ∧ locate j = Outside ("/" +:+ app_base +:+ "/" +:+ k)) as Hloc.
  { intros j Hj. apply member_lookup in Hj as (k & -> & Hk).
    exists k. split; [done|]. split; [done|]. by apply locate_member, Hplain. }
  split.
  - unfold write_files. cbn [app set_app set_elsewhere]. unfold app_part.
    rewrite rekey_empty.
    + destruct (app s); [by rewrite (left_id_L ∅ (∪)) | by rewrite bool_decide_eq_true_2].
    + intros j Hj. destruct (Hloc j Hj) as (k & _ & _ & Hl). unfold in_app. by rewrite Hl.
  - intros k v Hk. unfold write_files. cbn [elsewhere set_app set_elsewhere].
    apply lookup_union_Some_l. unfold rest_part.
    apply (rekey_lookup_Some outside _ (app_base +:+ "/" +:+ k)).
    + rewrite <- string_app_assoc.
      rewrite (lookup_kmap (String.append (app_base +:+ "/"))
                 (Inj0 := String.app_inj (app_base +:+ "/"))).
      exact Hk.
    + unfold outside. rewrite locate_member; [done|]. apply Hplain. by eauto.
    + intros j Hj Hout. destruct (Hloc j Hj) as (k' & -> & _ & Hl).
      unfold outside in Hout. rewrite Hl in Hout. injection Hout as Hout.
      change (k' = k) in Hout. by subst k'.
Qed.

(** X10.  The restore step of the rollback handler does not put the
    pre-update backup back in place.  The archive names the files of the
    application directory nodejs-app/..., and the handler extracts it at
    the root: the files are written under /nodejs-app, and the
    application directory stays as the update left it. *)
Theorem rollback_restore_misses_app_dir (w : host_world) (s s2 : host_state) (tr : tree) :
  app s = Some tr ->
  m_ok (exec_module w RollingUpdate.create_backup 0 s) = true ->
  backups s2 !! backup_name w (app_name +:+ "-pre-update-")
  = backups (m_state (exec_module w RollingUpdate.create_backup 0 s))
      !! backup_name w (app_name +:+ "-pre-update-") ->
  w_fails w "Restore from backup" = false ->
  (forall k, is_Some (tr !! k) -> plain_path k = true) ->
  app (restore_rollback w s2) = app s2
  ∧ forall k v, tr !! k = Some v ->
      elsewhere (restore_rollback w s2) !! ("/nodejs-app/" +:+ k) = Some v.
Proof.
  intros Happ Hok Hb Hf Hplain.
  rewrite restore_rollback_eq, Hf, Hb.
  rewrite (archive_ok w RollingUpdate.create_backup 0 s _ tr eq_refl Happ Hok).
  unfold Tarball. rewrite (members_extractable tr Hplain).
  apply write_files_members, Hplain.
Qed.

(** The failed host of Scenario B: the restore leaves the failed release
    in the application directory and writes the old app.js to
    /nodejs-app/app.js. *)
Lemma rollback_restore_misses_app_dir_witness :
  app (restore_rollback Scenario.sick
         (r_state (host_end Scenario.sick "web2" [] RollingUpdate.rolling_update
                            Scenario.machine)))
  = app (r_state (host_end Scenario.sick "web2" [] RollingUpdate.rolling_update
                           Scenario.machine))
  ∧ elsewhere (restore_rollback Scenario.sick
                 (r_state (host_end Scenario.sick "web2" [] RollingUpdate.rolling_update
                                    Scenario.machine)))
      !! "/nodejs-app/app.js" = Some "v1".
Proof.
  destruct (rollback_restore_misses_app_dir Scenario.sick Scenario.machine
              (r_state (host_end Scenario.sick "web2" [] RollingUpdate.rolling_update
                                 Scenario.machine))
              Scenario.old_tree) as [H1 H2].
  - reflexivity.
  - reflexivity.
  - by vm_compute.
  - reflexivity.
  - intros k Hk.
    assert (map_Forall (fun k _ => plain_path k = true) Scenario.old_tree) as HF by by_eval.
    destruct Hk as [v Hk]. exact (HF k v Hk).
  - split; [exact H1|]. apply (H2 "app.js" "v1"). reflexivity.
Defined.

(** ** Hosts of a play *)

(** X11.  The rolling update enters the hosts in inventory order and stops
    at the first host that fails: the hosts behind it are never entered
    and keep the release they had. *)
Theorem rollout_stops_at_first_failure (world : string -> host_world)
  (init : string -> host_state) (hosts : list string) :
  pr_hosts (run_play world init [] RollingUpdate.rolling_update hosts)
  = map (fun h => (h, host_end (world h) h [] RollingUpdate.rolling_update (init h)))
        (reached (fun h => r_failed (host_end (world h) h []
                                       RollingUpdate.rolling_update (init h))) hosts).
Proof.
  unfold run_play, batches. cbn [p_serial RollingUpdate.rolling_update].
  rewrite chunks_one.
  induction hosts as [|h hs IH]; [done|].
  cbn [map run_batches reached]. rewrite run_batch_one.
  cbn [pr_hosts pr_trace forallb snd]. rewrite andb_true_r.
  destruct (r_failed _); simpl; [done|]. by rewrite IH.
Qed.

(** ** Disaster recovery *)

(** X12.  When the restored application never answers, disaster recovery
    stops at the verification: the host has failed, the copy of the
    archive stays under /tmp, and neither the results nor the
    notification mail are produced. *)
Theorem failed_recovery_is_silent (w : host_world) (h : string) (s : host_state) :
  Exists (is_event h "Verify recovery success" failed)
         (host_trace w h [] DisasterRecovery.disaster_recovery s) ->
  r_failed (host_end w h [] DisasterRecovery.disaster_recovery s) = true
  ∧ Forall (fun e => ev_task e ∉ ["Clean up temporary backup file";
                                  "Display recovery results";
                                  "Send recovery notification"])
           (host_trace w h [] DisasterRecovery.disaster_recovery s).
Proof.
  intros Hf. split.
  - apply (ran_failed_iff _ _ _ _ (dr_ran w h s)).
    eapply Exists_impl; [exact Hf|]. by intros e (_ & _ & ?).
  - apply (ran_after_failure h
             (take 13 (all_tasks DisasterRecovery.disaster_recovery))
             DisasterRecovery.verify_recovery
             (drop 14 (all_tasks DisasterRecovery.disaster_recovery))
             _ _ (dr_ran w h s)); [by_eval | exact Hf].
Qed.

Lemma failed_recovery_is_silent_witness :
  r_failed (host_end Incident.no_recovery "web1" [] DisasterRecovery.disaster_recovery
                     Scenario.machine) = true
  ∧ Forall (fun e => ev_task e ∉ ["Clean up temporary backup file";
                                  "Display recovery results";
                                  "Send recovery notification"])
           (host_trace Incident.no_recovery "web1" [] DisasterRecovery.disaster_recovery
                       Scenario.machine).
Proof.
  apply failed_recovery_is_silent. unfold is_event. by_eval.
Defined.



(** X14.  When the pre-recovery snapshot is taken, it holds the tree that
    disaster recovery is about to delete, and it is still in the backup
    directory when the play ends, whatever happens afterwards. *)
Theorem recovery_snapshot_holds_old_tree (w : host_world) (h : string) (s : host_state)
  (tr : tree) :
  app s = Some tr ->
  Exists (fun e => ev_task e = "Create current state backup before recovery"
                   ∧ ev_out e ≠ ignored)
         (host_trace w h [] DisasterRecovery.disaster_recovery s) ->
  backups (r_state (host_end w h [] DisasterRecovery.disaster_recovery s))
    !! backup_name w (app_name +:+ "-pre-recovery-")
  = Some (File (w_clock w "Create current state backup before recovery") (Tarball tr)).
Proof.
  intros Happ Hc.
  destruct (run_host_plain w h DisasterRecovery.disaster_recovery (enter s)
              (dr_no_notify) eq_refl) as [H1 H2].
  unfold host_end, host_trace in *. rewrite H1. rewrite H2 in Hc. clear H1 H2.
  revert Hc.
  pose (A := take 4 (all_tasks DisasterRecovery.disaster_recovery)).
  pose (B := drop 5 (all_tasks DisasterRecovery.disaster_recovery)).
  assert (all_tasks DisasterRecovery.disaster_recovery
          = A ++ DisasterRecovery.snapshot :: B) as -> by reflexivity.
  rewrite run_list_app.
  pose proof (run_list_events_any w h A (HRun (enter s) false)) as HA.
  pose proof (run_list_keeps w h (fun s' => app s' = Some tr)
                ltac:(by intros ? ? (_ & <- & _)) [] A (HRun (enter s) false)) as HkA.
  destruct (run_list w h [] A (HRun (enter s) false)) as [rA gA].
  rewrite run_list_cons.
  pose proof (run_task_ignoring w h DisasterRecovery.snapshot (r_state rA)
                eq_refl eq_refl eq_refl) as Hsn.
  destruct (run_task w h [] DisasterRecovery.snapshot rA) as [r1 g1] eqn:Hrun.
  pose proof (run_list_events_any w h B r1) as HB.
  pose proof (run_list_keeps w h
                (fun s' => backups s' !! backup_name w (app_name +:+ "-pre-recovery-")
                           = Some (File (w_clock w
                                           "Create current state backup before recovery")
                                        (Tarball tr)))
                ltac:(by intros ? ? (_ & _ & <- & _)) [] B r1) as HkB.
  destruct (run_list w h [] B r1) as [rB gB].
  cbn [fst snd] in *. intros Hc.
  apply Exists_exists in Hc as (e & Hin & Hn & Ho).
  rewrite concat_app in Hin. cbn [concat] in Hin.
  assert (e ∈ g1) as Hin1.
  { apply elem_of_app in Hin as [Hin | Hin].
    - exfalso. rewrite Forall_forall in HA. destruct (HA _ Hin) as [_ Hx].
      rewrite Hn in Hx. revert Hx. by_eval.
    - apply elem_of_app in Hin as [Hin | Hin]; [done|].
      exfalso. rewrite Forall_forall in HB. destruct (HB _ Hin) as [_ Hx].
      rewrite Hn in Hx. revert Hx. by_eval. }
  destruct rA as [sA [|]].
  { rewrite run_task_failed in Hrun. injection Hrun as _ <-. by apply elem_of_nil in Hin1. }
  cbn [r_state] in *. rewrite Hrun in Hsn. cbn [fst snd] in Hsn.
  destruct Hsn as (_ & Hm & o & sl & -> & Hok).
  apply list_elem_of_singleton in Hin1. subst e. cbn [ev_out] in Ho.
  apply HkB.
  - unfold B. repeat (apply Forall_cons_2 || apply Forall_nil_2); intros k s' Hs';
      unfold exec_module; simpl; repeat case_match; simpl; done.
  - destruct Hm as (_ & _ & <- & _).
    apply (archive_ok w DisasterRecovery.snapshot 0 sA _ tr eq_refl); [|by apply Hok].
    apply HkA; [|done].
    unfold A. repeat (apply Forall_cons_2 || apply Forall_nil_2); intros k s' Hs';
      unfold exec_module; simpl; repeat case_match; simpl; done.
Qed.

Lemma recovery_snapshot_holds_old_tree_witness :
  backups (r_state (host_end Incident.no_recovery "web1" []
                             DisasterRecovery.disaster_recovery Scenario.machine))
    !! backup_name Incident.no_recovery (app_name +:+ "-pre-recovery-")
  = Some (File (w_clock Incident.no_recovery "Create current state backup before recovery")
               (Tarball Scenario.old_tree)).
Proof.
  apply recovery_snapshot_holds_old_tree.
  - reflexivity.
  - by_eval.
Defined.

(** X15.  A disaster recovery that completes on a host has restored an
    archive that tar extracts: the application directory holds the
    files the archive has for it, with node_modules and the lock file as npm made them, and
    nothing of the tree the play found; the other files of the archive
    are where their paths lead; the application and nginx run, and the
    copy of the archive under /tmp is gone. *)
Theorem completed_recovery_state (w : host_world) (h : string) (s : host_state) :
  r_failed (host_end w h [] DisasterRecovery.disaster_recovery s) = false ->
  ∃ mt a,
    w_controller w !! dr_path w = Some (File mt (Archive a))
    ∧ extractable a = true
    ∧ app (r_state (host_end w h [] DisasterRecovery.disaster_recovery s))
      = Some (npm_result (w_modules w) (app_part a))
    ∧ elsewhere (r_state (host_end w h [] DisasterRecovery.disaster_recovery s))
      = rest_part a ∪ elsewhere s
    ∧ services (r_state (host_end w h [] DisasterRecovery.disaster_recovery s))
        !! systemd_service_name = Some true
    ∧ services (r_state (host_end w h [] DisasterRecovery.disaster_recovery s))
        !! "nginx" = Some true
    ∧ tmp (r_state (host_end w h [] DisasterRecovery.disaster_recovery s))
        !! DisasterRecovery.tmp_backup = None.
Proof.
  destruct (run_host_plain w h DisasterRecovery.disaster_recovery (enter s)
              (dr_no_notify) eq_refl) as [H1 _].
  unfold host_end. rewrite H1. clear H1.
  pose (L1 := take 5 (all_tasks DisasterRecovery.disaster_recovery)).
  pose (L2 := [DisasterRecovery.wait_ready; DisasterRecovery.verify_recovery]).
  pose (L3 := [DisasterRecovery.display_results; DisasterRecovery.send_notification]).
  assert (all_tasks DisasterRecovery.disaster_recovery
          = L1 ++ DisasterRecovery.remove_app_dir :: DisasterRecovery.recreate_app_dir
               :: DisasterRecovery.copy_backup :: DisasterRecovery.restore
               :: DisasterRecovery.install_npm :: DisasterRecovery.start_app
               :: DisasterRecovery.start_nginx
               :: (L2 ++ DisasterRecovery.cleanup_tmp :: L3)) as -> by reflexivity.
  rewrite run_list_app_end.
  assert (elsewhere (r_state (run_list w h [] L1 (HRun (enter s) false)).1)
          = elsewhere s) as El5.
  { apply (run_list_keeps w h (fun s' => elsewhere s' = elsewhere s));
      [by intros ? ? (_ & _ & _ & _ & _ & <-) | | done].
    unfold L1. repeat (apply Forall_cons_2 || apply Forall_nil_2); intros k s' Hs';
      unfold exec_module; simpl (t_module _); simpl (t_name _); cbv beta iota zeta;
      repeat case_match; done. }
  remember (run_list w h [] L1 (HRun (enter s) false)).1 as r5 eqn:E5. clear E5.
  rewrite !run_list_cons_end, run_list_app_end, run_list_cons_end.
  (* the host is alive at every step *)
  intros Hal.
  pose proof (run_list_alive w h [] L3 _ Hal) as A15.
  pose proof (run_task_alive w h [] _ _ A15) as A14.
  pose proof (run_list_alive w h [] L2 _ A14) as A12.
  pose proof (run_task_alive w h [] _ _ A12) as A11.
  pose proof (run_task_alive w h [] _ _ A11) as A10.
  pose proof (run_task_alive w h [] _ _ A10) as A9.
  pose proof (run_task_alive w h [] _ _ A9) as A8.
  pose proof (run_task_alive w h [] _ _ A8) as A7.
  pose proof (run_task_alive w h [] _ _ A7) as A6.
  pose proof (run_task_alive w h [] _ _ A6) as A5.
  clear Hal.
  destruct r5 as [s5 f5]. cbn [r_failed r_state] in A5, El5. subst f5.
  revert A6 A7 A8 A9 A10 A11 A12 A14 A15.
  pass_step DisasterRecovery.remove_app_dir r6 P6. intros A6.
  destruct r6 as [s6 f6]. cbn [r_failed r_state] in *. subst f6.
  pass_step DisasterRecovery.recreate_app_dir r7 P7. intros A7.
  destruct r7 as [s7 f7]. cbn [r_failed r_state] in *. subst f7.
  pass_step DisasterRecovery.copy_backup r8 P8. intros A8.
  destruct r8 as [s8 f8]. cbn [r_failed r_state] in *. subst f8.
  pass_step DisasterRecovery.restore r9 P9. intros A9.
  destruct r9 as [s9 f9]. cbn [r_failed r_state] in *. subst f9.
  pass_step DisasterRecovery.install_npm r10 P10. intros A10.
  destruct r10 as [s10 f10]. cbn [r_failed r_state] in *. subst f10.
  pass_step DisasterRecovery.start_app r11 P11. intros A11.
  destruct r11 as [s11 f11]. cbn [r_failed r_state] in *. subst f11.
  pass_step DisasterRecovery.start_nginx r12 P12. intros A12.
  destruct r12 as [s12 f12]. cbn [r_failed r_state] in *. subst f12.
  pose proof (fun I HI => run_list_keeps w h I HI [] L2 (HRun s12 false)) as K2.
  remember (run_list w h [] L2 (HRun s12 false)).1 as r13 eqn:E. clear E.
  intros A14. destruct r13 as [s13 f13]. cbn [r_failed r_state] in *. subst f13.
  pass_step DisasterRecovery.cleanup_tmp r14 P14. intros A15.
  destruct r14 as [s14 f14]. cbn [r_failed r_state] in *. subst f14.
  pose proof (fun I HI => run_list_keeps w h I HI [] L3 (HRun s14 false)) as K3.
  remember (run_list w h [] L3 (HRun s14 false)).1 as r15 eqn:E. clear E.
  destruct (P6 eq_refl) as [O6 M6]. destruct (P7 eq_refl) as [O7 M7].
  destruct (P8 eq_refl) as [O8 M8]. destruct (P9 eq_refl) as [O9 M9].
  destruct (P10 eq_refl) as [O10 M10]. destruct (P11 eq_refl) as [O11 M11].
  destruct (P12 eq_refl) as [O12 M12]. destruct (P14 eq_refl) as [O14 M14].
  clear P6 P7 P8 P9 P10 P11 P12 P14.
  (* the application tree *)
  assert (app s6 = None ∧ elsewhere s6 = elsewhere s) as [T6 E6].
  { destruct M6 as (_ & <- & _ & _ & _ & <-). exec_ok O6. done. }
  assert (app s7 = Some ∅ ∧ elsewhere s7 = elsewhere s) as [T7 E7].
  { destruct M7 as (_ & <- & _ & _ & _ & <-). exec_ok O7. by rewrite T6. }
  assert (∃ f, w_controller w !! dr_path w = Some f
               ∧ tmp s8 !! DisasterRecovery.tmp_backup = Some f
               ∧ app s8 = Some ∅ ∧ elsewhere s8 = elsewhere s) as (f & C8 & F8 & T8 & E8).
  { destruct M8 as (_ & <- & _ & <- & _ & <-). revert O8.
    unfold exec_module. simpl (t_module _). simpl (t_name _).
    destruct (w_fails w _); [discriminate|].
    unfold dr_path. simpl (eval_sexpr _ _). simpl (_ ≫= _).
    destruct (w_controller w !! default "" (w_strs w !! "backup_restore_path")) as [f|];
      simpl; [|discriminate].
    intros _. exists f. by rewrite lookup_insert_eq. }
  assert (∃ mt a, f = File mt (Archive a) ∧ extractable a = true
                  ∧ app s9 = Some (app_part a)
                  ∧ elsewhere s9 = rest_part a ∪ elsewhere s)
    as (mt & a & -> & X9 & T9 & E9).
  { destruct M9 as (_ & <- & _ & _ & _ & <-). revert O9.
    unfold exec_module. simpl (t_module _). simpl (t_name _).
    destruct (w_fails w _); [discriminate|]. rewrite F8.
    destruct f as [mt [a|n]]; cbn [fmap option_fmap option_map f_data m_ok success failure];
      [|discriminate].
    destruct (extractable a) eqn:Hx; [|discriminate].
    intros _. exists mt, a. split; [done|]. split; [done|].
    unfold write_files. cbn [m_state success app elsewhere set_app set_elsewhere].
    rewrite T8, E8. by rewrite (right_id_L ∅ (∪)). }
  assert (app s10 = Some (npm_result (w_modules w) (app_part a))
          ∧ elsewhere s10 = rest_part a ∪ elsewhere s) as [T10 E10].
  { destruct M10 as (_ & <- & _ & _ & _ & <-). revert O10.
    unfold exec_module. simpl (t_module _). simpl (t_name _).
    rewrite T9. destruct (w_fails w _); cbn; [discriminate | done]. }
  assert (app s11 = Some (npm_result (w_modules w) (app_part a))
          ∧ elsewhere s11 = rest_part a ∪ elsewhere s
          ∧ services s11 !! systemd_service_name = Some true) as (T11 & E11 & S11).
  { destruct M11 as (<- & <- & _ & _ & _ & <-). split; [|split].
    - exec_ok O11. done.
    - exec_ok O11. done.
    - by apply systemd_started_ok. }
  assert (app s12 = Some (npm_result (w_modules w) (app_part a))
          ∧ elsewhere s12 = rest_part a ∪ elsewhere s
          ∧ services s12 !! systemd_service_name = Some true
          ∧ services s12 !! "nginx" = Some true) as (T12 & E12 & S12 & N12).
  { destruct M12 as (<- & <- & _ & _ & _ & <-). split; [|split; [|split]].
    - exec_ok O12. done.
    - exec_ok O12. done.
    - exec_ok O12. by rewrite lookup_insert_ne.
    - by apply systemd_started_ok. }
  pose (I := fun s' : host_state =>
               app s' = Some (npm_result (w_modules w) (app_part a))
               ∧ elsewhere s' = rest_part a ∪ elsewhere s
               ∧ services s' !! systemd_service_name = Some true
               ∧ services s' !! "nginx" = Some true).
  assert (forall s1 s2, same_machine s1 s2 -> I s1 -> I s2) as HI
    by (intros s1 s2 (Hs & Ha & _ & _ & _ & He); unfold I; by rewrite <- Hs, <- Ha, <- He).
  assert (I s13) as I13.
  { apply (K2 I HI); [|done].
    unfold L2, I. repeat (apply Forall_cons_2 || apply Forall_nil_2); intros k s' Hs';
      unfold exec_module; simpl; repeat case_match; simpl; done. }
  assert (I s14 ∧ tmp s14 !! DisasterRecovery.tmp_backup = None) as [I14 F14].
  { destruct M14 as (Hs & Ha & _ & Ht & _ & He). unfold I. rewrite <- Hs, <- Ha, <- Ht, <- He.
    destruct I13 as (? & ? & ? & ?). split.
    - exec_ok O14. done.
    - exec_ok O14. apply lookup_delete_eq. }
  exists mt, a. split; [done|]. split; [done|].
  cut (I (r_state r15) ∧ tmp (r_state r15) !! DisasterRecovery.tmp_backup = None);
    [by intros [(? & ? & ? & ?) ?]|].
  apply (K3 (fun s' => I s' ∧ tmp s' !! DisasterRecovery.tmp_backup = None)).
  - intros s1 s2 (Hs & Ha & _ & Ht & _ & He). unfold I.
    by rewrite <- Hs, <- Ha, <- Ht, <- He.
  - unfold L3, I. repeat (apply Forall_cons_2 || apply Forall_nil_2); intros k s' Hs';
      unfold exec_module; simpl; repeat case_match; simpl; done.
  - done.
Qed.

(** With the archive of the old tree made from the root, the old tree is
    back in the application directory. *)
Lemma completed_recovery_state_witness :
  ∃ mt a,
    w_controller Scenario.no_snapshot !! dr_path Scenario.no_snapshot
    = Some (File mt (Archive a))
    ∧ app (r_state (host_end Scenario.no_snapshot "web1" []
                             DisasterRecovery.disaster_recovery Scenario.machine))
      = Some (npm_result (w_modules Scenario.no_snapshot) (app_part a)).
Proof.
  destruct (completed_recovery_state Scenario.no_snapshot "web1" Scenario.machine)
    as (mt & a & H1 & _ & H2 & _).
  - vm_compute. reflexivity.
  - exists mt, a. split; [exact H1 | exact H2].
Defined.

(** ** The deployment *)

(** X16.  In the deployment every handler (the restarts of the application,
    of nginx, of MongoDB and Redis, the systemd reload) runs after the
    health test has passed: no restart is followed by a health test. *)
Theorem deploy_restarts_after_health_test (w : host_world) (h : string) (s : host_state) :
  preceded_by (fun e => named h "Test application health endpoint" e ∧ ev_out e ≠ failed)
              (fun e => ev_task e ∈ handler_names Deploy.deploy)
              (host_trace w h [] Deploy.deploy s).
Proof.
  destruct (deploy_trace_handlers w h s) as (A & H & -> & HA & Hp & HH).
  apply preceded_by_app.
  - apply preceded_by_none. eapply Forall_impl; [exact HA|].
    assert (Forall (fun n => n ∉ handler_names Deploy.deploy)
                   (names (all_tasks Deploy.deploy))) as Hd by by_eval.
    rewrite Forall_forall in Hd. intros e He Hq. exact (Hd _ He Hq).
  - destruct H as [|e H]; [right; by apply preceded_by_none|].
    left. eapply Exists_impl; [apply Hp; done|].
    intros e' (o & sl & -> & Ho & _). done.
Qed.

(** X17.  A deployment that completes on a host leaves the application unit
    and nginx started, after the handlers have run: nodejs-app under
    systemd, pm2-nodeapp when [use_pm2] is set. *)
Theorem completed_deployment_is_running (w : host_world) (h : string) (s : host_state) :
  r_failed (host_end w h [] Deploy.deploy s) = false ->
  services (r_state (host_end w h [] Deploy.deploy s)) !! app_unit w = Some true
  ∧ services (r_state (host_end w h [] Deploy.deploy s)) !! "nginx" = Some true.
Proof.
  unfold host_end, run_host, run_section.
  cbn [p_pre_tasks p_tasks p_post_tasks p_handlers Deploy.deploy].
  destruct (run_list w h [] Deploy.pre_tasks (HRun (enter s) false)) as [r0 g0].
  pose proof (flush_alive w h Deploy.handlers r0) as Af0.
  destruct (flush_handlers w h Deploy.handlers r0) as [r1 gh0].
  pose (P := take 43 Deploy.tasks).
  pose (R := drop 45 Deploy.tasks).
  assert (Deploy.tasks = P ++ deploy_start_services :: deploy_enable_pm2 :: R) as ->
    by reflexivity.
  rewrite run_list_app.
  pose proof (run_list_alive w h [] P r1) as AP.
  destruct (run_list w h [] P r1) as [rP gP].
  rewrite run_list_cons.
  pose proof (run_task_alive w h [] deploy_start_services rP) as A43.
  pose proof (fun Hc => run_task_passed_when w h deploy_start_services (r_state rP)
                          Hc eq_refl eq_refl) as P43.
  pose proof (fun I HI => run_task_keeps_if w h I HI [] deploy_start_services rP) as K43.
  destruct (run_task w h [] deploy_start_services rP) as [r43 g43] eqn:E43.
  rewrite run_list_cons.
  pose proof (run_task_alive w h [] deploy_enable_pm2 r43) as A44.
  pose proof (fun Hc => run_task_passed_when w h deploy_enable_pm2 (r_state r43)
                          Hc eq_refl eq_refl) as P44.
  pose proof (fun I HI => run_task_keeps_if w h I HI [] deploy_enable_pm2 r43) as K44.
  destruct (run_task w h [] deploy_enable_pm2 r43) as [r44 g44] eqn:E44.
  pose proof (run_list_alive w h [] R r44) as AR.
  pose proof (fun I HI => run_list_keeps w h I HI [] R r44) as KR.
  destruct (run_list w h [] R r44) as [rR gR].
  pose proof (flush_alive w h Deploy.handlers rR) as Af1.
  pose proof (fun I HI => flush_keeps w h I Deploy.handlers rR HI) as Kf1.
  destruct (flush_handlers w h Deploy.handlers rR) as [r2 gh1].
  cbn [run_list].
  pose proof (flush_alive w h Deploy.handlers r2) as Af2.
  pose proof (fun I HI => flush_keeps w h I Deploy.handlers r2 HI) as Kf2.
  destruct (flush_handlers w h Deploy.handlers r2) as [r3 gh2].
  cbn [fst snd] in *. intros Hal.
  specialize (Af2 Hal). specialize (Af1 Af2). specialize (AR Af1).
  specialize (A44 AR). specialize (A43 A44).
  destruct rP as [sP fP], r43 as [s43 f43]. cbn [r_failed r_state] in *. subst fP f43.
  rewrite E43 in P43. rewrite E44 in P44. cbn [fst r_state] in P43, P44.
  pose (I := fun s' : host_state =>
               services s' !! app_unit w = Some true ∧ services s' !! "nginx" = Some true).
  assert (forall s1 s2, same_machine s1 s2 -> I s1 -> I s2) as HI
    by (intros s1 s2 (Hs & _); unfold I; by rewrite <- Hs).
  assert (forall (t : task) units st, t_module t = systemd units st -> st ≠ stopped ->
            forall k s', I s' -> I (m_state (exec_module w t k s'))) as Hsys.
  { intros t units st Hm Hst k s' [H1 H2]. unfold exec_module. rewrite Hm.
    destruct (w_fails w (t_name t)); [done|].
    destruct st; [|done|]; split; cbn; by apply set_units_keeps. }
  cut (I (r_state r3)); [done|].
  apply (Kf2 I HI).
  { unfold I. repeat (apply Forall_cons_2 || apply Forall_nil_2); intros _ k s' Hs';
      first [ by eapply Hsys | unfold exec_module; simpl; by repeat case_match ]. }
  apply (Kf1 I HI).
  { unfold I. repeat (apply Forall_cons_2 || apply Forall_nil_2); intros _ k s' Hs';
      first [ by eapply Hsys | unfold exec_module; simpl; by repeat case_match ]. }
  apply (KR I HI).
  { unfold R, I. repeat (apply Forall_cons_2 || apply Forall_nil_2); intros k s' Hs';
      unfold exec_module; simpl; by repeat case_match. }
  destruct (default false (w_flags w !! "use_pm2")) eqn:Hpm2.
  - (* PM2 mode *)
    destruct (P44 ltac:(simpl; by rewrite Hpm2) AR) as [Hok (Hm & _)].
    unfold I, app_unit. rewrite Hpm2, <- Hm.
    revert Hok. unfold exec_module. simpl (t_module _). simpl (t_name _).
    destruct (w_fails w _); [discriminate|]. intros _.
    split; apply set_units_lookup;
      [apply list_elem_of_here | apply list_elem_of_further, list_elem_of_here].
  - destruct (P43 ltac:(simpl; by rewrite Hpm2) eq_refl) as [Hok (Hm & _)].
    apply (K44 I HI).
    + intros _ [s0 Hc]. simpl in Hc. rewrite Hpm2 in Hc. discriminate.
    + unfold I, app_unit. rewrite Hpm2, <- Hm.
      revert Hok. unfold exec_module. simpl (t_module _). simpl (t_name _).
      destruct (w_fails w _); [discriminate|]. intros _.
      split; apply set_units_lookup;
        [apply list_elem_of_here | apply list_elem_of_further, list_elem_of_here].
Qed.

Lemma completed_deployment_is_running_witness :
  services (r_state (host_end Scenario.no_backup "web1" [] Deploy.deploy Scenario.machine))
    !! app_unit Scenario.no_backup = Some true
  ∧ services (r_state (host_end Scenario.no_backup "web1" [] Deploy.deploy Scenario.machine))
      !! "nginx" = Some true.
Proof.
  apply completed_deployment_is_running. vm_compute. reflexivity.
Defined.

(** X18.  The deployment and the disaster recovery have no [serial]: every
    host of the inventory runs the play to its own end, and what one
    host prints is what it would print alone, whatever happens on the
    others. *)
Theorem hosts_do_not_wait_for_each_other (world : string -> host_world)
  (init : string -> host_state) (only : list string) (p : play)
  (hosts : list string) (h : string) :
  p ∈ [Deploy.deploy; DisasterRecovery.disaster_recovery] ->
  NoDup hosts -> h ∈ hosts ->
  filter (fun e => ev_host e = h) (pr_trace (run_play world init only p hosts))
  = host_trace (world h) h only p (init h)
  ∧ (h, host_end (world h) h only p (init h))
    ∈ pr_hosts (run_play world init only p hosts).
Proof.
  intros Hp Hnd Hin.
  assert (p_serial p = None) as Hs.
  { repeat (apply elem_of_cons in Hp as [-> | Hp]); [done | done |].
    by apply elem_of_nil in Hp. }
  unfold run_play, batches. rewrite Hs.
  destruct hosts as [|x hs] eqn:Hh; [by apply elem_of_nil in Hin|]. rewrite <- Hh in *.
  clear Hh. cbn [run_batches].
  assert (forall r : play_result,
            (if forallb (fun x => r_failed x.2) (pr_hosts r) then r
             else PlayResult (pr_trace r ++ []) (pr_hosts r ++ [])) = r) as Hr.
  { intros [t hs']. cbn [pr_hosts pr_trace]. rewrite !app_nil_r. by destruct (forallb _ _). }
  rewrite Hr. unfold run_batch. cbn [pr_trace pr_hosts]. rewrite !map_map. cbn [fst snd].
  split.
  - by apply filter_lockstep.
  - apply list_elem_of_fmap. by exists h.
Qed.

Lemma hosts_do_not_wait_for_each_other_witness :
  filter (fun e => ev_host e = "web2")
         (pr_trace (run_play (fun _ => Scenario.no_backup) (fun _ => Scenario.machine) []
                             Deploy.deploy ["web1"; "web2"]))
  = host_trace Scenario.no_backup "web2" [] Deploy.deploy Scenario.machine.
Proof.
  apply (hosts_do_not_wait_for_each_other (fun _ => Scenario.no_backup)
           (fun _ => Scenario.machine) [] Deploy.deploy ["web1"; "web2"] "web2").
  - apply list_elem_of_here.
  - by_eval.
  - by_eval.
Defined.

(** ** deploy.sh and monitor-app *)

Section DeployScriptFacts.
Import Shell DeployScript.

Ltac deploy_cases e :=
  destruct e as [a n m nv mv d i p [|pg] [|pb] mo]; destruct a, n, m, d, i, p.
Ltac monitor_cases e :=
  destruct e as [a n m nv mv d i p pg pb [|mo]]; destruct d.
Ltac check_cases e :=
  destruct e as [a n m [|nv] [|mv] d i p pg pb mo]; destruct a, n, m, d, i, p.

Ltac list_tauto :=
  repeat match goal with
         | H : context [_ ∈ _ :: _] |- _ => rewrite elem_of_cons in H
         | H : context [_ ∈ []] |- _ => rewrite elem_of_nil in H
         end;
  rewrite ?elem_of_cons, ?elem_of_nil; tauto.

Ltac option_cases arg :=
  unfold output, exit_status, main;
  destruct (decide (arg ∈ ["-d"; "--deploy"])) as [Hd|Hd];
    [rewrite (bool_decide_eq_true_2 _ Hd)
    |rewrite (bool_decide_eq_false_2 _ Hd);
     destruct (decide (arg ∈ ["-m"; "--monitor"])) as [Hm|Hm];
       [rewrite (bool_decide_eq_true_2 _ Hm)
       |rewrite (bool_decide_eq_false_2 _ Hm);
        destruct (decide (arg ∈ ["-c"; "--check"])) as [Hc|Hc];
          [rewrite (bool_decide_eq_true_2 _ Hc)
          |rewrite (bool_decide_eq_false_2 _ Hc);
           destruct (decide (arg ∈ ["-h"; "--help"])) as [Hh|Hh];
             [rewrite (bool_decide_eq_true_2 _ Hh)
             |rewrite (bool_decide_eq_false_2 _ Hh);
              destruct (decide (arg = "")) as [He|He];
                [rewrite (bool_decide_eq_true_2 _ He)
                |rewrite (bool_decide_eq_false_2 _ He)]]]]].

Lemma playbook_in_deploy e :
  bool_decide (deploy_playbook ∈ (call true (deploy_application e)).1)
  = prerequisites e && (ping e =? 0)%nat.
Proof. deploy_cases e; vm_compute; reflexivity. Qed.

Lemma playbook_not_in_monitor e :
  bool_decide (deploy_playbook ∈ (call true (monitor_application e)).1) = false.
Proof. monitor_cases e; vm_compute; reflexivity. Qed.

Lemma playbook_not_in_check e :
  bool_decide (deploy_playbook ∈ (call true (check_prerequisites true e)).1) = false.
Proof. check_cases e; vm_compute; reflexivity. Qed.

Lemma usage_no_exec script : Forall (fun a => is_exec a = false) (show_usage script).1.
Proof. unfold show_usage. cbn [fst]. repeat constructor. Qed.

(** X19.  The deployment playbook is run exactly when the option is -d or
    --deploy, Ansible, the ansible directory, the inventory and the
    playbook are there, and the ping of the servers succeeded; Node.js
    and npm on the control node play no part. *)
Theorem playbook_runs_iff_checked (script arg : string) (e : env) :
  deploy_playbook ∈ output script arg e
  ↔ arg ∈ ["-d"; "--deploy"] ∧ prerequisites e = true ∧ ping e = 0%nat.
Proof.
  option_cases arg.
  - rewrite <- (bool_decide_eq_true (deploy_playbook ∈ _)), playbook_in_deploy.
    rewrite andb_true_iff, Nat.eqb_eq. tauto.
  - rewrite <- (bool_decide_eq_true (deploy_playbook ∈ _)), playbook_not_in_monitor.
    split; [done | by intros (? & _)].
  - rewrite <- (bool_decide_eq_true (deploy_playbook ∈ _)), playbook_not_in_check.
    split; [done | by intros (? & _)].
  - split; [|by intros (? & _)]. intros Hin. exfalso.
    pose proof (usage_no_exec script) as Hu. rewrite Forall_forall in Hu.
    by specialize (Hu _ Hin).
  - split; [|by intros (? & _)]. intros Hin. exfalso.
    pose proof (usage_no_exec script) as Hu. rewrite Forall_forall in Hu.
    apply elem_of_cons in Hin as [[=] | Hin]. by specialize (Hu _ Hin).
  - split; [|by intros (? & _)]. intros Hin. exfalso.
    pose proof (usage_no_exec script) as Hu. rewrite Forall_forall in Hu.
    apply elem_of_cons in Hin as [[=] | Hin].
    unfold andthen, exit_ in Hin. cbn [fst snd show_usage] in Hin.
    rewrite app_nil_r in Hin. by specialize (Hu _ Hin).
Qed.

Lemma usage_echo script : Forall (fun a => is_echo a = true) (show_usage script).1.
Proof. unfold show_usage. cbn [fst]. repeat constructor. Qed.

Lemma status_of_deploy e :
  code (call true (deploy_application e)).2
  = if prerequisites e && (ping e =? 0)%nat then playbook e else 1%nat.
Proof. deploy_cases e; vm_compute; reflexivity. Qed.

Lemma monitor_in_monitor e :
  bool_decide (monitor_playbook ∈ (call true (monitor_application e)).1) = dir_ansible e
  ∧ code (call true (monitor_application e)).2 = if dir_ansible e then monitor e else 1%nat.
Proof. monitor_cases e; vm_compute; split; reflexivity. Qed.

Lemma monitor_not_elsewhere e :
  bool_decide (monitor_playbook ∈ (call true (deploy_application e)).1) = false
  ∧ bool_decide (monitor_playbook ∈ (call true (check_prerequisites true e)).1) = false.
Proof.
  split; [deploy_cases e | check_cases e]; vm_compute; reflexivity.
Qed.

Lemma no_failure_message e :
  Forall (fun a => a ∉ failure_messages) (call true (deploy_application e)).1
  ∧ Forall (fun a => a ∉ failure_messages) (call true (monitor_application e)).1
  ∧ Forall (fun a => a ∉ failure_messages) (call true (check_prerequisites true e)).1.
Proof.
  split; [|split]; [deploy_cases e | monitor_cases e | check_cases e]; by_eval.
Qed.

Lemma echo_not_failure a : is_echo a = true -> a ∉ failure_messages.
Proof.
  destruct a; try discriminate. intros _ Hin.
  repeat (apply elem_of_cons in Hin as [[=] | Hin]). by apply elem_of_nil in Hin.
Qed.

(** X20.  When a playbook fails the script ends at once with the status of
    the playbook ([set -e]); the branch that would print "Deployment
    failed!" or "Monitoring failed!" and exit with 1 is never taken. *)
Theorem playbook_status_is_exit_status (script arg : string) (e : env) :
  (deploy_playbook ∈ output script arg e -> exit_status script arg e = playbook e)
  ∧ (monitor_playbook ∈ output script arg e -> exit_status script arg e = monitor e)
  ∧ Forall (fun a => a ∉ failure_messages) (output script arg e).
Proof.
  destruct (no_failure_message e) as (N1 & N2 & N3).
  destruct (monitor_not_elsewhere e) as (M1 & M2).
  destruct (monitor_in_monitor e) as (M3 & M4).
  pose proof (usage_echo script) as Hu.
  option_cases arg.
  - split; [|split; [|done]].
    + rewrite <- (bool_decide_eq_true (deploy_playbook ∈ _)), playbook_in_deploy.
      rewrite status_of_deploy. by intros ->.
    + rewrite <- (bool_decide_eq_true (monitor_playbook ∈ _)), M1. done.
  - split; [|split; [|done]].
    + rewrite <- (bool_decide_eq_true (deploy_playbook ∈ _)), playbook_not_in_monitor. done.
    + rewrite <- (bool_decide_eq_true (monitor_playbook ∈ _)), M3, M4. by intros ->.
  - split; [|split; [|done]].
    + rewrite <- (bool_decide_eq_true (deploy_playbook ∈ _)), playbook_not_in_check. done.
    + rewrite <- (bool_decide_eq_true (monitor_playbook ∈ _)), M2. done.
  - assert (Forall (fun a => is_echo a = true) (call true (show_usage script)).1) as Hu'
      by exact Hu.
    rewrite Forall_forall in Hu'.
    split; [|split].
    + intros Hin. by specialize (Hu' _ Hin).
    + intros Hin. by specialize (Hu' _ Hin).
    + apply Forall_forall. intros a Hin. by apply echo_not_failure, Hu'.
  - unfold andthen, print_color, act. cbn [fst snd app].
    rewrite Forall_forall in Hu.
    split; [|split].
    + intros [[=] | Hin]%elem_of_cons. by specialize (Hu _ Hin).
    + intros [[=] | Hin]%elem_of_cons. by specialize (Hu _ Hin).
    + apply Forall_cons_2.
      * unfold failure_messages. intros Hin.
        repeat (apply elem_of_cons in Hin as [Hin | Hin]); try (by apply elem_of_nil in Hin).
        all: cbv in Hin; congruence.
      * apply Forall_forall. intros a Hin. by apply echo_not_failure, Hu.
  - unfold andthen, print_color, act, exit_. cbn [fst snd app show_usage].
    rewrite app_nil_r. change (Forall (fun a => is_echo a = true) (show_usage script).1) in Hu.
    cbn [fst show_usage] in Hu. rewrite Forall_forall in Hu.
    split; [|split].
    + intros [[=] | Hin]%elem_of_cons. by specialize (Hu _ Hin).
    + intros [[=] | Hin]%elem_of_cons. by specialize (Hu _ Hin).
    + apply Forall_cons_2.
      * unfold failure_messages. intros Hin.
        repeat (apply elem_of_cons in Hin as [Hin | Hin]); try (by apply elem_of_nil in Hin).
        all: cbv in Hin; congruence.
      * apply Forall_forall. intros a Hin. by apply echo_not_failure, Hu.
Qed.

Lemma main_check script arg e :
  arg ∈ ["-c"; "--check"] -> main script arg e = call true (check_prerequisites true e).
Proof.
  intros Hin. unfold main.
  repeat (apply elem_of_cons in Hin as [-> | Hin]); [done | done |].
  by apply elem_of_nil in Hin.
Qed.

Lemma check_facts e :
  bool_decide (code (call true (check_prerequisites true e)).2 = 0%nat)
  = prerequisites e
    && (negb (cmd_node e) || (node_version e =? 0)%nat)
    && (negb (cmd_npm e) || (npm_version e =? 0)%nat)
  ∧ Forall (fun a => is_exec a = true -> a ∈ version_commands)
           (call true (check_prerequisites true e)).1.
Proof. check_cases e; split; first [ vm_compute; reflexivity | by_eval ]. Qed.

(** X21.  With -c or --check the script contacts no server: the only
    commands it runs are the three version commands.  It ends with
    status 0 exactly when every prerequisite is met and, where Node.js
    or npm is installed, its version command succeeded: under [set -e] a
    failing version command of an optional tool ends the check. *)
Theorem check_only_reads_versions (script arg : string) (e : env) :
  arg ∈ ["-c"; "--check"] ->
  (exit_status script arg e = 0%nat
   ↔ prerequisites e = true
     ∧ (cmd_node e = true -> node_version e = 0%nat)
     ∧ (cmd_npm e = true -> npm_version e = 0%nat))
  ∧ Forall (fun a => is_exec a = true -> a ∈ version_commands) (output script arg e).
Proof.
  intros Harg. unfold exit_status, output. rewrite (main_check _ _ _ Harg).
  destruct (check_facts e) as [Hs Hx]. split; [|done].
  rewrite <- (bool_decide_eq_true (_ = 0%nat)), Hs.
  rewrite !andb_true_iff, !orb_true_iff, !negb_true_iff, !Nat.eqb_eq.
  destruct (cmd_node e), (cmd_npm e); intuition congruence.
Qed.

Lemma check_only_reads_versions_witness :
  DeployScript.exit_status "./deploy.sh" "--check"
    (DeployScript.Env true true false 1 0 true true true 0 0 0) ≠ 0%nat.
Proof.
  destruct (check_only_reads_versions "./deploy.sh" "--check"
              (DeployScript.Env true true false 1 0 true true true 0 0 0)) as [H _].
  - by_eval.
  - intros Hz. apply H in Hz as (_ & Hn & _). by specialize (Hn eq_refl).
Defined.

(** X22.  An option other than the six of deploy, monitor and check runs no
    command at all: the usage text is printed, with status 0 for -h,
    --help and no option, with status 1 for anything else. *)
Theorem other_options_run_nothing (script arg : string) (e : env) :
  arg ∉ ["-d"; "--deploy"; "-m"; "--monitor"; "-c"; "--check"] ->
  Forall (fun a => is_exec a = false) (output script arg e)
  ∧ exit_status script arg e
    = (if bool_decide (arg ∈ ["-h"; "--help"; ""]) then 0 else 1)%nat.
Proof.
  intros Hn. pose proof (usage_no_exec script) as Hu.
  option_cases arg.
  - exfalso. list_tauto.
  - exfalso. list_tauto.
  - exfalso. list_tauto.
  - split; [exact Hu|]. rewrite bool_decide_eq_true_2; [done | list_tauto].
  - split.
    + unfold andthen, print_color, act. cbn [fst snd app]. by apply Forall_cons_2.
    + subst arg. reflexivity.
  - split.
    + unfold andthen, print_color, act, exit_. cbn [fst snd app show_usage].
      rewrite app_nil_r. by apply Forall_cons_2.
    + rewrite bool_decide_eq_false_2; [done | list_tauto].
Qed.

Lemma other_options_run_nothing_witness :
  Forall (fun a => DeployScript.is_exec a = false)
         (DeployScript.output "./deploy.sh" "--rollback"
            (DeployScript.Env true true true 0 0 true true true 0 0 0))
  ∧ DeployScript.exit_status "./deploy.sh" "--rollback"
      (DeployScript.Env true true true 0 0 true true true 0 0 0) = 1%nat.
Proof.
  apply (other_options_run_nothing "./deploy.sh" "--rollback"). by_eval.
Defined.

End DeployScriptFacts.

Section MonitorScriptFacts.
Import Shell MonitorScript.







End MonitorScriptFacts.

